(** * Repository document search of deso-mcp.js

    A shallow embedding of the repository search engine of [deso-mcp.js]
    ([searchRepositoryDocuments], [searchInDirectory], [isSearchableFile],
    [findMatches], [getDocumentTitle], [createExcerpt]), of the search
    tool that prints its results ([repositorySearch]), of the document
    reader ([readRepositoryDocument]) and of the component search
    ([searchComponents]), together with the parts of the
    JavaScript and Node.js run time they call: string methods, [RegExp],
    [Array.prototype.sort], [path] and [fs].

    Conventions.
    - A JavaScript string is a Rocq [string]; a character stands for one
      UTF-16 code unit below 256 (the Latin-1 range).
    - An exception is an explicit outcome ([Throw]); a [try] block is a
      case distinction on the outcome of its body.
    - The file system is a tree of directory entries that is only read.
    - The model of [RegExp] covers a fragment of the pattern syntax and
      answers [Unmodelled] outside of it. What has to hold for every
      pattern is stated over an engine of regular expressions that is a
      parameter ([RegExpEngine], [Generic]); with the engine of the model
      the functions over an engine are the functions of the model. *)

From Stdlib Require Import Bool Arith ZArith Lia List Ascii String.
From Stdlib Require Import Permutation Sorted.
From Stdlib Require Import DecimalString.
Import ListNotations.

Local Open Scope string_scope.
Local Open Scope list_scope.
Local Open Scope nat_scope.

(* ================================================================== *)
(** ** JavaScript strings *)
(* ================================================================== *)

Module JsString.

(** Code unit of a character. *)
Definition code (c : ascii) : nat := nat_of_ascii c.

(** [String.prototype.toLowerCase] on one code unit of the Latin-1 range:
    A-Z and the accented capitals U+00C0..U+00DE (without the
    multiplication sign U+00D7) move up by 32. *)
Definition toLowerCaseChar (c : ascii) : ascii :=
  let n := code c in
  if ((65 <=? n) && (n <=? 90)) ||
     ((192 <=? n) && (n <=? 222) && negb (n =? 215))
  then ascii_of_nat (n + 32) else c.

Fixpoint map (f : ascii -> ascii) (s : string) : string :=
  match s with
  | EmptyString => EmptyString
  | String c s' => String (f c) (map f s')
  end.

Definition toLowerCase (s : string) : string := map toLowerCaseChar s.

(** [s.split(sep)] for a separator of one character. The result is never
    empty: splitting the empty string gives one empty piece. *)
Fixpoint split (sep : ascii) (s : string) : list string :=
  match s with
  | EmptyString => [EmptyString]
  | String c s' =>
      if Ascii.eqb c sep then EmptyString :: split sep s'
      else match split sep s' with
           | piece :: pieces => String c piece :: pieces
           | [] => [String c EmptyString]
           end
  end.

(** [s.startsWith(p)]. *)
Definition startsWith (s p : string) : bool := String.prefix p s.

(** [s.includes(t)]: [t] occurs in [s] as a substring. *)
Fixpoint includes (s t : string) : bool :=
  String.prefix t s ||
  match s with
  | EmptyString => false
  | String _ s' => includes s' t
  end.

(** [s.substring(n)]. *)
Fixpoint substring_from (n : nat) (s : string) : string :=
  match n, s with
  | S n', String _ s' => substring_from n' s'
  | _, _ => s
  end.

(** [s.substring(0, n)]. *)
Fixpoint substring_to (n : nat) (s : string) : string :=
  match n, s with
  | S n', String c s' => String c (substring_to n' s')
  | _, _ => EmptyString
  end.

(** White space and line terminators of the Latin-1 range, as removed by
    [trim]: TAB, LF, VT, FF, CR, SP and NBSP. *)
Definition isWhiteSpace (c : ascii) : bool :=
  let n := code c in
  ((9 <=? n) && (n <=? 13)) || (n =? 32) || (n =? 160).

Fixpoint trimStart (s : string) : string :=
  match s with
  | String c s' => if isWhiteSpace c then trimStart s' else s
  | EmptyString => EmptyString
  end.

Fixpoint trimEnd (s : string) : string :=
  match s with
  | EmptyString => EmptyString
  | String c s' =>
      match trimEnd s' with
      | EmptyString => if isWhiteSpace c then EmptyString
                       else String c EmptyString
      | t => String c t
      end
  end.

(** [s.trim()]. *)
Definition trim (s : string) : string := trimEnd (trimStart s).

(** [s.replace(pat, rep)] with a string pattern: the first occurrence of
    [pat] is replaced ([rep] here never holds a [$]). *)
Fixpoint replace_first (pat rep s : string) : string :=
  if String.prefix pat s then (rep ++ substring_from (String.length pat) s)%string
  else match s with
       | EmptyString => EmptyString
       | String c s' => String c (replace_first pat rep s')
       end.

(** [lines.join(sep)]. *)
Definition join (sep : string) (l : list string) : string :=
  String.concat sep l.

(** [a.slice(start, end)] on an array, for indices within the natural
    numbers. *)
Definition slice {A : Type} (start stop : nat) (l : list A) : list A :=
  firstn (stop - start) (skipn start l).

(** [a.includes(x)] on an array of strings. *)
Definition array_includes (l : list string) (x : string) : bool :=
  existsb (String.eqb x) l.

End JsString.

Import JsString.

(* ================================================================== *)
(** ** Outcomes: return, throw, or outside the model *)
(* ================================================================== *)

(** A computation returns a value or throws. The third outcome marks a run
    that reaches a regular expression written with syntax this development
    does not model; nothing is claimed about such a run. *)
Inductive outcome (A : Type) : Type :=
| Ok (a : A)
| Throw
| Unmodelled.

Arguments Ok {A} a.
Arguments Throw {A}.
Arguments Unmodelled {A}.

Definition bind {A B : Type} (m : outcome A) (k : A -> outcome B) : outcome B :=
  match m with
  | Ok a => k a
  | Throw => Throw
  | Unmodelled => Unmodelled
  end.

Notation "x <- m ;; k" := (bind m (fun x => k))
  (at level 61, m at next level, right associativity).

(* ================================================================== *)
(** ** Regular expressions *)
(* ================================================================== *)

(** The pattern language modelled: pattern characters, [.], [^], [$],
    capturing groups, [|], the quantifiers [*], [+], [?] (greedy and lazy)
    and a backslash before a syntax character or [/]. A pattern that uses
    brackets, braces, another escape or a group that opens with [(?] is
    [Unmodelled]. Matching follows the backtracking semantics of
    ECMAScript (sections RepeatMatcher, Disjunction, Alternative). *)
Module RegExp.

Inductive token : Type :=
| TChar (c : ascii)
| TDot | TCaret | TDollar
| TStar | TPlus | TQuest
| TLParen | TRParen | TBar.

(** SyntaxCharacter of the pattern grammar. *)
Definition isSyntaxCharacter (c : ascii) : bool :=
  existsb (Ascii.eqb c)
    (list_ascii_of_string "^$\.*+?()[]{}|").

Definition token_of_char (c : ascii) : token :=
  if Ascii.eqb c "." then TDot
  else if Ascii.eqb c "^" then TCaret
  else if Ascii.eqb c "$" then TDollar
  else if Ascii.eqb c "*" then TStar
  else if Ascii.eqb c "+" then TPlus
  else if Ascii.eqb c "?" then TQuest
  else if Ascii.eqb c "(" then TLParen
  else if Ascii.eqb c ")" then TRParen
  else if Ascii.eqb c "|" then TBar
  else TChar c.

(** Tokens of a pattern, read left to right. A backslash that ends the
    pattern is a syntax error. *)
Fixpoint lex (p : string) : outcome (list token) :=
  match p with
  | EmptyString => Ok []
  | String c rest =>
      if Ascii.eqb c "\" then
        match rest with
        | EmptyString => Throw
        | String e rest' =>
            if isSyntaxCharacter e || Ascii.eqb e "/"
            then ts <- lex rest' ;; Ok (TChar e :: ts)
            else Unmodelled
        end
      else if existsb (Ascii.eqb c) (list_ascii_of_string "[]{}")
      then Unmodelled
      else ts <- lex rest ;; Ok (token_of_char c :: ts)
  end.

(** A group that opens with [(?] (non-capturing, named, look-around). *)
Fixpoint hasGroupSpecifier (ts : list token) : bool :=
  match ts with
  | TLParen :: TQuest :: _ => true
  | _ :: ts' => hasGroupSpecifier ts'
  | [] => false
  end.

Inductive quantifier : Type := QStar | QPlus | QOpt.

Inductive regex : Type :=
| Empty
| Char (c : ascii)
| Dot
| AssertStart
| AssertEnd
| Seq (r1 r2 : regex)
| Alt (r1 r2 : regex)
| Group (n : nat) (r : regex)
| Repeat (q : quantifier) (greedy : bool) (r : regex).

(** *** Parsing *)

(** The last term read: an atom a quantifier may follow, a greedy
    quantified atom a [?] may turn lazy, or a term nothing may follow
    (an assertion, a lazy quantified atom). *)
Inductive item : Type :=
| IAtom (r : regex)
| IQuant (q : quantifier) (r : regex)
| IClosed (r : regex).

Definition item_regex (i : item) : regex :=
  match i with
  | IAtom r => r
  | IQuant q r => Repeat q true r
  | IClosed r => r
  end.

(** A disjunction being read: the number of its group, the alternatives
    already closed by [|] and the terms of the current alternative, both
    most recent first. *)
Record frame : Type := {
  f_group : nat;
  f_alts : list regex;
  f_items : list item
}.

Definition alternative_of (items : list item) : regex :=
  fold_left (fun acc i => Seq (item_regex i) acc) items Empty.

Definition disjunction_of (f : frame) : regex :=
  fold_left (fun acc a => Alt a acc) (f_alts f) (alternative_of (f_items f)).

Definition push_item (i : item) (f : frame) : frame :=
  {| f_group := f_group f; f_alts := f_alts f; f_items := i :: f_items f |}.

Definition set_items (its : list item) (f : frame) : frame :=
  {| f_group := f_group f; f_alts := f_alts f; f_items := its |}.

(** [quantify q f]: the quantifier [q] after the last term of [f];
    [None] is the error "nothing to repeat". *)
Definition quantify (q : quantifier) (f : frame) : option frame :=
  match f_items f with
  | IAtom r :: its => Some (set_items (IQuant q r :: its) f)
  | _ => None
  end.

(** [parse ts groups cur stack]: [groups] left parentheses were read,
    [cur] is the innermost open disjunction, [stack] the enclosing ones.
    [None] is a syntax error. *)
Fixpoint parse (ts : list token) (groups : nat) (cur : frame) (stack : list frame)
  : option (regex * nat) :=
  match ts with
  | [] =>
      match stack with
      | [] => Some (disjunction_of cur, groups)
      | _ :: _ => None
      end
  | t :: ts' =>
      match t with
      | TChar c => parse ts' groups (push_item (IAtom (Char c)) cur) stack
      | TDot => parse ts' groups (push_item (IAtom Dot) cur) stack
      | TCaret => parse ts' groups (push_item (IClosed AssertStart) cur) stack
      | TDollar => parse ts' groups (push_item (IClosed AssertEnd) cur) stack
      | TStar =>
          match quantify QStar cur with
          | Some cur' => parse ts' groups cur' stack
          | None => None
          end
      | TPlus =>
          match quantify QPlus cur with
          | Some cur' => parse ts' groups cur' stack
          | None => None
          end
      | TQuest =>
          match f_items cur with
          | IAtom r :: its =>
              parse ts' groups (set_items (IQuant QOpt r :: its) cur) stack
          | IQuant q r :: its =>
              parse ts' groups (set_items (IClosed (Repeat q false r) :: its) cur) stack
          | _ => None
          end
      | TLParen =>
          parse ts' (S groups)
            {| f_group := S groups; f_alts := []; f_items := [] |}
            (cur :: stack)
      | TRParen =>
          match stack with
          | [] => None
          | parent :: stack' =>
              parse ts' groups
                (push_item (IAtom (Group (f_group cur) (disjunction_of cur))) parent)
                stack'
          end
      | TBar =>
          parse ts' groups
            {| f_group := f_group cur;
               f_alts := alternative_of (f_items cur) :: f_alts cur;
               f_items := [] |}
            stack
      end
  end.

(** A compiled regular expression: its syntax tree and the number of its
    capturing groups. *)
Record t : Type := { source_tree : regex; nGroups : nat }.

(** [new RegExp(pattern, flags)]. The flags do not change what parses;
    they are given where the expression is used. *)
Definition create (pattern : string) : outcome t :=
  ts <- lex pattern ;;
  if hasGroupSpecifier ts then Unmodelled
  else match parse ts 0 {| f_group := 0; f_alts := []; f_items := [] |} [] with
       | Some (r, n) => Ok {| source_tree := r; nGroups := n |}
       | None => Throw
       end.

(** *** Matching *)

(** A match state: the index reached, the input from that index on and
    the captures set so far (group number, captured text; the most recent
    first). *)
Record state : Type := {
  endIndex : nat;
  rest : string;
  captures : list (nat * string)
}.

Definition continuation : Type := state -> option state.

(** Canonicalize of a code unit under the flag [i], for the Latin-1
    range: the upper-case letter when it is again one code unit of the
    range (so sharp s, micro sign and y with diaeresis stay). *)
Definition canonicalize (ignoreCase : bool) (c : ascii) : ascii :=
  if ignoreCase then
    let n := code c in
    if ((97 <=? n) && (n <=? 122)) ||
       ((224 <=? n) && (n <=? 254) && negb (n =? 247))
    then ascii_of_nat (n - 32) else c
  else c.

(** Line terminators of the Latin-1 range, which [.] does not match. *)
Definition isLineTerminator (c : ascii) : bool :=
  (code c =? 10) || (code c =? 13).

(** One input character is consumed. *)
Definition advance (x : state) (s' : string) : state :=
  {| endIndex := S (endIndex x); rest := s'; captures := captures x |}.

(** Numbers of the groups inside a term. *)
Fixpoint groups_in (r : regex) : list nat :=
  match r with
  | Seq r1 r2 | Alt r1 r2 => groups_in r1 ++ groups_in r2
  | Group n r' => n :: groups_in r'
  | Repeat _ _ r' => groups_in r'
  | _ => []
  end.

(** The captures of the groups [gs] become undefined (start of an
    iteration of a quantified term). *)
Definition reset_captures (gs : list nat) (x : state) : state :=
  {| endIndex := endIndex x;
     rest := rest x;
     captures := filter (fun c => negb (existsb (Nat.eqb (fst c)) gs)) (captures x) |}.

(** Group [n] captured the input between [x] and [y]. *)
Definition set_capture (n : nat) (x y : state) : state :=
  {| endIndex := endIndex y;
     rest := rest y;
     captures := (n, substring_to (endIndex y - endIndex x) (rest x)) :: captures y |}.

(** The matcher of a term under [*], from state [x] with continuation
    [c]: [step] is the matcher of the term and [reset] clears the captures
    of its groups. An iteration that consumes nothing is rejected, so each
    accepted iteration shortens the input left; [bound] is at least the
    length of that input and is never used up (see [star_bound]). *)
Fixpoint star (step : state -> continuation -> option state) (reset : state -> state)
  (greedy : bool) (bound : nat) (x : state) (c : continuation) {struct bound}
  : option state :=
  let d := fun y : state =>
    if String.length (rest y) <? String.length (rest x)
    then match bound with
         | S bound' => star step reset greedy bound' y c
         | O => None
         end
    else None in
  if greedy then
    match step (reset x) d with
    | Some z => Some z
    | None => c x
    end
  else
    match c x with
    | Some z => Some z
    | None => step (reset x) d
    end.

(** [matcher ic r x c]: the matcher of [r] run from state [x] with
    continuation [c]; [None] is failure. *)
Fixpoint matcher (ignoreCase : bool) (r : regex) (x : state) (c : continuation)
  {struct r} : option state :=
  match r with
  | Empty => c x
  | Char a =>
      match rest x with
      | String ch s' =>
          if Ascii.eqb (canonicalize ignoreCase a) (canonicalize ignoreCase ch)
          then c (advance x s') else None
      | EmptyString => None
      end
  | Dot =>
      match rest x with
      | String ch s' => if isLineTerminator ch then None else c (advance x s')
      | EmptyString => None
      end
  | AssertStart => if endIndex x =? 0 then c x else None
  | AssertEnd =>
      match rest x with
      | EmptyString => c x
      | String _ _ => None
      end
  | Seq r1 r2 => matcher ignoreCase r1 x (fun y => matcher ignoreCase r2 y c)
  | Alt r1 r2 =>
      match matcher ignoreCase r1 x c with
      | Some z => Some z
      | None => matcher ignoreCase r2 x c
      end
  | Group n r' => matcher ignoreCase r' x (fun y => c (set_capture n x y))
  | Repeat q greedy r' =>
      let step := matcher ignoreCase r' in
      let reset := reset_captures (groups_in r') in
      match q with
      | QStar => star step reset greedy (String.length (rest x)) x c
      | QPlus =>
          step (reset x)
            (fun y => star step reset greedy (String.length (rest y)) y c)
      | QOpt =>
          let d := fun y : state =>
            if String.length (rest y) <? String.length (rest x)
            then c y else None in
          if greedy then
            match step (reset x) d with
            | Some z => Some z
            | None => c x
            end
          else
            match c x with
            | Some z => Some z
            | None => step (reset x) d
            end
      end
  end.

(** The match that starts at index [i], where [s] is the input from [i]
    on. *)
Definition match_at (ignoreCase : bool) (re : t) (i : nat) (s : string) : option state :=
  matcher ignoreCase (source_tree re)
    {| endIndex := i; rest := s; captures := [] |} (fun y => Some y).

(** All matches under the flag [g], each with its start index, as the loop
    of [String.prototype.match] and [replace] finds them: after a match
    that ends at [e] the search resumes at [e], and one index later after
    an empty match. [skip] counts the indices still covered by the last
    match. *)
Fixpoint match_all (ignoreCase : bool) (re : t) (i : nat) (s : string) (skip : nat)
  : list (nat * state) :=
  match skip with
  | S skip' =>
      match s with
      | EmptyString => []
      | String _ s' => match_all ignoreCase re (S i) s' skip'
      end
  | O =>
      match match_at ignoreCase re i s with
      | Some y =>
          (i, y) ::
          match s with
          | EmptyString => []
          | String _ s' => match_all ignoreCase re (S i) s' (pred (endIndex y - i))
          end
      | None =>
          match s with
          | EmptyString => []
          | String _ s' => match_all ignoreCase re (S i) s' 0
          end
      end
  end.

(** [s.match(re)] for [re] with the flag [g] and without [i]: the array
    of the matched texts, or [null]. Only the number of matches is used. *)
Definition matchGlobal (s : string) (re : t) : option (list (nat * state)) :=
  match match_all false re 0 s 0 with
  | [] => None
  | ms => Some ms
  end.

Definition lookup_capture (n : nat) (y : state) : option string :=
  option_map snd (find (fun c => fst c =? n) (captures y)).

(** The replacement text of one match for the template [**$1**]: [$1] is
    the text of group 1, empty when the group took no part, and stays as
    it is written when the expression has no group. *)
Definition substitution_bold (re : t) (y : state) : string :=
  if 1 <=? nGroups re then
    match lookup_capture 1 y with
    | Some text => ("**" ++ text ++ "**")%string
    | None => "****"
    end
  else "**$1**".

(** [s.replace(re, '**$1**')] for [re] with the flags [g] and [i]. *)
Fixpoint replace_all (re : t) (i : nat) (s : string) (skip : nat) : string :=
  match skip with
  | S skip' =>
      match s with
      | EmptyString => EmptyString
      | String _ s' => replace_all re (S i) s' skip'
      end
  | O =>
      match match_at true re i s with
      | Some y =>
          String.append (substitution_bold re y)
            match s with
            | EmptyString => EmptyString
            | String ch s' =>
                if endIndex y =? i
                then String ch (replace_all re (S i) s' 0)
                else replace_all re (S i) s' (pred (endIndex y - i))
            end
      | None =>
          match s with
          | EmptyString => EmptyString
          | String ch s' => String ch (replace_all re (S i) s' 0)
          end
      end
  end.

Definition replaceBold (s : string) (re : t) : string := replace_all re 0 s 0.

End RegExp.

(* ================================================================== *)
(** ** Node.js [path] (POSIX) *)
(* ================================================================== *)

Module Path.

(** State of the loop of [path.extname]. *)
Record ext_state : Type := {
  startDot : Z;
  startPart : Z;
  end_ : Z;
  matchedSlash : bool;
  preDotState : Z
}.

(** The loop [for (let i = path.length - 1; i >= 0; --i)] of
    [path.extname]: [chars] are the characters at the indices [i], [i-1],
    ..., 0. *)
Fixpoint extname_loop (chars : list ascii) (i : Z) (st : ext_state) : ext_state :=
  match chars with
  | [] => st
  | c :: chars' =>
      if Ascii.eqb c "/" then
        if negb (matchedSlash st)
        then {| startDot := startDot st; startPart := i + 1; end_ := end_ st;
                matchedSlash := matchedSlash st; preDotState := preDotState st |}
        else extname_loop chars' (i - 1) st
      else
        let st1 :=
          if (end_ st =? -1)%Z
          then {| startDot := startDot st; startPart := startPart st; end_ := i + 1;
                  matchedSlash := false; preDotState := preDotState st |}
          else st in
        let st2 :=
          if Ascii.eqb c "." then
            if (startDot st1 =? -1)%Z
            then {| startDot := i; startPart := startPart st1; end_ := end_ st1;
                    matchedSlash := matchedSlash st1; preDotState := preDotState st1 |}
            else if negb (preDotState st1 =? 1)%Z
            then {| startDot := startDot st1; startPart := startPart st1; end_ := end_ st1;
                    matchedSlash := matchedSlash st1; preDotState := 1 |}
            else st1
          else if negb (startDot st1 =? -1)%Z
          then {| startDot := startDot st1; startPart := startPart st1; end_ := end_ st1;
                  matchedSlash := matchedSlash st1; preDotState := -1 |}
          else st1 in
        extname_loop chars' (i - 1) st2
  end.

(** [path.extname(path)]. *)
Definition extname (path : string) : string :=
  let len := Z.of_nat (String.length path) in
  let st := extname_loop (rev (list_ascii_of_string path)) (len - 1)
              {| startDot := -1; startPart := 0; end_ := -1;
                 matchedSlash := true; preDotState := 0 |} in
  if (startDot st =? -1)%Z || (end_ st =? -1)%Z || (preDotState st =? 0)%Z ||
     ((preDotState st =? 1)%Z && (startDot st =? end_ st - 1)%Z &&
      (startDot st =? startPart st + 1)%Z)
  then EmptyString
  else String.substring (Z.to_nat (startDot st))
                        (Z.to_nat (end_ st - startDot st)) path.

(** A normalized absolute path: its components from the root, and whether
    it ends with a separator. *)
Record t : Type := {
  components : list string;
  trailingSlash : bool
}.

(** One segment of [normalizeString] on an absolute path, the components
    held innermost first: empty and [.] segments vanish, [..] drops the
    innermost component and stays at the root. *)
Definition push_segment (stack : list string) (seg : string) : list string :=
  if String.eqb seg "" || String.eqb seg "." then stack
  else if String.eqb seg ".." then tl stack
  else seg :: stack.

Definition nonEmpty (s : string) : bool := negb (String.eqb s "").

Fixpoint endsWithSlash (s : string) : bool :=
  match s with
  | EmptyString => false
  | String c EmptyString => Ascii.eqb c "/"
  | String _ s' => endsWithSlash s'
  end.

(** [path.join(base, ...parts)] for an absolute [base]: the non-empty
    arguments are joined with [/] and the whole is normalized. *)
Definition join (base : t) (parts : list string) : t :=
  let parts' := filter nonEmpty parts in
  let segments := flat_map (JsString.split "/") parts' in
  let comps := rev (fold_left push_segment segments (rev (components base))) in
  let ends :=
    match rev parts' with
    | p :: _ => endsWithSlash p
    | [] => trailingSlash base
    end in
  {| components := comps;
     trailingSlash := ends && negb (Nat.eqb (List.length comps) 0) |}.

(** [path.basename(p)]. *)
Definition basename (p : t) : string := last (components p) EmptyString.

Fixpoint strip_common (from to : list string) : list string * list string :=
  match from, to with
  | f :: from', c :: to' =>
      if String.eqb f c then strip_common from' to' else (from, to)
  | _, _ => (from, to)
  end.

(** [path.relative(from, to)] for absolute paths: one [..] for each
    component of [from] below the common prefix, then what is left of
    [to]. *)
Definition relative (from to : t) : string :=
  let '(up, down) := strip_common (components from) (components to) in
  JsString.join "/" (List.map (fun _ => "..") up ++ down).

(** The path as text. *)
Definition to_string (p : t) : string :=
  match components p with
  | [] => "/"
  | comps =>
      (String.concat "" (List.map (fun c => "/" ++ c) comps)
       ++ (if trailingSlash p then "/" else ""))%string
  end.

End Path.

(* ================================================================== *)
(** ** The file system *)
(* ================================================================== *)

Module Fs.

(** A directory entry, as [readdir] with [withFileTypes] reports it. A
    file holds its text, or nothing when [readFile] rejects; a directory
    holds its listing, or nothing when [readdir] rejects (such a directory
    is not traversed by [lookup] either); [Other] is an entry that is
    neither a file nor a directory (a socket, or a symbolic link, which
    [readdir] reports as such; links are not followed in this model). *)
#[warnings="-register-all"]
Inductive entry : Type :=
| File (name : string) (content : option string)
| Dir (name : string) (listing : option (list entry))
| Other (name : string).

Definition name (e : entry) : string :=
  match e with
  | File n _ | Dir n _ | Other n => n
  end.

Definition isDirectory (e : entry) : bool :=
  match e with Dir _ _ => true | _ => false end.

Definition isFile (e : entry) : bool :=
  match e with File _ _ => true | _ => false end.

(** The entry a sequence of components leads to, from the listing of the
    root directory. *)
Fixpoint lookup (listing : list entry) (comps : list string) : option entry :=
  match comps with
  | [] => None
  | c :: comps' =>
      match find (fun e => String.eqb (name e) c) listing with
      | Some e =>
          match comps' with
          | [] => Some e
          | _ :: _ =>
              match e with
              | Dir _ (Some sub) => lookup sub comps'
              | _ => None
              end
          end
      | None => None
      end
  end.

(** [fs.stat(p)]: the entry at [p], the root directory included. *)
Definition stat (root : list entry) (p : Path.t) : outcome entry :=
  match Path.components p with
  | [] => Ok (Dir "" (Some root))
  | comps =>
      match lookup root comps with
      | Some e => Ok e
      | None => Throw
      end
  end.

(** [fs.readFile(p, 'utf-8')]. A path that ends with a separator never
    opens as a file. *)
Definition readFile (root : list entry) (p : Path.t) : outcome string :=
  if Path.trailingSlash p then Throw
  else match lookup root (Path.components p) with
       | Some (File _ (Some text)) => Ok text
       | _ => Throw
       end.

End Fs.

(* ================================================================== *)
(** ** The search engine of deso-mcp.js *)
(* ================================================================== *)

Import Fs.

(** The result record built by [findMatches]. *)
Record SearchResult : Type := {
  title : string;
  path : string;
  repository : string;
  score : nat;
  excerpt : string;
  matchCount : nat
}.

(** An element of [relevantLines]. *)
Record MatchContext : Type := {
  lineNumber : nat;
  content : string;
  matchLine : string
}.

Definition searchableExtensions : list string :=
  [".md"; ".txt"; ".js"; ".ts"; ".go"; ".json"; ".yaml"; ".yml"; ".tsx"; ".jsx";
   ".graphql"; ".gql"; ".css"; ".scss"; ".html"; ".vue"; ".py"; ".sh"; ".env";
   ".toml"; ".ini"; ".conf"; ".config"; ".lock"].

Definition isSearchableFile (filename : string) : bool :=
  let ext := toLowerCase (Path.extname filename) in
  array_includes searchableExtensions ext ||
  String.eqb filename "README" || String.eqb filename "LICENSE".

(** [replace(/[-_]/g, ' ')]. *)
Definition dashesToSpaces (s : string) : string :=
  JsString.map (fun c => if Ascii.eqb c "-" || Ascii.eqb c "_" then " "%char else c) s.

Definition getDocumentTitle (content fileName : string) : string :=
  let lines := split (ascii_of_nat 10) content in
  match find (fun line => startsWith line "# ") (slice 0 10 lines) with
  | Some line => trim (substring_from 2 line)
  | None => dashesToSpaces (replace_first (Path.extname fileName) "" fileName)
  end.

(** The loop over [searchTerms] of [createExcerpt]. *)
Fixpoint highlight (excerpt : string) (searchTerms : list string) : outcome string :=
  match searchTerms with
  | [] => Ok excerpt
  | term :: terms' =>
      regex <- RegExp.create ("(" ++ term ++ ")")%string ;;
      highlight (RegExp.replaceBold excerpt regex) terms'
  end.

Definition createExcerpt (relevantLines : list MatchContext) (searchTerms : list string)
  : outcome string :=
  match relevantLines with
  | [] => Ok EmptyString
  | bestMatch :: _ =>
      excerpt <- highlight (content bestMatch) searchTerms ;;
      if 500 <? String.length excerpt
      then Ok (substring_to 500 excerpt ++ "...")%string
      else Ok excerpt
  end.

(** The loop that computes [score] in [findMatches]. *)
Fixpoint scoreLoop (contentLower : string) (searchTerms : list string) (score : nat)
  : outcome nat :=
  match searchTerms with
  | [] => Ok score
  | term :: terms' =>
      regex <- RegExp.create term ;;
      let termCount :=
        match RegExp.matchGlobal contentLower regex with
        | Some ms => List.length ms
        | None => List.length (@nil (nat * RegExp.state))
        end in
      scoreLoop contentLower terms' (score + termCount)
  end.

(** The loop [for (let i = 0; i < lines.length; i++)] of [findMatches]:
    [todo] holds the lines from index [i] on. *)
Fixpoint relevantLoop (lines : list string) (searchTerms : list string)
  (i : nat) (todo : list string) : list MatchContext :=
  match todo with
  | [] => []
  | line :: todo' =>
      let lineLower := toLowerCase line in
      if existsb (fun term => includes lineLower term) searchTerms then
        let start := Nat.max 0 (i - 2) in
        let stop := Nat.min (List.length lines) (i + 3) in
        {| lineNumber := i + 1;
           content := join (String (ascii_of_nat 10) EmptyString) (slice start stop lines);
           matchLine := line |}
        :: relevantLoop lines searchTerms (S i) todo'
      else relevantLoop lines searchTerms (S i) todo'
  end.

Section Engine.

(** [process.cwd()], an absolute path. *)
Variable cwd : Path.t.

(** The listing of the root directory of the file system. *)
Variable root : list entry.

Definition reposPath : Path.t := Path.join cwd ["repos"].

Definition findMatches (content : string) (searchTerms : list string)
  (filePath : Path.t) (repository : string) : outcome (list SearchResult) :=
  let lines := split (ascii_of_nat 10) content in
  let contentLower := toLowerCase content in
  score <- scoreLoop contentLower searchTerms 0 ;;
  if score =? 0 then Ok []
  else
    let relevantLines := relevantLoop lines searchTerms 0 lines in
    let fileName := Path.basename filePath in
    let title := getDocumentTitle content fileName in
    excerpt <- createExcerpt relevantLines searchTerms ;;
    Ok [ {| title := title;
            path := Path.relative reposPath filePath;
            repository := repository;
            score := score;
            excerpt := excerpt;
            matchCount := List.length relevantLines |} ].

(** The test that guards the recursive call of [searchInDirectory]. *)
Definition descends (e : entry) : bool :=
  isDirectory e && negb (startsWith (name e) ".") &&
  negb (String.eqb (name e) "node_modules") && negb (String.eqb (name e) ".next") &&
  negb (String.eqb (name e) "dist") && negb (String.eqb (name e) "build") &&
  negb (String.eqb (name e) "storybook-static").

(** How a block of statements ends, next to the array [results] it
    pushed on. *)
Definition completion : Type := (list SearchResult * outcome unit)%type.

Section Loop.

(** The recursive call [searchInDirectory(fullPath, repository,
    searchTerms)] on a subdirectory. *)
Variable recurse : Path.t -> entry -> outcome (list SearchResult).
Variable dirPath : Path.t.
Variable repository : string.
Variable searchTerms : list string.

(** [fs.readFile(fullPath, 'utf-8')] on the entry at [fullPath]. *)
Definition readEntry (e : entry) : outcome string :=
  match e with
  | File _ (Some text) => Ok text
  | _ => Throw
  end.

(** The loop [for (const entry of entries)] of [searchInDirectory]. A
    throw inside the inner [try] is caught and the loop continues; a
    throw elsewhere ends the loop. *)
Fixpoint searchLoop (entries : list entry) (results : list SearchResult)
  : completion :=
  match entries with
  | [] => (results, Ok tt)
  | e :: entries' =>
      let fullPath := Path.join dirPath [name e] in
      if descends e then
        match recurse fullPath e with
        | Ok subResults => searchLoop entries' (results ++ subResults)
        | Throw => (results, Throw)
        | Unmodelled => (results, Unmodelled)
        end
      else if isFile e && isSearchableFile (name e) then
        match (content <- readEntry e ;;
               findMatches content searchTerms fullPath repository) with
        | Ok matches => searchLoop entries' (results ++ matches)
        | Throw => searchLoop entries' results
        | Unmodelled => (results, Unmodelled)
        end
      else searchLoop entries' results
  end.

End Loop.

(** The end of [searchInDirectory]: the outer [catch] logs and falls
    through to [return results]. *)
Definition returnResults (c : completion) : outcome (list SearchResult) :=
  match snd c with
  | Unmodelled => Unmodelled
  | _ => Ok (fst c)
  end.

(** [searchInDirectory(dirPath, repository, searchTerms)], where [dir] is
    the entry at [dirPath]: [fs.readdir] answers its listing, and rejects
    when it has none or is no directory. *)
Fixpoint searchInDirectory (dirPath : Path.t) (repository : string)
  (searchTerms : list string) (dir : entry) {struct dir}
  : outcome (list SearchResult) :=
  match dir with
  | Dir _ (Some entries) =>
      returnResults
        (searchLoop
           (fun fullPath sub => searchInDirectory fullPath repository searchTerms sub)
           dirPath repository searchTerms entries [])
  | _ => returnResults ([], Throw)
  end.

Definition repositories : list string :=
  ["docs"; "core"; "identity"; "frontend"; "backend"; "deso-js"; "deso-chat";
   "deso-ui"; "graphql"].

(** [Array.prototype.sort(comparefn)]: a stable sort (ECMAScript 2019
    and later; the image of the server runs Node.js 18), here by insertion:
    [x] goes before the first element it does not compare greater than. *)
Fixpoint sort_insert {A : Type} (comparefn : A -> A -> Z) (x : A) (l : list A) : list A :=
  match l with
  | [] => [x]
  | y :: l' =>
      if (comparefn x y <=? 0)%Z then x :: y :: l'
      else y :: sort_insert comparefn x l'
  end.

Definition Array_sort {A : Type} (comparefn : A -> A -> Z) (l : list A) : list A :=
  fold_right (sort_insert comparefn) [] l.

(** The loop [for (const repo of repositories)] of
    [searchRepositoryDocuments]. *)
Fixpoint reposLoop (repos : list string) (searchTerms : list string)
  (results : list SearchResult) : outcome (list SearchResult) :=
  match repos with
  | [] => Ok results
  | repo :: repos' =>
      let repoPath := Path.join reposPath [repo] in
      match (stats <- Fs.stat root repoPath ;;
             if isDirectory stats then
               repoResults <- searchInDirectory repoPath repo searchTerms stats ;;
               Ok (results ++ repoResults)
             else Ok results) with
      | Ok results' => reposLoop repos' searchTerms results'
      | Throw => reposLoop repos' searchTerms results
      | Unmodelled => Unmodelled
      end
  end.

Definition searchTermsOf (query : string) : list string :=
  split " " (toLowerCase query).

Definition byScore (a b : SearchResult) : Z :=
  (Z.of_nat (score b) - Z.of_nat (score a))%Z.

Definition searchRepositoryDocuments (query : string) : outcome (list SearchResult) :=
  let searchTerms := searchTermsOf query in
  results <- reposLoop repositories searchTerms [] ;;
  Ok (Array_sort byScore results).

(** *** The document reader *)

Definition newline : string := String (ascii_of_nat 10) EmptyString.

(** What [readRepositoryDocument] answers: the text of the document
    page, or the error page for the path asked (its text also quotes the
    message of the error caught). *)
Inductive response : Type :=
| DocumentPage (text : string)
| ReadErrorPage (docPath : string) (repository : string).

(** [repository || fallback]. *)
Definition orElse (repository : option string) (fallback : string) : string :=
  match repository with
  | Some r => if String.eqb r "" then fallback else r
  | None => fallback
  end.

(** The path [readRepositoryDocument] opens: the branch [if (repository)]
    is taken for a repository that is given and not the empty string. *)
Definition resolveDocument (docPath : string) (repository : option string) : Path.t :=
  match repository with
  | Some r =>
      if String.eqb r "" then Path.join cwd ["repos"; docPath]
      else Path.join cwd ["repos"; r; docPath]
  | None => Path.join cwd ["repos"; docPath]
  end.

Definition readRepositoryDocument (docPath : string) (repository : option string)
  : response :=
  let fullPath := resolveDocument docPath repository in
  match Fs.readFile root fullPath with
  | Ok content =>
      let fileName := Path.basename fullPath in
      let title := getDocumentTitle content fileName in
      DocumentPage
        ("# " ++ title ++ newline ++ newline ++
         "**Path:** `" ++ docPath ++ "`" ++ newline ++
         "**Repository:** " ++ orElse repository "auto-detected" ++ newline ++
         "**File:** " ++ fileName ++ newline ++ newline ++
         "---" ++ newline ++ newline ++
         content)%string
  | _ => ReadErrorPage docPath (orElse repository "auto-detect")
  end.

End Engine.

(* ================================================================== *)
(** ** Vocabulary: directory trees *)
(* ================================================================== *)

(** Induction on an entry with the hypothesis for every entry of a
    listing. *)
Section EntryInduction.

Variable P : entry -> Prop.
Hypothesis P_File : forall n c, P (File n c).
Hypothesis P_Other : forall n, P (Other n).
Hypothesis P_Dir_closed : forall n, P (Dir n None).
Hypothesis P_Dir : forall n l, Forall P l -> P (Dir n (Some l)).

Fixpoint entry_induction (e : entry) : P e :=
  match e with
  | File n c => P_File n c
  | Other n => P_Other n
  | Dir n None => P_Dir_closed n
  | Dir n (Some l) =>
      P_Dir n l
        ((fix all (l : list entry) : Forall P l :=
            match l with
            | [] => Forall_nil P
            | x :: l' => Forall_cons x (entry_induction x) (all l')
            end) l)
  end.

End EntryInduction.

(** An entry the loop of [searchInDirectory] passes over: it is not
    descended into and is no searchable file that reads, or it is a
    directory whose listing cannot be read. *)
Definition inert (e : entry) : Prop :=
  (descends e = false /\
   (isFile e && isSearchableFile (name e) = false \/ readEntry e = Throw)) \/
  (exists n, e = Dir n None).

(** [prune dead e]: the tree [e] without the entries [dead] holds of, at
    every depth. *)
Fixpoint prune (dead : entry -> bool) (e : entry) : entry :=
  match e with
  | Dir n (Some l) =>
      Dir n (Some ((fix prune_list (l : list entry) : list entry :=
                      match l with
                      | [] => []
                      | x :: l' =>
                          if dead x then prune_list l'
                          else prune dead x :: prune_list l'
                      end) l))
  | _ => e
  end.

Fixpoint prune_list (dead : entry -> bool) (l : list entry) : list entry :=
  match l with
  | [] => []
  | x :: l' =>
      if dead x then prune_list dead l' else prune dead x :: prune_list dead l'
  end.

(** The recursive call of [searchInDirectory], as the loop receives it. *)
Definition walk (cwd : Path.t) (repository : string) (searchTerms : list string)
  (fullPath : Path.t) (sub : entry) : outcome (list SearchResult) :=
  searchInDirectory cwd fullPath repository searchTerms sub.

(** A file the classifier turns down. *)
Definition ineligibleFile (e : entry) : bool :=
  isFile e && negb (isSearchableFile (name e)).

Definition excludedNames : list string :=
  [ "node_modules"; ".next"; "dist"; "build"; "storybook-static" ].

(** A directory the walk does not enter. *)
Definition excludedDirectory (e : entry) : bool :=
  isDirectory e && negb (descends e).

(** A file [readFile] rejects, or a directory [readdir] rejects. *)
Definition unreadable (e : entry) : bool :=
  match e with
  | File _ None => true
  | Dir _ None => true
  | _ => false
  end.

(** The repository roots of [root'] are those of [root] without the
    entries [dead] holds of. *)
Definition repositoriesPruned (dead : entry -> bool) (cwd : Path.t)
  (root root' : list entry) : Prop :=
  forall repo, In repo repositories ->
    Fs.stat root' (Path.join (reposPath cwd) [repo]) =
    (e <- Fs.stat root (Path.join (reposPath cwd) [repo]) ;; Ok (prune dead e)).

(* ================================================================== *)
(** ** Vocabulary: ranking, terms, lines, titles *)
(* ================================================================== *)

(** [a] may stand before [b] in a list ranked by score. *)
Definition ranksBefore (a b : SearchResult) : Prop := score b <= score a.

Definition hasScore (k : nat) (r : SearchResult) : bool := score r =? k.

(** The pattern is written in the syntax modelled. *)
Definition modelled (term : string) : Prop := RegExp.create term <> Unmodelled.

(** The line contains at least one of the terms, once lowercased. *)
Definition lineMatches (searchTerms : list string) (line : string) : bool :=
  existsb (fun term => includes (toLowerCase line) term) searchTerms.

(** The file name without its extension: what is left when the last
    characters, as many as the extension has, are dropped. *)
Definition stripExtension (fileName : string) : string :=
  substring_to (String.length fileName - String.length (Path.extname fileName)) fileName.

(** The fallback title in the words of the specification: the file name
    with its extension stripped and each dash and underscore replaced by a
    space. *)
Definition fallbackTitle_spec (fileName : string) : string :=
  dashesToSpaces (stripExtension fileName).

(* ================================================================== *)
(** ** Vocabulary: occurrences and literal terms *)
(* ================================================================== *)

(** What is left of [s] after the prefix [t], if [t] is a prefix. *)
Fixpoint afterPrefix (t s : string) : option string :=
  match t, s with
  | EmptyString, _ => Some s
  | String a t', String b s' => if Ascii.eqb a b then afterPrefix t' s' else None
  | String _ _, EmptyString => None
  end.

(** The occurrences of [t] in [s] in the words of the specification: they
    are counted from the left and do not overlap; [skip] characters of [s]
    still belong to the occurrence counted last. *)
Fixpoint occurrencesFrom (t s : string) (skip : nat) : nat :=
  match skip with
  | S skip' =>
      match s with
      | EmptyString => 0
      | String _ s' => occurrencesFrom t s' skip'
      end
  | O =>
      if startsWith s t then
        S match s with
          | EmptyString => 0
          | String _ s' => occurrencesFrom t s' (pred (String.length t))
          end
      else
        match s with
        | EmptyString => 0
        | String _ s' => occurrencesFrom t s' 0
        end
  end.

Definition countOccurrences (s t : string) : nat := occurrencesFrom t s 0.

(** The score in the words of the specification: the occurrences of each
    term in the lowercased content, summed over the terms. *)
Definition score_spec (content : string) (searchTerms : list string) : nat :=
  list_sum (List.map (countOccurrences (toLowerCase content)) searchTerms).

(** A term without syntax characters. *)
Fixpoint isLiteral (t : string) : bool :=
  match t with
  | EmptyString => true
  | String c t' => negb (RegExp.isSyntaxCharacter c) && isLiteral t'
  end.

Fixpoint charTokens (t : string) : list RegExp.token :=
  match t with
  | EmptyString => []
  | String c t' => RegExp.TChar c :: charTokens t'
  end.

Fixpoint pushChars (t : string) (items : list RegExp.item) : list RegExp.item :=
  match t with
  | EmptyString => items
  | String c t' => pushChars t' (RegExp.IAtom (RegExp.Char c) :: items)
  end.

(** The tree of a literal: its characters in sequence. *)
Fixpoint literalTree (t : string) (tail : RegExp.regex) : RegExp.regex :=
  match t with
  | EmptyString => tail
  | String c t' => RegExp.Seq (RegExp.Char c) (literalTree t' tail)
  end.

Definition literalPattern (t : string) : RegExp.t :=
  {| RegExp.source_tree := literalTree t RegExp.Empty; RegExp.nGroups := 0 |}.

Definition literalGroup (t : string) : RegExp.t :=
  {| RegExp.source_tree :=
       RegExp.Seq (RegExp.Group 1 (literalTree t RegExp.Empty)) RegExp.Empty;
     RegExp.nGroups := 1 |}.

(** The expression of the empty pattern, and of the empty pattern in a
    group. *)
Definition emptyPattern : RegExp.t :=
  {| RegExp.source_tree := RegExp.Empty; RegExp.nGroups := 0 |}.

Definition emptyGroup : RegExp.t :=
  {| RegExp.source_tree := RegExp.Seq (RegExp.Group 1 RegExp.Empty) RegExp.Empty;
     RegExp.nGroups := 1 |}.

(** A query of [n] spaces. *)
Fixpoint spaces (n : nat) : string :=
  match n with
  | O => EmptyString
  | S n' => String " " (spaces n')
  end.

(** The spans (start index, end index) of the matches of a pattern in
    [s] under the flag [g], when the pattern compiles. *)
Definition matchSpans (pattern s : string) : outcome (list (nat * nat)) :=
  re <- RegExp.create pattern ;;
  Ok (List.map (fun m => (fst m, RegExp.endIndex (snd m)))
        (RegExp.match_all false re 0 s 0)).

(** [s.replace(new RegExp(pattern, 'gi'), '**$1**')]. *)
Definition bold (pattern s : string) : outcome string :=
  re <- RegExp.create pattern ;; Ok (RegExp.replaceBold s re).

(* ================================================================== *)
(** ** Vocabulary: paths *)
(* ================================================================== *)

(** [n] times the segment [../]. *)
Fixpoint climb (n : nat) : string :=
  match n with
  | O => EmptyString
  | S n' => ("../" ++ climb n')%string
  end.

Fixpoint isPrefixOf (a b : list string) : bool :=
  match a, b with
  | [], _ => true
  | x :: a', y :: b' => String.eqb x y && isPrefixOf a' b'
  | _ :: _, [] => false
  end.

(** The path [p] is the directory [dir] or lies under it. *)
Definition isUnder (dir p : Path.t) : bool :=
  isPrefixOf (Path.components dir) (Path.components p).

(* ================================================================== *)
(** ** Sample file systems *)
(* ================================================================== *)

Module Sample.

Definition app : Path.t := {| Path.components := ["app"]; Path.trailingSlash := false |}.

Definition lf : string := String (ascii_of_nat 10) EmptyString.

Definition intro : string :=
  ("# Intro" ++ lf ++ lf ++ "This covers transaction flow and fees.")%string.

(** The working directory [/app] with the repositories [docs] and
    [core]. *)
Definition inRepos (docs core : list entry) : list entry :=
  [ Dir "etc" (Some [File "passwd" (Some "root:x:0:0")]);
    Dir "app" (Some [ Dir "repos" (Some [ Dir "docs" (Some docs);
                                           Dir "core" (Some core) ]);
                      File "deso-mcp.js" (Some "// server") ]) ].

Definition docsPlain : list entry :=
  [ Dir "docs" (Some [File "a.md" (Some intro)]);
    File "fees.md" (Some "fee fee, Fee") ].

Definition corePlain : list entry :=
  [ File "README" (Some "no fee");
    File "notes.txt" (Some "a c++ note (draft)") ].

Definition plain : list entry := inRepos docsPlain corePlain.

(** The repository [docs] with an image that holds both terms of a
    query. *)
Definition docsWithImage : list entry :=
  File "logo.png" (Some "transaction fee") :: docsPlain.

(** The repository [docs] with directories the walk does not enter, each
    holding a matching Markdown file. *)
Definition docsWithExcluded : list entry :=
  [ Dir "node_modules" (Some [File "b.md" (Some "transaction fee")]);
    Dir ".git" (Some [File "c.md" (Some "fee")]);
    Dir "docs" (Some [File "a.md" (Some intro);
                      Dir "build" (Some [File "d.md" (Some "fee")])]);
    File "fees.md" (Some "fee fee, Fee") ].

(** The repository [docs] with a file that cannot be read and a directory
    that cannot be listed. *)
Definition docsWithFailures : list entry :=
  [ Dir "docs" (Some [File "a.md" (Some intro)]);
    File "locked.md" None;
    Dir "private" None;
    File "fees.md" (Some "fee fee, Fee") ].

Definition fiveLines : string :=
  ("fee" ++ lf ++ "none" ++ lf ++ "Fee fee" ++ lf ++ "" ++ lf ++ "a flow")%string.

End Sample.

(* ================================================================== *)
(** ** Vocabulary: where a result comes from *)
(* ================================================================== *)

(** The path of the entry reached from [dirPath] through the names
    [names], as [searchInDirectory] builds it: one [path.join] for each
    name. *)
Definition joinAll (dirPath : Path.t) (names : list string) : Path.t :=
  fold_left (fun p n => Path.join p [n]) names dirPath.

(** [walked dir names e]: the walk that starts in the directory [dir]
    reaches the entry [e] of a listing through the names [names]; every
    directory on the way is one the walk descends into. *)
Inductive walked : entry -> list string -> entry -> Prop :=
| walked_here n l e :
    In e l -> walked (Dir n (Some l)) [name e] e
| walked_deeper n l d names e :
    In d l -> descends d = true -> walked d names e ->
    walked (Dir n (Some l)) (name d :: names) e.

(** The result [r] was built by [findMatches] from the text of a
    searchable file that the walk from [dir] reaches through [names]. *)
Definition comesFrom (cwd : Path.t) (searchTerms : list string) (repo : string)
  (dirPath : Path.t) (dir : entry) (names : list string) (text : string)
  (r : SearchResult) : Prop :=
  exists n,
    walked dir names (File n (Some text)) /\
    isSearchableFile n = true /\
    findMatches cwd text searchTerms (joinAll dirPath names) repo = Ok [r].

(* ================================================================== *)
(** ** Vocabulary: well-formed directory trees *)
(* ================================================================== *)

(** A name as [readdir] reports it: not empty, without separator, and
    neither [.] nor [..]. *)
Definition validName (n : string) : bool :=
  Path.nonEmpty n && negb (includes n "/") &&
  negb (String.eqb n ".") && negb (String.eqb n "..").

(** No name occurs twice. *)
Fixpoint uniqueNames (names : list string) : bool :=
  match names with
  | [] => true
  | n :: names' => negb (array_includes names' n) && uniqueNames names'
  end.

(** Every name below [e] is valid, and no listing holds a name twice. *)
Fixpoint wellFormed (e : entry) : bool :=
  validName (name e) &&
  match e with
  | Dir _ (Some l) => uniqueNames (List.map name l) && forallb wellFormed l
  | _ => true
  end.

Definition wellFormedListing (l : list entry) : bool :=
  uniqueNames (List.map name l) && forallb wellFormed l.

(** The name of a directory the walk descends into. *)
Definition allowedDirectory (n : string) : bool :=
  negb (startsWith n ".") && negb (array_includes excludedNames n).

(** The path with the components [comps] and no trailing separator. *)
Definition pathOf (comps : list string) : Path.t :=
  {| Path.components := comps; Path.trailingSlash := false |}.

(* ================================================================== *)
(** ** The search tool of deso-mcp.js *)
(* ================================================================== *)

(** The double quotation mark. *)
Definition doubleQuote : string := String (ascii_of_nat 34) EmptyString.

(** [`${n}`] for the length of an array: its decimal digits. *)
Definition numberToString (n : nat) : string :=
  NilEmpty.string_of_uint (Nat.to_uint n).

(** What [repositorySearch] answers: the text of a page, or the error
    page for the query asked (its text also quotes the message of the
    error caught). *)
Inductive searchResponse : Type :=
| SearchPage (text : string)
| SearchErrorPage (query : string).

(** The page for an empty list of results. *)
Definition noMatchesPage (query : string) : string :=
  ("# Repository Search Results" ++ newline ++ newline ++
   "**Query:** " ++ doubleQuote ++ query ++ doubleQuote ++ newline ++ newline ++
   "No matching documents found in the DeSo repository." ++ newline ++ newline ++
   "**Available repositories:** docs, core, identity, frontend, backend, deso-js")%string.

(** The head of the page for [n] results. *)
Definition resultsHeader (query : string) (n : nat) : string :=
  ("# Repository Search Results" ++ newline ++ newline ++
   "**Query:** " ++ doubleQuote ++ query ++ doubleQuote ++ newline ++
   "**Found:** " ++ numberToString n ++ " matches" ++ newline ++ newline)%string.

(** What the body of the loop [for (const result of results.slice(0, 10))]
    appends to [response]. *)
Definition appendResult (response : string) (result : SearchResult) : string :=
  let response := (response ++ "## " ++ title result ++ newline)%string in
  let response := (response ++ "**Path:** `" ++ path result ++ "`" ++ newline)%string in
  let response :=
    (response ++ "**Repository:** " ++ repository result ++ newline ++ newline)%string in
  (response ++ excerpt result ++ newline ++ newline ++ "---" ++ newline ++ newline)%string.

(** The line that follows the results when some are left out. *)
Definition topTenNotice (n : nat) : string :=
  ("*Showing top 10 of " ++ numberToString n ++ " results*" ++ newline)%string.

(** What [repositorySearch] is called with. The dispatcher hands it
    [request.params.arguments] as it comes, and nothing checks it against
    the schema of the tool. [const { query } = args] stands before the
    [try]: when [args] is [undefined] or [null] the destructuring throws a
    TypeError that leaves the function. Otherwise [query] is the value of the
    property, [undefined] when it is missing. The arguments are decoded
    from JSON, so a value that is no string has no method [toLowerCase].
    Such a value is kept as what [`${query}`] prints of it, if that prints
    at all: the template throws for an object whose [toString] and
    [valueOf] cannot be called. *)
Inductive queryValue : Type :=
| QueryString (query : string)
| QueryOther (printed : option string).

(** [repositorySearch(args)]: [None] is an [args] that cannot be
    destructured, [Some value] an [args] with the value of its property
    [query]. For a value that is no string the call of [toLowerCase] in
    [searchRepositoryDocuments] throws a TypeError inside the [try]; the
    [catch] builds the error page with [`${query}`], and what the template
    throws there leaves the function. *)
Definition repositorySearch (cwd : Path.t) (root : list entry)
  (args : option queryValue) : outcome searchResponse :=
  match args with
  | None => Throw
  | Some (QueryOther None) => Throw
  | Some (QueryOther (Some printed)) => Ok (SearchErrorPage printed)
  | Some (QueryString query) =>
      match searchRepositoryDocuments cwd root query with
      | Ok results =>
          if List.length results =? 0 then Ok (SearchPage (noMatchesPage query))
          else
            let response := resultsHeader query (List.length results) in
            let response := fold_left appendResult (slice 0 10 results) response in
            let response :=
              if 10 <? List.length results
              then (response ++ topTenNotice (List.length results))%string
              else response in
            Ok (SearchPage response)
      | Throw => Ok (SearchErrorPage query)
      | Unmodelled => Unmodelled
      end
  end.

(* ================================================================== *)
(** ** Vocabulary: the page of results *)
(* ================================================================== *)

(** The section of one result on the page. *)
Definition resultSection (result : SearchResult) : string :=
  ("## " ++ title result ++ newline ++
   "**Path:** `" ++ path result ++ "`" ++ newline ++
   "**Repository:** " ++ repository result ++ newline ++ newline ++
   excerpt result ++ newline ++ newline ++ "---" ++ newline ++ newline)%string.

(* ================================================================== *)
(** ** Vocabulary: paths asked of the reader *)
(* ================================================================== *)

(** One of the segments of [p] is [..]. *)
Definition climbs (p : string) : bool := array_includes (split "/" p) "..".

(** Neither a dot nor a separator. *)
Definition plainChar (c : ascii) : bool :=
  negb (Ascii.eqb c ".") && negb (Ascii.eqb c "/").

Fixpoint plainName (s : string) : bool :=
  match s with
  | EmptyString => true
  | String c s' => plainChar c && plainName s'
  end.

(* ================================================================== *)
(** ** Vocabulary: the lines around a match *)
(* ================================================================== *)

(** The line [line] with the two lines before it and the two lines after
    it, as far as there are. *)
Definition contextLines (before : list string) (line : string) (after : list string)
  : list string :=
  skipn (List.length before - 2) before ++ line :: firstn 2 after.

(** No term holds a line feed. *)
Definition oneLine (term : string) : bool :=
  negb (includes term (String (ascii_of_nat 10) EmptyString)).

(* ================================================================== *)
(** ** The component search of deso-mcp.js *)
(* ================================================================== *)

(** [String.prototype.toUpperCase] on the Latin-1 range: a-z and the
    accented small letters U+00E0..U+00FE (without the division sign
    U+00F7) move down by 32, and the sharp s U+00DF becomes [SS]. The
    capitals of the micro sign U+00B5 and of U+00FF lie outside the range:
    for a string that holds one of them there is no answer here. *)
Fixpoint toUpperCase (s : string) : option string :=
  match s with
  | EmptyString => Some EmptyString
  | String c s' =>
      let n := code c in
      match toUpperCase s' with
      | None => None
      | Some t =>
          if (n =? 181) || (n =? 255) then None
          else if n =? 223 then Some (String "S" (String "S" t))
          else if ((97 <=? n) && (n <=? 122)) ||
                  ((224 <=? n) && (n <=? 254) && negb (n =? 247))
          then Some (String (ascii_of_nat (n - 32)) t)
          else Some (String c t)
      end
  end.

(** The character U+1F50D of the heading lies outside the range of
    characters of this development; it stands here as the four bytes of
    its UTF-8 form. *)
Definition magnifyingGlass : string :=
  String (ascii_of_nat 240) (String (ascii_of_nat 159)
    (String (ascii_of_nat 148) (String (ascii_of_nat 141) EmptyString))).

(** What [searchComponents] reads of an entry of [components]. *)
Module ComponentInfo.

Record t : Type := {
  title : string;
  description : string
}.

End ComponentInfo.

(** What [searchComponents] reads of a category of the registry: its
    components, in the order of [Object.entries]. *)
Module CategoryInfo.

Record t : Type := {
  components : list (string * ComponentInfo.t)
}.

End CategoryInfo.

(** An element of [results] in [searchComponents]. *)
Module ComponentMatch.

Record t : Type := {
  category : string;
  name : string;
  title : string;
  description : string;
  score : nat
}.

End ComponentMatch.

(** The registry, in the order of [Object.entries]. *)
Definition Registry : Type := list (string * CategoryInfo.t).

(** [`${componentName} ${componentInfo.title} ${componentInfo.description}`.toLowerCase()]. *)
Definition searchableTextOf (componentName : string) (componentInfo : ComponentInfo.t)
  : string :=
  toLowerCase (componentName ++ " " ++ ComponentInfo.title componentInfo ++ " " ++
               ComponentInfo.description componentInfo).

(** [(searchableText.match(new RegExp(searchTerm, 'g')) || []).length]. *)
Definition matchScore (searchableText searchTerm : string) : outcome nat :=
  regex <- RegExp.create searchTerm ;;
  Ok match RegExp.matchGlobal searchableText regex with
     | Some ms => List.length ms
     | None => List.length (@nil (nat * RegExp.state))
     end.

(** The loop over the components of one category. *)
Fixpoint componentLoop (categoryName searchTerm : string)
  (entries : list (string * ComponentInfo.t)) (results : list ComponentMatch.t)
  : outcome (list ComponentMatch.t) :=
  match entries with
  | [] => Ok results
  | (componentName, componentInfo) :: entries' =>
      let searchableText := searchableTextOf componentName componentInfo in
      if includes searchableText searchTerm then
        score <- matchScore searchableText searchTerm ;;
        componentLoop categoryName searchTerm entries'
          (results ++ [ {| ComponentMatch.category := categoryName;
                           ComponentMatch.name := componentName;
                           ComponentMatch.title := ComponentInfo.title componentInfo;
                           ComponentMatch.description :=
                             ComponentInfo.description componentInfo;
                           ComponentMatch.score := score |} ])
      else componentLoop categoryName searchTerm entries' results
  end.

(** The loop over the categories of the registry. *)
Fixpoint categoryLoop (searchTerm : string) (entries : list (string * CategoryInfo.t))
  (results : list ComponentMatch.t) : outcome (list ComponentMatch.t) :=
  match entries with
  | [] => Ok results
  | (categoryName, categoryInfo) :: entries' =>
      results' <- componentLoop categoryName searchTerm
                    (CategoryInfo.components categoryInfo) results ;;
      categoryLoop searchTerm entries' results'
  end.

Definition byMatchScore (a b : ComponentMatch.t) : Z :=
  (Z.of_nat (ComponentMatch.score b) - Z.of_nat (ComponentMatch.score a))%Z.

(** Two spaces and a line feed: a line break of Markdown. *)
Definition lineBreak : string := ("  " ++ newline)%string.

(** The loop [for (const result of results.slice(0, 10))] of
    [searchComponents]. *)
Fixpoint componentSections (results : list ComponentMatch.t) (response : string)
  : outcome string :=
  match results with
  | [] => Ok response
  | result :: results' =>
      match toUpperCase (ComponentMatch.category result) with
      | Some upper =>
          componentSections results'
            (response ++
             "## " ++ ComponentMatch.title result ++ " (`" ++ ComponentMatch.name result ++
             "`)" ++ newline ++ newline ++
             "**Category:** " ++ upper ++ lineBreak ++
             "**Description:** " ++ ComponentMatch.description result ++ lineBreak ++
             "**Install:** `npx shadcn@latest add http://ui.deso.com/r/" ++
             ComponentMatch.name result ++ ".json`" ++ newline ++ newline ++
             "---" ++ newline ++ newline)%string
      | None => Unmodelled
      end
  end.

(** [searchComponents(query, registry)] for a [query] that is a string or
    is missing. The outcome [Unmodelled] also marks a run that prints a
    category whose upper case has no answer above. *)
Definition searchComponents (query : option string) (registry : Registry)
  : outcome string :=
  match query with
  | None => Ok "Please provide a search query."
  | Some query =>
      if String.eqb query "" then Ok "Please provide a search query."
      else
        let searchTerm := toLowerCase query in
        found <- categoryLoop searchTerm registry [] ;;
        let results := Array_sort byMatchScore found in
        if List.length results =? 0
        then Ok ("No components found matching " ++ doubleQuote ++ query ++ doubleQuote
                 ++ ".")%string
        else
          let response :=
            ("# " ++ magnifyingGlass ++ " Search Results for " ++ doubleQuote ++ query ++
             doubleQuote ++ newline ++ newline ++
             "Found " ++ numberToString (List.length results) ++
             " matching components:" ++ newline ++ newline)%string in
          response <- componentSections (slice 0 10 results) response ;;
          if 10 <? List.length results
          then Ok (response ++ "*Showing top 10 of " ++
                   numberToString (List.length results) ++ " results*")%string
          else Ok response
  end.

(* ================================================================== *)
(** ** Vocabulary: the components a query finds *)
(* ================================================================== *)

(** The components of the registry with their categories, in the order
    of the two loops. *)
Definition candidates (registry : Registry)
  : list (string * string * ComponentInfo.t) :=
  flat_map (fun entry =>
              List.map (fun c => (fst entry, fst c, snd c))
                (CategoryInfo.components (snd entry)))
    registry.

(** The text of the component holds the term. *)
Definition mentions (searchTerm : string) (c : string * string * ComponentInfo.t) : bool :=
  includes (searchableTextOf (snd (fst c)) (snd c)) searchTerm.

(** The component a match stands for. *)
Definition componentOf (m : ComponentMatch.t) : string * string * ComponentInfo.t :=
  (ComponentMatch.category m, ComponentMatch.name m,
   {| ComponentInfo.title := ComponentMatch.title m;
      ComponentInfo.description := ComponentMatch.description m |}).

(** The registry of two categories used in the examples. *)
Definition sampleRegistry : Registry :=
  [ ("social",
     {| CategoryInfo.components :=
          [ ("post-card",
             {| ComponentInfo.title := "Post Card";
                ComponentInfo.description := "A card for posts (with images)" |});
            ("post-text",
             {| ComponentInfo.title := "Post Text";
                ComponentInfo.description := "Text of a post, post after post" |}) ] |});
    ("user",
     {| CategoryInfo.components :=
          [ ("user-info",
             {| ComponentInfo.title := "User Info";
                ComponentInfo.description := "Who wrote the post" |}) ] |}) ].

(** The match of a component under a compiled expression. *)
Definition matchOf (regex : RegExp.t) (c : string * string * ComponentInfo.t)
  : ComponentMatch.t :=
  {| ComponentMatch.category := fst (fst c);
     ComponentMatch.name := snd (fst c);
     ComponentMatch.title := ComponentInfo.title (snd c);
     ComponentMatch.description := ComponentInfo.description (snd c);
     ComponentMatch.score :=
       match RegExp.matchGlobal (searchableTextOf (snd (fst c)) (snd c)) regex with
       | Some ms => List.length ms
       | None => 0
       end |}.

(** [a] may stand before [b] in a list of matches ranked by score. *)
Definition matchRanksBefore (a b : ComponentMatch.t) : Prop :=
  ComponentMatch.score b <= ComponentMatch.score a.

(** The pages of the component search. *)
Definition noComponentsPage (query : string) : string :=
  ("No components found matching " ++ doubleQuote ++ query ++ doubleQuote ++ ".")%string.

Definition componentsHeader (query : string) (n : nat) : string :=
  ("# " ++ magnifyingGlass ++ " Search Results for " ++ doubleQuote ++ query ++
   doubleQuote ++ newline ++ newline ++
   "Found " ++ numberToString n ++ " matching components:" ++ newline ++ newline)%string.

Definition componentSection (result : ComponentMatch.t) : string :=
  ("## " ++ ComponentMatch.title result ++ " (`" ++ ComponentMatch.name result ++
   "`)" ++ newline ++ newline ++
   "**Category:** " ++
   match toUpperCase (ComponentMatch.category result) with
   | Some upper => upper
   | None => ""
   end ++ lineBreak ++
   "**Description:** " ++ ComponentMatch.description result ++ lineBreak ++
   "**Install:** `npx shadcn@latest add http://ui.deso.com/r/" ++
   ComponentMatch.name result ++ ".json`" ++ newline ++ newline ++
   "---" ++ newline ++ newline)%string.

Definition componentsNotice (n : nat) : string :=
  ("*Showing top 10 of " ++ numberToString n ++ " results*")%string.

(* ================================================================== *)
(** ** Vocabulary: distinct paths *)
(* ================================================================== *)

(** The paths of the results of the walk of [e], started at a path that
    lies [stem] below [repos], are distinct, and each is [stem] followed by
    further names. *)
Definition distinctBelow (cwd : Path.t) (searchTerms : list string) (repo : string)
  (e : entry) : Prop :=
  forall p stem rs,
    wellFormed e = true ->
    Forall (fun n => validName n = true) stem ->
    Path.components p = Path.components cwd ++ "repos" :: stem ->
    searchInDirectory cwd p repo searchTerms e = Ok rs ->
    NoDup (List.map path rs) /\
    Forall (fun r => exists names,
              names <> [] /\ Forall (fun n => validName n = true) names /\
              path r = String.concat "/" (stem ++ names)) rs.

(* ================================================================== *)
(** ** Vocabulary: marks of the excerpt *)
(* ================================================================== *)

(** What is left of [s] after the prefix [t], the letters compared
    without regard to case. *)
Fixpoint afterPrefixIgnoringCase (t s : string) : option string :=
  match t, s with
  | EmptyString, _ => Some s
  | String a t', String b s' =>
      if Ascii.eqb (RegExp.canonicalize true a) (RegExp.canonicalize true b)
      then afterPrefixIgnoringCase t' s' else None
  | String _ _, EmptyString => None
  end.

(** The text [s] with each occurrence of [t], case ignored, between two
    pairs of asterisks: the occurrences are taken from the left and do not
    overlap; [skip] characters of [s] still belong to the occurrence marked
    last. The empty text occurs before every character and at the end. *)
Fixpoint boldOccurrences (t s : string) (skip : nat) : string :=
  match skip with
  | S skip' =>
      match s with
      | EmptyString => EmptyString
      | String _ s' => boldOccurrences t s' skip'
      end
  | O =>
      match afterPrefixIgnoringCase t s with
      | Some _ =>
          String.append "**"
            (String.append (substring_to (String.length t) s)
               (String.append "**"
                  match s with
                  | EmptyString => EmptyString
                  | String ch s' =>
                      if String.length t =? 0 then String ch (boldOccurrences t s' 0)
                      else boldOccurrences t s' (pred (String.length t))
                  end))
      | None =>
          match s with
          | EmptyString => EmptyString
          | String ch s' => String ch (boldOccurrences t s' 0)
          end
      end
  end.

(** The text without its asterisks. *)
Fixpoint withoutAsterisks (s : string) : string :=
  match s with
  | EmptyString => EmptyString
  | String c s' =>
      if Ascii.eqb c "*" then withoutAsterisks s' else String c (withoutAsterisks s')
  end.

(* ================================================================== *)
(** ** The search over any engine of regular expressions *)
(* ================================================================== *)

(** What the code uses of [RegExp], for patterns of any syntax: the
    constructor [new RegExp(pattern, flags)], which returns the compiled
    pattern or throws a SyntaxError (the flags [g] and [gi] of the code
    have no part in that); the number of matches
    [(s.match(re) || []).length] under the flag [g]; and the replacement
    [s.replace(re, '**$1**')] under the flags [g] and [i]. The outcome
    [Unmodelled] of a constructor marks a pattern that the engine does not
    cover; the constructor of the run time answers on every pattern. *)
Module RegExpEngine.

Record t : Type := {
  Pattern : Type;
  create : string -> outcome Pattern;
  matchCount : string -> Pattern -> nat;
  replaceBold : string -> Pattern -> string
}.

(** The engine answers on every pattern. *)
Definition total (E : t) : Prop :=
  forall pattern, create E pattern <> Unmodelled.

(** The constructor throws: the term is no regular expression. *)
Definition rejects (E : t) (term : string) : Prop := create E term = Throw.

End RegExpEngine.

(** The engine of the model of regular expressions. *)
Definition modelEngine : RegExpEngine.t :=
  {| RegExpEngine.Pattern := RegExp.t;
     RegExpEngine.create := RegExp.create;
     RegExpEngine.matchCount :=
       fun s regex =>
         match RegExp.matchGlobal s regex with
         | Some ms => List.length ms
         | None => List.length (@nil (nat * RegExp.state))
         end;
     RegExpEngine.replaceBold := RegExp.replaceBold |}.

(** The engine of the model, completed by a judgement [valid] on the
    patterns that the model does not cover: such a pattern compiles, to an
    expression without matches, when [valid] accepts it, and is rejected
    otherwise. *)
Definition completedEngine (valid : string -> bool) : RegExpEngine.t :=
  {| RegExpEngine.Pattern := option RegExp.t;
     RegExpEngine.create :=
       fun pattern =>
         match RegExp.create pattern with
         | Ok regex => Ok (Some regex)
         | Throw => Throw
         | Unmodelled => if valid pattern then Ok None else Throw
         end;
     RegExpEngine.matchCount :=
       fun s regex =>
         match regex with
         | Some regex => RegExpEngine.matchCount modelEngine s regex
         | None => 0
         end;
     RegExpEngine.replaceBold :=
       fun s regex =>
         match regex with
         | Some regex => RegExp.replaceBold s regex
         | None => s
         end |}.

(** The functions of the search engine, of the search tool and of the
    component search once more, with the engine of regular expressions as
    a parameter. *)
Module Generic.

Section WithEngine.

Variable E : RegExpEngine.t.

(** The loop over [searchTerms] of [createExcerpt]. *)
Fixpoint highlight (excerpt : string) (searchTerms : list string) : outcome string :=
  match searchTerms with
  | [] => Ok excerpt
  | term :: terms' =>
      regex <- RegExpEngine.create E ("(" ++ term ++ ")")%string ;;
      highlight (RegExpEngine.replaceBold E excerpt regex) terms'
  end.

Definition createExcerpt (relevantLines : list MatchContext) (searchTerms : list string)
  : outcome string :=
  match relevantLines with
  | [] => Ok EmptyString
  | bestMatch :: _ =>
      excerpt <- highlight (content bestMatch) searchTerms ;;
      if 500 <? String.length excerpt
      then Ok (substring_to 500 excerpt ++ "...")%string
      else Ok excerpt
  end.

(** The loop that computes [score] in [findMatches]. *)
Fixpoint scoreLoop (contentLower : string) (searchTerms : list string) (score : nat)
  : outcome nat :=
  match searchTerms with
  | [] => Ok score
  | term :: terms' =>
      regex <- RegExpEngine.create E term ;;
      let termCount := RegExpEngine.matchCount E contentLower regex in
      scoreLoop contentLower terms' (score + termCount)
  end.

(** [process.cwd()], an absolute path. *)
Variable cwd : Path.t.

(** The listing of the root directory of the file system. *)
Variable root : list entry.

Definition findMatches (content : string) (searchTerms : list string)
  (filePath : Path.t) (repository : string) : outcome (list SearchResult) :=
  let lines := split (ascii_of_nat 10) content in
  let contentLower := toLowerCase content in
  score <- scoreLoop contentLower searchTerms 0 ;;
  if score =? 0 then Ok []
  else
    let relevantLines := relevantLoop lines searchTerms 0 lines in
    let fileName := Path.basename filePath in
    let title := getDocumentTitle content fileName in
    excerpt <- createExcerpt relevantLines searchTerms ;;
    Ok [ {| title := title;
            path := Path.relative (reposPath cwd) filePath;
            repository := repository;
            score := score;
            excerpt := excerpt;
            matchCount := List.length relevantLines |} ].

Section Loop.

(** The recursive call [searchInDirectory(fullPath, repository,
    searchTerms)] on a subdirectory. *)
Variable recurse : Path.t -> entry -> outcome (list SearchResult).
Variable dirPath : Path.t.
Variable repository : string.
Variable searchTerms : list string.

(** The loop [for (const entry of entries)] of [searchInDirectory]. A
    throw inside the inner [try] is caught and the loop continues; a
    throw elsewhere ends the loop. *)
Fixpoint searchLoop (entries : list entry) (results : list SearchResult)
  : completion :=
  match entries with
  | [] => (results, Ok tt)
  | e :: entries' =>
      let fullPath := Path.join dirPath [name e] in
      if descends e then
        match recurse fullPath e with
        | Ok subResults => searchLoop entries' (results ++ subResults)
        | Throw => (results, Throw)
        | Unmodelled => (results, Unmodelled)
        end
      else if isFile e && isSearchableFile (name e) then
        match (content <- readEntry e ;;
               findMatches content searchTerms fullPath repository) with
        | Ok matches => searchLoop entries' (results ++ matches)
        | Throw => searchLoop entries' results
        | Unmodelled => (results, Unmodelled)
        end
      else searchLoop entries' results
  end.

End Loop.

(** [searchInDirectory(dirPath, repository, searchTerms)], where [dir] is
    the entry at [dirPath]. *)
Fixpoint searchInDirectory (dirPath : Path.t) (repository : string)
  (searchTerms : list string) (dir : entry) {struct dir}
  : outcome (list SearchResult) :=
  match dir with
  | Dir _ (Some entries) =>
      returnResults
        (searchLoop
           (fun fullPath sub => searchInDirectory fullPath repository searchTerms sub)
           dirPath repository searchTerms entries [])
  | _ => returnResults ([], Throw)
  end.

(** The loop [for (const repo of repositories)] of
    [searchRepositoryDocuments]. *)
Fixpoint reposLoop (repos : list string) (searchTerms : list string)
  (results : list SearchResult) : outcome (list SearchResult) :=
  match repos with
  | [] => Ok results
  | repo :: repos' =>
      let repoPath := Path.join (reposPath cwd) [repo] in
      match (stats <- Fs.stat root repoPath ;;
             if isDirectory stats then
               repoResults <- searchInDirectory repoPath repo searchTerms stats ;;
               Ok (results ++ repoResults)
             else Ok results) with
      | Ok results' => reposLoop repos' searchTerms results'
      | Throw => reposLoop repos' searchTerms results
      | Unmodelled => Unmodelled
      end
  end.

Definition searchRepositoryDocuments (query : string) : outcome (list SearchResult) :=
  let searchTerms := searchTermsOf query in
  results <- reposLoop repositories searchTerms [] ;;
  Ok (Array_sort byScore results).

Definition repositorySearch (args : option queryValue) : outcome searchResponse :=
  match args with
  | None => Throw
  | Some (QueryOther None) => Throw
  | Some (QueryOther (Some printed)) => Ok (SearchErrorPage printed)
  | Some (QueryString query) =>
      match searchRepositoryDocuments query with
      | Ok results =>
          if List.length results =? 0 then Ok (SearchPage (noMatchesPage query))
          else
            let response := resultsHeader query (List.length results) in
            let response := fold_left appendResult (slice 0 10 results) response in
            let response :=
              if 10 <? List.length results
              then (response ++ topTenNotice (List.length results))%string
              else response in
            Ok (SearchPage response)
      | Throw => Ok (SearchErrorPage query)
      | Unmodelled => Unmodelled
      end
  end.

(** [(searchableText.match(new RegExp(searchTerm, 'g')) || []).length]. *)
Definition matchScore (searchableText searchTerm : string) : outcome nat :=
  regex <- RegExpEngine.create E searchTerm ;;
  Ok (RegExpEngine.matchCount E searchableText regex).

(** The loop over the components of one category. *)
Fixpoint componentLoop (categoryName searchTerm : string)
  (entries : list (string * ComponentInfo.t)) (results : list ComponentMatch.t)
  : outcome (list ComponentMatch.t) :=
  match entries with
  | [] => Ok results
  | (componentName, componentInfo) :: entries' =>
      let searchableText := searchableTextOf componentName componentInfo in
      if includes searchableText searchTerm then
        score <- matchScore searchableText searchTerm ;;
        componentLoop categoryName searchTerm entries'
          (results ++ [ {| ComponentMatch.category := categoryName;
                           ComponentMatch.name := componentName;
                           ComponentMatch.title := ComponentInfo.title componentInfo;
                           ComponentMatch.description :=
                             ComponentInfo.description componentInfo;
                           ComponentMatch.score := score |} ])
      else componentLoop categoryName searchTerm entries' results
  end.

(** The loop over the categories of the registry. *)
Fixpoint categoryLoop (searchTerm : string) (entries : list (string * CategoryInfo.t))
  (results : list ComponentMatch.t) : outcome (list ComponentMatch.t) :=
  match entries with
  | [] => Ok results
  | (categoryName, categoryInfo) :: entries' =>
      results' <- componentLoop categoryName searchTerm
                    (CategoryInfo.components categoryInfo) results ;;
      categoryLoop searchTerm entries' results'
  end.

Definition searchComponents (query : option string) (registry : Registry)
  : outcome string :=
  match query with
  | None => Ok "Please provide a search query."
  | Some query =>
      if String.eqb query "" then Ok "Please provide a search query."
      else
        let searchTerm := toLowerCase query in
        found <- categoryLoop searchTerm registry [] ;;
        let results := Array_sort byMatchScore found in
        if List.length results =? 0
        then Ok ("No components found matching " ++ doubleQuote ++ query ++ doubleQuote
                 ++ ".")%string
        else
          let response :=
            ("# " ++ magnifyingGlass ++ " Search Results for " ++ doubleQuote ++ query ++
             doubleQuote ++ newline ++ newline ++
             "Found " ++ numberToString (List.length results) ++
             " matching components:" ++ newline ++ newline)%string in
          response <- componentSections (slice 0 10 results) response ;;
          if 10 <? List.length results
          then Ok (response ++ "*Showing top 10 of " ++
                   numberToString (List.length results) ++ " results*")%string
          else Ok response
  end.

End WithEngine.

End Generic.

(** The judgement used in the examples: of the patterns outside the
    model, the character class [[a-z]] is a regular expression, alone and
    in a group; the other ones of the examples ([[], [(?], [a{2,1}]) are
    not. *)
Definition sampleValid (pattern : string) : bool :=
  String.eqb pattern "[a-z]" || String.eqb pattern "([a-z])".

(** The match of a component under an expression compiled by the
    engine. *)
Definition matchUnder (E : RegExpEngine.t) (regex : RegExpEngine.Pattern E)
  (c : string * string * ComponentInfo.t) : ComponentMatch.t :=
  {| ComponentMatch.category := fst (fst c);
     ComponentMatch.name := snd (fst c);
     ComponentMatch.title := ComponentInfo.title (snd c);
     ComponentMatch.description := ComponentInfo.description (snd c);
     ComponentMatch.score :=
       RegExpEngine.matchCount E (searchableTextOf (snd (fst c)) (snd c)) regex |}.


(* ================================================================== *)
(** ** Facts: the run time on samples *)
(* ================================================================== *)

(** [path.extname]: the extension starts at the last dot of the last
    component; a leading dot starts none. *)
Lemma extname_samples :
  List.map Path.extname
    ["a.md"; "x.tar.gz"; "README"; ".env"; ".env.local"; "a."; ".."; "dir.d/file"; "a.MD"] =
  [".md"; ".gz"; ""; ""; ".local"; "."; ""; ""; ".MD"].
Proof. reflexivity. Qed.

(** [path.join] normalizes: empty and [.] segments vanish, [..] climbs and
    stops at the root. *)
Lemma join_samples :
  List.map (fun parts => Path.to_string (Path.join Sample.app parts))
    [ ["repos"]; ["repos"; "docs"; "a.md"]; ["repos"; ""; "./a//b/"];
      ["repos"; "docs"; "../core/x"]; ["../../../../etc"] ] =
  ["/app/repos"; "/app/repos/docs/a.md"; "/app/repos/a/b/"; "/app/repos/core/x"; "/etc"].
Proof. reflexivity. Qed.

(** Which patterns the constructor accepts. *)
Lemma create_samples :
  List.map (fun p => match RegExp.create p with
                     | Ok _ => "ok" | Throw => "SyntaxError" | Unmodelled => "-"
                     end)
    [ "fee"; "node.js"; ""; "a|b"; "(a|b)*c"; "a+?"; "a\+b";
      "c++"; "("; ")"; "*a"; "a**"; "a|*"; "^*"; "a\";
      "[a-z]"; "a{2}"; "(?:a)"; "\d" ] =
  [ "ok"; "ok"; "ok"; "ok"; "ok"; "ok"; "ok";
    "SyntaxError"; "SyntaxError"; "SyntaxError"; "SyntaxError"; "SyntaxError";
    "SyntaxError"; "SyntaxError"; "SyntaxError";
    "-"; "-"; "-"; "-" ].
Proof. reflexivity. Qed.

(** Matches under the flag [g]: leftmost, by the order of the
    alternatives, greedy unless marked lazy, and an empty match moves the
    search on by one index. *)
Lemma match_samples :
  matchSpans "fee" "fees and fee" = Ok [(0, 3); (9, 12)] /\
  matchSpans "aa" "aaaaa" = Ok [(0, 2); (2, 4)] /\
  matchSpans "a|ab" "abab" = Ok [(0, 1); (2, 3)] /\
  matchSpans "a*" "baaac" = Ok [(0, 0); (1, 4); (4, 4); (5, 5)] /\
  matchSpans "a+?" "aaa" = Ok [(0, 1); (1, 2); (2, 3)] /\
  matchSpans "(a|ab)(c|bcd)(d*)" "abcd" = Ok [(0, 4)] /\
  matchSpans "(a*)*b" "aab" = Ok [(0, 3)] /\
  matchSpans "^a|b$" "aabb" = Ok [(0, 1); (3, 4)] /\
  matchSpans "." ("a" ++ Sample.lf ++ "b") = Ok [(0, 1); (2, 3)].
Proof. repeat split; reflexivity. Qed.

(** Replacement under the flags [g] and [i]. *)
Lemma bold_samples :
  bold "(fee)" "Fees and fEe" = Ok "**Fee**s and **fEe**" /\
  bold "()" "ab" = Ok "****a****b****" /\
  bold "(a)|b" "ab" = Ok "**a******" /\
  bold "((a)|b)+" "abab" = Ok "**b**".
Proof. repeat split; reflexivity. Qed.

(* ================================================================== *)
(** ** Facts: directory trees *)
(* ================================================================== *)

Lemma prune_Dir dead n l :
  prune dead (Dir n (Some l)) = Dir n (Some (prune_list dead l)).
Proof.
  simpl. do 2 f_equal. induction l as [|x l IH]; simpl; [reflexivity|].
  now rewrite IH.
Qed.

Lemma prune_name dead e : name (prune dead e) = name e.
Proof. destruct e as [n c|n [l|]|n]; reflexivity. Qed.

Lemma prune_isDirectory dead e : isDirectory (prune dead e) = isDirectory e.
Proof. destruct e as [n c|n [l|]|n]; reflexivity. Qed.

Lemma prune_isFile dead e : isFile (prune dead e) = isFile e.
Proof. destruct e as [n c|n [l|]|n]; reflexivity. Qed.

Lemma prune_descends dead e : descends (prune dead e) = descends e.
Proof. unfold descends. now rewrite prune_name, prune_isDirectory. Qed.

Lemma prune_readEntry dead e : readEntry (prune dead e) = readEntry e.
Proof. destruct e as [n c|n [l|]|n]; reflexivity. Qed.

Section Walker.

Variable cwd : Path.t.
Variable repository : string.
Variable searchTerms : list string.

Lemma searchInDirectory_Dir p n l :
  searchInDirectory cwd p repository searchTerms (Dir n (Some l)) =
  returnResults
    (searchLoop cwd (walk cwd repository searchTerms) p repository searchTerms l []).
Proof. reflexivity. Qed.

Lemma searchInDirectory_closed p n :
  searchInDirectory cwd p repository searchTerms (Dir n None) = Ok [].
Proof. reflexivity. Qed.

(** The walker ends with [return results]: it never throws. *)
Lemma searchInDirectory_never_throws p e :
  searchInDirectory cwd p repository searchTerms e <> Throw.
Proof.
  destruct e as [n c|n [l|]|n]; try discriminate.
  rewrite searchInDirectory_Dir. unfold returnResults.
  destruct (snd _); discriminate.
Qed.

(** The loop passes over an inert entry. *)
Lemma searchLoop_inert p e es results :
  inert e ->
  searchLoop cwd (walk cwd repository searchTerms) p repository searchTerms
    (e :: es) results =
  searchLoop cwd (walk cwd repository searchTerms) p repository searchTerms
    es results.
Proof.
  intros [[Hd [Hf|Hr]]|[n ->]].
  - simpl. now rewrite Hd, Hf.
  - simpl. rewrite Hd, Hr. simpl. now destruct (isFile e && _).
  - cbn [searchLoop]. destruct (descends (Dir n None)).
    + unfold walk. rewrite searchInDirectory_closed. now rewrite app_nil_r.
    + reflexivity.
Qed.

Section Prune.

Variable dead : entry -> bool.
Hypothesis dead_inert : forall e, dead e = true -> inert e.

Lemma searchLoop_prune p l results :
  Forall (fun e => forall q,
            searchInDirectory cwd q repository searchTerms (prune dead e) =
            searchInDirectory cwd q repository searchTerms e) l ->
  searchLoop cwd (walk cwd repository searchTerms) p repository searchTerms
    (prune_list dead l) results =
  searchLoop cwd (walk cwd repository searchTerms) p repository searchTerms
    l results.
Proof.
  intros Hall. revert results.
  induction Hall as [|x l Hx Hall IH]; intros results; [reflexivity|].
  cbn [prune_list]. destruct (dead x) eqn:Hdead.
  - rewrite IH. symmetry. apply searchLoop_inert. now apply dead_inert.
  - cbn [searchLoop]. unfold walk at 1.
    rewrite prune_name, prune_descends, prune_isFile, prune_readEntry, Hx.
    fold (walk cwd repository searchTerms (Path.join p [name x]) x).
    destruct (descends x).
    + destruct (walk cwd repository searchTerms _ x); [apply IH|reflexivity|reflexivity].
    + destruct (isFile x && isSearchableFile (name x)); [|apply IH].
      destruct (bind _ _); [apply IH|apply IH|reflexivity].
Qed.

(** Removing dead entries from the tree leaves the results of the walk
    as they are. *)
Lemma searchInDirectory_prune e :
  forall p, searchInDirectory cwd p repository searchTerms (prune dead e) =
            searchInDirectory cwd p repository searchTerms e.
Proof.
  induction e as [n c|n|n|n l IH] using entry_induction; intros p;
    try reflexivity.
  rewrite prune_Dir, !searchInDirectory_Dir.
  f_equal. now apply searchLoop_prune.
Qed.

End Prune.

End Walker.

Lemma ineligibleFile_inert e : ineligibleFile e = true -> inert e.
Proof.
  unfold ineligibleFile. intros H. apply andb_prop in H. destruct H as [Hf Hs].
  left. split.
  - unfold descends. destruct e; [reflexivity|discriminate|discriminate].
  - left. rewrite Hf. now destruct (isSearchableFile (name e)).
Qed.

Lemma excludedDirectory_inert e : excludedDirectory e = true -> inert e.
Proof.
  unfold excludedDirectory. intros H. apply andb_prop in H. destruct H as [Hd Hn].
  left. split.
  - now destruct (descends e).
  - left. destruct e; [discriminate|reflexivity|discriminate].
Qed.

Lemma unreadable_inert e : unreadable e = true -> inert e.
Proof.
  destruct e as [n [c|]|n [l|]|n]; try discriminate; intros _.
  - left. split; [reflexivity|]. now right.
  - right. now exists n.
Qed.

(* ================================================================== *)
(** ** Facts: the sort by score *)
(* ================================================================== *)

Lemma byScore_le a b : (byScore a b <=? 0)%Z = (score b <=? score a).
Proof.
  unfold byScore.
  destruct (score b <=? score a) eqn:H.
  - apply Nat.leb_le in H. apply Z.leb_le. lia.
  - apply Nat.leb_gt in H. apply Z.leb_gt. lia.
Qed.

Lemma sort_insert_perm x l : Permutation (x :: l) (sort_insert byScore x l).
Proof.
  induction l as [|y l IH]; simpl; [reflexivity|].
  destruct (byScore x y <=? 0)%Z; [reflexivity|].
  rewrite perm_swap. now apply perm_skip.
Qed.

Lemma Array_sort_perm l : Permutation l (Array_sort byScore l).
Proof.
  induction l as [|x l IH]; simpl; [constructor|].
  etransitivity; [apply perm_skip, IH|apply sort_insert_perm].
Qed.

Lemma sort_insert_sorted x l :
  StronglySorted ranksBefore l -> StronglySorted ranksBefore (sort_insert byScore x l).
Proof.
  induction 1 as [|y l Hs IH Hy]; simpl.
  - repeat constructor.
  - rewrite byScore_le. destruct (score y <=? score x) eqn:Hle.
    + apply Nat.leb_le in Hle. constructor; [now constructor|].
      constructor; [exact Hle|].
      eapply Forall_impl; [|exact Hy]. unfold ranksBefore. intros; lia.
    + apply Nat.leb_gt in Hle. constructor; [exact IH|].
      eapply Permutation_Forall; [apply sort_insert_perm|].
      constructor; [unfold ranksBefore; lia|exact Hy].
Qed.

Lemma Array_sort_sorted l : StronglySorted ranksBefore (Array_sort byScore l).
Proof.
  induction l as [|x l IH]; simpl; [constructor|now apply sort_insert_sorted].
Qed.

Lemma sort_insert_stable k x l :
  filter (hasScore k) (sort_insert byScore x l) = filter (hasScore k) (x :: l).
Proof.
  induction l as [|y l IH]; [reflexivity|].
  cbn [sort_insert]. rewrite byScore_le.
  destruct (score y <=? score x) eqn:Hle; [reflexivity|].
  apply Nat.leb_gt in Hle.
  cbn [filter] in *. rewrite IH. unfold hasScore.
  destruct (score y =? k) eqn:Hy, (score x =? k) eqn:Hx; try reflexivity.
  apply Nat.eqb_eq in Hy, Hx. lia.
Qed.

Lemma Array_sort_stable k l :
  filter (hasScore k) (Array_sort byScore l) = filter (hasScore k) l.
Proof.
  induction l as [|x l IH]; [reflexivity|].
  cbn [Array_sort fold_right]. fold (Array_sort byScore l).
  rewrite sort_insert_stable. cbn [filter]. now rewrite IH.
Qed.

(* ================================================================== *)
(** ** Facts: what throws, and what lies outside the model *)
(* ================================================================== *)

Lemma scoreLoop_Unmodelled content terms :
  forall score, scoreLoop content terms score = Unmodelled ->
  Exists (fun t => RegExp.create t = Unmodelled) terms.
Proof.
  induction terms as [|t terms IH]; intros score H; [discriminate|].
  cbn [scoreLoop] in H. destruct (RegExp.create t) eqn:Ht; cbn [bind] in H.
  - apply Exists_cons_tl. eapply IH, H.
  - discriminate.
  - now apply Exists_cons_hd.
Qed.

Lemma scoreLoop_Ok content terms :
  forall score n, scoreLoop content terms score = Ok n ->
  Forall (fun t => exists re, RegExp.create t = Ok re) terms.
Proof.
  induction terms as [|t terms IH]; intros score n H; [constructor|].
  cbn [scoreLoop] in H. destruct (RegExp.create t) eqn:Ht; cbn [bind] in H;
    try discriminate.
  constructor; [now exists a|eapply IH, H].
Qed.

(** The tokens of a pattern that lexes do not depend on what follows it. *)
Lemma lex_app_bounded n :
  forall a b ta, String.length a <= n -> RegExp.lex a = Ok ta ->
  RegExp.lex (a ++ b) = (tb <- RegExp.lex b ;; Ok (ta ++ tb)).
Proof.
  induction n as [|n IH]; intros a b ta Hlen Ha.
  - destruct a; [|simpl in Hlen; lia].
    injection Ha as <-. simpl. now destruct (RegExp.lex b).
  - destruct a as [|c a]; [injection Ha as <-; simpl; now destruct (RegExp.lex b)|].
    simpl in Hlen. cbn [RegExp.lex String.append] in *.
    destruct (Ascii.eqb c "\").
    + destruct a as [|e a]; [discriminate|]. cbn [String.append].
      destruct (RegExp.isSyntaxCharacter e || Ascii.eqb e "/"); [|discriminate].
      destruct (RegExp.lex a) as [ts| |] eqn:Hts; try discriminate.
      cbn [bind] in Ha. injection Ha as <-.
      rewrite (IH a b ts); [|simpl in Hlen; lia|exact Hts].
      now destruct (RegExp.lex b).
    + destruct (existsb _ _); [discriminate|].
      destruct (RegExp.lex a) as [ts| |] eqn:Hts; try discriminate.
      cbn [bind] in Ha. injection Ha as <-.
      rewrite (IH a b ts); [|lia|exact Hts].
      now destruct (RegExp.lex b).
Qed.

Lemma lex_app a b ta :
  RegExp.lex a = Ok ta ->
  RegExp.lex (a ++ b) = (tb <- RegExp.lex b ;; Ok (ta ++ tb)).
Proof. now apply (lex_app_bounded (String.length a)). Qed.

Lemma hasGroupSpecifier_cons t ts :
  RegExp.hasGroupSpecifier (t :: ts) =
  match t, ts with
  | RegExp.TLParen, RegExp.TQuest :: _ => true
  | _, _ => RegExp.hasGroupSpecifier ts
  end.
Proof. destruct t; try reflexivity; destruct ts as [|[] ?]; reflexivity. Qed.

Lemma hasGroupSpecifier_closing ts :
  RegExp.hasGroupSpecifier ts = false ->
  RegExp.hasGroupSpecifier (ts ++ [RegExp.TRParen]) = false.
Proof.
  induction ts as [|t ts IH]; [reflexivity|].
  rewrite <- app_comm_cons, !hasGroupSpecifier_cons.
  destruct t; try exact IH.
  destruct ts as [|[] ts]; try exact IH; try reflexivity. discriminate.
Qed.

(** A term that compiles still lies in the syntax modelled when
    [createExcerpt] wraps it in a group. *)
Lemma create_group_modelled term re :
  RegExp.create term = Ok re -> modelled ("(" ++ term ++ ")").
Proof.
  unfold modelled, RegExp.create. intros H.
  destruct (RegExp.lex term) as [ts| |] eqn:Hts; try discriminate.
  cbn [bind] in H.
  destruct (RegExp.hasGroupSpecifier ts) eqn:Hgs; [discriminate|].
  change ("(" ++ term ++ ")")%string with (String "(" (term ++ ")")).
  cbn [RegExp.lex]. cbn [Ascii.eqb Bool.eqb existsb list_ascii_of_string orb].
  rewrite (lex_app term ")" ts Hts). cbn.
  destruct ts as [|t ts]; [cbn; discriminate|].
  rewrite (hasGroupSpecifier_closing _ Hgs).
  destruct t; cbn [app];
    try (match goal with
         | |- context [RegExp.parse ?a ?b ?c ?d] =>
             destruct (RegExp.parse a b c d) as [[? ?]|]
         end; discriminate).
  cbn in H. discriminate H.
Qed.

Lemma highlight_modelled terms :
  Forall (fun t => exists re, RegExp.create t = Ok re) terms ->
  forall excerpt, highlight excerpt terms <> Unmodelled.
Proof.
  induction 1 as [|t terms [re Ht] _ IH]; intros excerpt; [discriminate|].
  cbn [highlight]. pose proof (create_group_modelled t re Ht) as Hm.
  unfold modelled in Hm.
  destruct (RegExp.create ("(" ++ t ++ ")")); cbn [bind];
    [apply IH|discriminate|contradiction].
Qed.

Lemma createExcerpt_modelled relevantLines terms :
  Forall (fun t => exists re, RegExp.create t = Ok re) terms ->
  createExcerpt relevantLines terms <> Unmodelled.
Proof.
  intros H. destruct relevantLines as [|m ms]; [discriminate|].
  cbn [createExcerpt]. pose proof (highlight_modelled terms H (content m)) as Hh.
  destruct (highlight (content m) terms); cbn [bind];
    [destruct (500 <? _); discriminate|discriminate|contradiction].
Qed.

Section Totality.

Variable cwd : Path.t.

(** A run of [findMatches] leaves the model only through a search
    term. *)
Lemma findMatches_Unmodelled content terms filePath repository :
  findMatches cwd content terms filePath repository = Unmodelled ->
  Exists (fun t => RegExp.create t = Unmodelled) terms.
Proof.
  unfold findMatches. intros H.
  destruct (scoreLoop (toLowerCase content) terms 0) as [n| |] eqn:Hs;
    cbn [bind] in H; try discriminate.
  - destruct (n =? 0); [discriminate|].
    pose proof (createExcerpt_modelled
                  (relevantLoop (split (ascii_of_nat 10) content) terms 0
                     (split (ascii_of_nat 10) content)) terms
                  (scoreLoop_Ok _ _ _ _ Hs)) as Hc.
    destruct (createExcerpt _ _); cbn [bind] in H;
      [discriminate|discriminate|contradiction].
  - eapply scoreLoop_Unmodelled, Hs.
Qed.

Lemma searchInDirectory_Unmodelled repository terms e :
  forall p, searchInDirectory cwd p repository terms e = Unmodelled ->
  Exists (fun t => RegExp.create t = Unmodelled) terms.
Proof.
  induction e as [n c|n|n|n l IH] using entry_induction; intros p;
    try discriminate.
  cbn [searchInDirectory].
  set (walk := fun fullPath sub => searchInDirectory cwd fullPath repository terms sub).
  generalize (@nil SearchResult) as results.
  induction IH as [|x l Hx _ IHl]; intros results; [discriminate|].
  cbn [searchLoop]. destruct (descends x).
  - destruct (walk (Path.join p [name x]) x) eqn:Hw.
    + apply IHl.
    + discriminate.
    + intros _. eapply Hx, Hw.
  - destruct (isFile x && isSearchableFile (name x)); [|apply IHl].
    destruct (readEntry x) as [text| |] eqn:Hr; cbn [bind]; try apply IHl.
    + destruct (findMatches cwd text terms (Path.join p [name x]) repository) eqn:Hf;
        try apply IHl.
      intros _. eapply findMatches_Unmodelled, Hf.
    + destruct x as [? [?|]|? ?|?]; discriminate Hr.
Qed.

Variable root : list entry.

Lemma reposLoop_never_throws terms repos :
  forall results, reposLoop cwd root repos terms results <> Throw.
Proof.
  induction repos as [|repo repos IH]; intros results; [discriminate|].
  cbn [reposLoop]. destruct (bind _ _); [apply IH|apply IH|discriminate].
Qed.

Lemma reposLoop_Unmodelled terms repos :
  forall results, reposLoop cwd root repos terms results = Unmodelled ->
  Exists (fun t => RegExp.create t = Unmodelled) terms.
Proof.
  induction repos as [|repo repos IH]; intros results; [discriminate|].
  cbn [reposLoop].
  destruct (Fs.stat root (Path.join (reposPath cwd) [repo])) as [stats| |] eqn:Hst;
    cbn [bind]; try apply IH;
    [|unfold Fs.stat in Hst; destruct (Path.components _);
      [|destruct (Fs.lookup _ _)]; discriminate Hst].
  destruct (isDirectory stats); [|apply IH].
  destruct (searchInDirectory cwd _ repo terms stats) eqn:Hw; cbn [bind];
    try apply IH.
  intros _. eapply searchInDirectory_Unmodelled, Hw.
Qed.

(** The search returns its list: it never throws, and it stays inside
    the model when every search term does. *)
Lemma searchRepositoryDocuments_returns query :
  Forall modelled (searchTermsOf query) ->
  exists l, searchRepositoryDocuments cwd root query = Ok l.
Proof.
  intros Hm. unfold searchRepositoryDocuments.
  destruct (reposLoop cwd root repositories (searchTermsOf query) []) eqn:Hr;
    cbn [bind].
  - eauto.
  - now apply reposLoop_never_throws in Hr.
  - apply reposLoop_Unmodelled in Hr. apply Exists_exists in Hr.
    destruct Hr as [t [Hin Ht]]. rewrite Forall_forall in Hm.
    now destruct (Hm t Hin).
Qed.

End Totality.

(* ================================================================== *)
(** ** Facts: pruning below the repository roots *)
(* ================================================================== *)

Section SearchPrune.

Variable dead : entry -> bool.
Hypothesis dead_inert : forall e, dead e = true -> inert e.
Variable cwd : Path.t.
Variables root root' : list entry.

Lemma reposLoop_prune terms repos :
  (forall repo, In repo repos ->
     Fs.stat root' (Path.join (reposPath cwd) [repo]) =
     (e <- Fs.stat root (Path.join (reposPath cwd) [repo]) ;; Ok (prune dead e))) ->
  forall results,
    reposLoop cwd root' repos terms results = reposLoop cwd root repos terms results.
Proof.
  induction repos as [|repo repos IH]; intros Hst results; [reflexivity|].
  cbn [reposLoop]. rewrite (Hst repo (or_introl eq_refl)).
  assert (Hrest : forall results,
             reposLoop cwd root' repos terms results =
             reposLoop cwd root repos terms results).
  { apply IH. intros r Hr. apply Hst. now right. }
  destruct (Fs.stat root (Path.join (reposPath cwd) [repo])) as [e| |];
    cbn [bind]; try apply Hrest; [|reflexivity].
  rewrite prune_isDirectory.
  rewrite (searchInDirectory_prune cwd repo terms dead dead_inert e).
  destruct (isDirectory e); [|apply Hrest].
  destruct (searchInDirectory cwd _ repo terms e); cbn [bind];
    [apply Hrest|apply Hrest|reflexivity].
Qed.

Lemma searchRepositoryDocuments_prune query :
  repositoriesPruned dead cwd root root' ->
  searchRepositoryDocuments cwd root' query = searchRepositoryDocuments cwd root query.
Proof.
  intros H. unfold searchRepositoryDocuments.
  now rewrite (reposLoop_prune (searchTermsOf query) repositories H).
Qed.

End SearchPrune.

(* ================================================================== *)
(** ** Facts: the bound of the star matcher *)
(* ================================================================== *)

Section StarBound.

Variable step : RegExp.state -> RegExp.continuation -> option RegExp.state.
Variable reset : RegExp.state -> RegExp.state.
Variable greedy : bool.

(** [step] sees its continuation through its values only. *)
Hypothesis step_ext :
  forall x c c', (forall y, c y = c' y) -> step x c = step x c'.

Lemma star_unfold bound x c :
  RegExp.star step reset greedy bound x c =
  let d := fun y : RegExp.state =>
    if String.length (RegExp.rest y) <? String.length (RegExp.rest x)
    then match bound with
         | S bound' => RegExp.star step reset greedy bound' y c
         | O => None
         end
    else None in
  if greedy then
    match step (reset x) d with
    | Some z => Some z
    | None => c x
    end
  else
    match c x with
    | Some z => Some z
    | None => step (reset x) d
    end.
Proof. destruct bound; reflexivity. Qed.

Lemma star_congruence bound1 bound2 x c c' :
  c x = c' x ->
  (forall y, String.length (RegExp.rest y) < String.length (RegExp.rest x) ->
     match bound1 with
     | S b => RegExp.star step reset greedy b y c
     | O => None
     end =
     match bound2 with
     | S b => RegExp.star step reset greedy b y c'
     | O => None
     end) ->
  RegExp.star step reset greedy bound1 x c = RegExp.star step reset greedy bound2 x c'.
Proof.
  intros Hx Hd. rewrite !star_unfold. cbv zeta. rewrite Hx.
  match goal with
  | |- context [step (reset x) ?d1] =>
      match goal with
      | |- context [step (reset x) ?d2] =>
          tryif constr_eq d1 d2 then fail
          else assert (Hstep : step (reset x) d1 = step (reset x) d2)
      end
  end.
  - apply step_ext. intros y.
    destruct (String.length (RegExp.rest y) <? String.length (RegExp.rest x)) eqn:Hlt;
      [|reflexivity].
    apply Hd. now apply Nat.ltb_lt.
  - now rewrite Hstep.
Qed.

Lemma star_ext bound :
  forall x c c', (forall y, c y = c' y) ->
  RegExp.star step reset greedy bound x c = RegExp.star step reset greedy bound x c'.
Proof.
  induction bound as [|bound IH]; intros x c c' Hc;
    (apply star_congruence; [apply Hc|intros y _]); [reflexivity|now apply IH].
Qed.

(** A bound that is at least the length of the input left is never used
    up: any two such bounds give the same result. *)
Lemma star_bound n1 :
  forall n2 x c,
    String.length (RegExp.rest x) <= n1 -> String.length (RegExp.rest x) <= n2 ->
    RegExp.star step reset greedy n1 x c = RegExp.star step reset greedy n2 x c.
Proof.
  induction n1 as [|n1 IH]; intros n2 x c H1 H2;
    (apply star_congruence; [reflexivity|intros y Hy]); [lia|].
  destruct n2 as [|n2]; [lia|]. apply IH; lia.
Qed.

End StarBound.

(** The matcher of a tree sees its continuation through its values
    only. *)
Lemma matcher_ext ignoreCase r :
  forall x c c', (forall y, c y = c' y) ->
  RegExp.matcher ignoreCase r x c = RegExp.matcher ignoreCase r x c'.
Proof.
  induction r as [|a| | | |r1 IH1 r2 IH2|r1 IH1 r2 IH2|n r IH|q greedy r IH];
    intros x c c' Hc; cbn [RegExp.matcher].
  - apply Hc.
  - destruct (RegExp.rest x); [reflexivity|]. destruct (Ascii.eqb _ _); [apply Hc|reflexivity].
  - destruct (RegExp.rest x); [reflexivity|].
    destruct (RegExp.isLineTerminator _); [reflexivity|apply Hc].
  - destruct (RegExp.endIndex x =? 0); [apply Hc|reflexivity].
  - destruct (RegExp.rest x); [apply Hc|reflexivity].
  - apply IH1. intros y. now apply IH2.
  - rewrite (IH1 x c c' Hc), (IH2 x c c' Hc). reflexivity.
  - apply IH. intros y. apply Hc.
  - destruct q.
    + now apply star_ext.
    + apply IH. intros y. now apply star_ext.
    + rewrite (Hc x).
      assert (Hd : forall d d', (forall y, d y = d' y) ->
                   RegExp.matcher ignoreCase r
                     (RegExp.reset_captures (RegExp.groups_in r) x) d =
                   RegExp.matcher ignoreCase r
                     (RegExp.reset_captures (RegExp.groups_in r) x) d')
        by (intros d d' Hdd; now apply IH).
      erewrite Hd; [reflexivity|].
      intros y. cbv beta. destruct (_ <? _); [apply Hc|reflexivity].
Qed.

(** The matcher of [r*] does not depend on the bound it starts with. *)
Lemma matcher_star_bound ignoreCase greedy r x c n :
  String.length (RegExp.rest x) <= n ->
  RegExp.matcher ignoreCase (RegExp.Repeat RegExp.QStar greedy r) x c =
  RegExp.star (RegExp.matcher ignoreCase r)
    (RegExp.reset_captures (RegExp.groups_in r)) greedy n x c.
Proof.
  intros Hn. cbn [RegExp.matcher]. apply star_bound; [apply matcher_ext|lia|exact Hn].
Qed.

(* ================================================================== *)
(** ** Facts: literal terms and the empty term *)
(* ================================================================== *)

Lemma afterPrefix_startsWith t s :
  startsWith s t = match afterPrefix t s with Some _ => true | None => false end.
Proof.
  unfold startsWith. revert s.
  induction t as [|a t IH]; intros s; [now destruct s|].
  destruct s as [|b s]; [reflexivity|]. cbn [String.prefix afterPrefix].
  destruct (Ascii.eqb_spec a b) as [->|Hne].
  - destruct (ascii_dec b b) as [_|Hn]; [apply IH|now contradiction Hn].
  - destruct (ascii_dec a b) as [He|_]; [now contradiction Hne|reflexivity].
Qed.

Lemma not_syntax_character c :
  RegExp.isSyntaxCharacter c = false ->
  Ascii.eqb c "\" = false /\
  existsb (Ascii.eqb c) (list_ascii_of_string "[]{}") = false /\
  RegExp.token_of_char c = RegExp.TChar c.
Proof.
  unfold RegExp.isSyntaxCharacter, RegExp.token_of_char.
  cbn [list_ascii_of_string existsb]. intros H.
  repeat (apply orb_false_elim in H; destruct H as [? H]).
  repeat match goal with E : Ascii.eqb c _ = false |- _ => rewrite E; clear E end.
  repeat split; reflexivity.
Qed.

Lemma lex_literal t : isLiteral t = true -> RegExp.lex t = Ok (charTokens t).
Proof.
  induction t as [|c t IH]; [reflexivity|].
  cbn [isLiteral]. intros H. apply andb_prop in H. destruct H as [Hc Ht].
  apply negb_true_iff in Hc.
  destruct (not_syntax_character c Hc) as [Hb [Hk Htok]].
  cbn [RegExp.lex charTokens]. rewrite Hb, Hk, (IH Ht), Htok. reflexivity.
Qed.

Lemma hasGroupSpecifier_literal t ts :
  RegExp.hasGroupSpecifier (charTokens t ++ ts) = RegExp.hasGroupSpecifier ts.
Proof. induction t as [|c t IH]; [reflexivity|exact IH]. Qed.

Lemma parse_literal t :
  forall ts groups cur stack,
    RegExp.parse (charTokens t ++ ts) groups cur stack =
    RegExp.parse ts groups (RegExp.set_items (pushChars t (RegExp.f_items cur)) cur) stack.
Proof.
  induction t as [|c t IH]; intros ts groups cur stack.
  - destruct cur; reflexivity.
  - cbn [charTokens app RegExp.parse pushChars]. rewrite IH. reflexivity.
Qed.

Lemma alternative_of_literal t :
  forall items acc,
    fold_left (fun acc i => RegExp.Seq (RegExp.item_regex i) acc) (pushChars t items) acc =
    fold_left (fun acc i => RegExp.Seq (RegExp.item_regex i) acc) items (literalTree t acc).
Proof.
  induction t as [|c t IH]; intros items acc; [reflexivity|].
  cbn [pushChars literalTree]. now rewrite IH.
Qed.

(** A literal compiles to the sequence of its characters. *)
Lemma create_literal t : isLiteral t = true -> RegExp.create t = Ok (literalPattern t).
Proof.
  intros H. unfold RegExp.create. rewrite (lex_literal t H). cbn [bind].
  rewrite <- (app_nil_r (charTokens t)), hasGroupSpecifier_literal, parse_literal.
  cbn [RegExp.hasGroupSpecifier RegExp.parse RegExp.disjunction_of RegExp.set_items
       RegExp.f_alts RegExp.f_items fold_left].
  unfold RegExp.alternative_of. rewrite alternative_of_literal. reflexivity.
Qed.

(** And so does the group [createExcerpt] wraps it in. *)
Lemma create_literal_group t :
  isLiteral t = true -> RegExp.create ("(" ++ t ++ ")") = Ok (literalGroup t).
Proof.
  intros H. unfold RegExp.create.
  change ("(" ++ t ++ ")")%string with (String "(" (t ++ ")")).
  cbn [RegExp.lex]. cbn [Ascii.eqb Bool.eqb existsb list_ascii_of_string orb].
  rewrite (lex_app t ")" _ (lex_literal t H)). cbn [RegExp.lex bind].
  cbn [Ascii.eqb Bool.eqb existsb list_ascii_of_string orb].
  change (RegExp.token_of_char "(") with RegExp.TLParen.
  change (RegExp.token_of_char ")") with RegExp.TRParen.
  cbn [bind app].
  assert (Hgs : RegExp.hasGroupSpecifier
                  (RegExp.TLParen :: charTokens t ++ [RegExp.TRParen]) = false).
  { rewrite hasGroupSpecifier_cons. destruct t; [reflexivity|].
    cbn [charTokens app]. rewrite hasGroupSpecifier_cons.
    apply hasGroupSpecifier_literal. }
  rewrite Hgs. cbn [RegExp.parse]. rewrite parse_literal.
  cbn [RegExp.parse RegExp.disjunction_of RegExp.set_items RegExp.push_item
       RegExp.f_alts RegExp.f_items RegExp.f_group fold_left].
  unfold RegExp.alternative_of. rewrite alternative_of_literal. reflexivity.
Qed.

(** The matcher of a literal moves over that literal, or fails. *)
Lemma matcher_literal t tail :
  forall x c,
    RegExp.matcher false (literalTree t tail) x c =
    match afterPrefix t (RegExp.rest x) with
    | Some s' =>
        RegExp.matcher false tail
          {| RegExp.endIndex := RegExp.endIndex x + String.length t;
             RegExp.rest := s';
             RegExp.captures := RegExp.captures x |} c
    | None => None
    end.
Proof.
  induction t as [|a t IH]; intros x c.
  - cbn [literalTree afterPrefix String.length]. rewrite Nat.add_0_r. now destruct x.
  - cbn [literalTree RegExp.matcher RegExp.canonicalize].
    destruct (RegExp.rest x) as [|b s'] eqn:Hrest; cbn [afterPrefix]; [reflexivity|].
    destruct (Ascii.eqb a b); [|reflexivity].
    rewrite IH. cbn [RegExp.advance RegExp.rest RegExp.endIndex RegExp.captures String.length].
    now rewrite Nat.add_succ_r.
Qed.

Lemma match_at_literal t i s :
  RegExp.match_at false (literalPattern t) i s =
  match afterPrefix t s with
  | Some s' => Some {| RegExp.endIndex := i + String.length t;
                       RegExp.rest := s';
                       RegExp.captures := [] |}
  | None => None
  end.
Proof.
  unfold RegExp.match_at, literalPattern. cbn [RegExp.source_tree].
  rewrite matcher_literal. reflexivity.
Qed.

(** The matches of a literal under the flag [g] are its occurrences. *)
Lemma match_all_literal t s :
  forall i skip,
    List.length (RegExp.match_all false (literalPattern t) i s skip) =
    occurrencesFrom t s skip.
Proof.
  induction s as [|b s IH]; intros i skip.
  - destruct skip; [|reflexivity].
    cbn [RegExp.match_all occurrencesFrom].
    rewrite match_at_literal, afterPrefix_startsWith.
    now destruct (afterPrefix t "").
  - destruct skip as [|skip]; cbn [RegExp.match_all occurrencesFrom]; [|apply IH].
    rewrite match_at_literal, afterPrefix_startsWith.
    destruct (afterPrefix t (String b s)); cbn [List.length RegExp.endIndex].
    + rewrite IH. now rewrite Nat.add_comm, Nat.add_sub.
    + apply IH.
Qed.

Lemma scoreLoop_literal content terms :
  Forall (fun t => isLiteral t = true) terms ->
  forall score,
    scoreLoop content terms score =
    Ok (score + list_sum (List.map (countOccurrences content) terms)).
Proof.
  induction 1 as [|t terms Ht _ IH]; intros score.
  - cbn. now rewrite Nat.add_0_r.
  - cbn [scoreLoop List.map list_sum]. rewrite (create_literal t Ht). cbn [bind].
    rewrite IH. unfold RegExp.matchGlobal, countOccurrences.
    rewrite <- (match_all_literal t content 0 0).
    destruct (RegExp.match_all false (literalPattern t) 0 content 0);
      cbn [List.length]; unfold list_sum; cbn [fold_right]; f_equal; lia.
Qed.

Lemma highlight_literal terms :
  Forall (fun t => isLiteral t = true) terms ->
  forall excerpt, exists text, highlight excerpt terms = Ok text.
Proof.
  induction 1 as [|t terms Ht _ IH]; intros excerpt.
  - now exists excerpt.
  - cbn [highlight]. rewrite (create_literal_group t Ht). cbn [bind]. apply IH.
Qed.

Lemma create_empty : RegExp.create "" = Ok emptyPattern.
Proof. reflexivity. Qed.

Lemma create_empty_group : RegExp.create "()" = Ok emptyGroup.
Proof. reflexivity. Qed.

Lemma length_toLowerCase s : String.length (toLowerCase s) = String.length s.
Proof.
  induction s as [|c s IH]; [reflexivity|].
  unfold toLowerCase in *. cbn [JsString.map String.length]. now rewrite IH.
Qed.

(** The empty pattern matches once at every index, the end included. *)
Lemma match_all_empty s :
  forall i, List.length (RegExp.match_all false emptyPattern i s 0) = S (String.length s).
Proof.
  induction s as [|c s IH]; intros i; [reflexivity|].
  cbn [RegExp.match_all]. unfold RegExp.match_at.
  cbn [RegExp.matcher emptyPattern RegExp.source_tree RegExp.endIndex].
  rewrite Nat.sub_diag. cbn [pred List.length String.length].
  now rewrite IH.
Qed.

(** Each empty term adds the length of the content plus one. *)
Lemma scoreLoop_empty_terms content n :
  forall score,
    scoreLoop content (repeat EmptyString n) score =
    Ok (score + n * S (String.length content)).
Proof.
  induction n as [|n IH]; intros score; [cbn; f_equal; lia|].
  cbn [repeat scoreLoop]. rewrite create_empty. cbn [bind].
  rewrite IH. unfold RegExp.matchGlobal.
  pose proof (match_all_empty content 0) as H.
  destruct (RegExp.match_all false emptyPattern 0 content 0); [discriminate H|].
  rewrite H. f_equal. lia.
Qed.

Lemma highlight_empty_terms n :
  forall excerpt, exists text, highlight excerpt (repeat EmptyString n) = Ok text.
Proof.
  induction n as [|n IH]; intros excerpt; [now exists excerpt|].
  cbn [repeat highlight String.append]. rewrite create_empty_group. cbn [bind].
  apply IH.
Qed.

(** A query of spaces has one empty term more than it has spaces. *)
Lemma searchTermsOf_spaces n : searchTermsOf (spaces n) = repeat EmptyString (S n).
Proof.
  unfold searchTermsOf, toLowerCase.
  induction n as [|n IH]; [reflexivity|].
  cbn [spaces JsString.map]. change (toLowerCaseChar " ") with " "%char.
  cbn [split Ascii.eqb Bool.eqb]. now rewrite IH.
Qed.

(* ================================================================== *)
(** ** The score (C1) *)
(* ================================================================== *)

(** On terms without syntax characters [findMatches] does what the
    specification says of the score: it returns no result when no term
    occurs in the lowercased content, and otherwise one result whose score
    is the number of occurrences, summed over the terms. *)
Theorem findMatches_literal_terms (cwd : Path.t) (doc : string)
  (searchTerms : list string) (filePath : Path.t) (repo : string) :
  Forall (fun t => isLiteral t = true) searchTerms ->
  (score_spec doc searchTerms = 0 ->
   findMatches cwd doc searchTerms filePath repo = Ok []) /\
  (0 < score_spec doc searchTerms ->
   exists r, findMatches cwd doc searchTerms filePath repo = Ok [r] /\
             score r = score_spec doc searchTerms).
Proof.
  intros Hlit. unfold findMatches, score_spec.
  rewrite (scoreLoop_literal _ _ Hlit 0). cbn [bind Nat.add].
  set (total := list_sum _). split.
  - intros ->. reflexivity.
  - intros Hpos. destruct (Nat.eqb_spec total 0) as [H0|_]; [lia|].
    unfold createExcerpt.
    destruct (relevantLoop _ searchTerms 0 _) as [|best others].
    + cbn [bind]. eexists. split; reflexivity.
    + destruct (highlight_literal _ Hlit (content best)) as [text ->].
      cbn [bind]. destruct (500 <? _); eexists; split; reflexivity.
Qed.

(** The end-to-end scenario of the specification: the content of
    [docs/a.md] and the query [transaction fee] give one result of score 2
    with the title [Intro]. *)
Lemma findMatches_literal_terms_witness :
  exists r,
    findMatches Sample.app Sample.intro (searchTermsOf "transaction fee")
      (Path.join Sample.app ["repos"; "docs"; "docs"; "a.md"]) "docs" = Ok [r] /\
    score r = 2 /\ title r = "Intro" /\ path r = "docs/docs/a.md".
Proof.
  destruct (findMatches_literal_terms Sample.app Sample.intro
              (searchTermsOf "transaction fee")
              (Path.join Sample.app ["repos"; "docs"; "docs"; "a.md"]) "docs")
    as [_ Hpos].
  { repeat constructor. }
  destruct Hpos as [r [Hr Hscore]]; [vm_compute; lia|].
  exists r. split; [exact Hr|]. split; [exact Hscore|].
  vm_compute in Hr. injection Hr as <-. split; reflexivity.
Defined.

(** C1, evaluated. A search term goes to the [RegExp] constructor as it is
    written, so a term with a syntax character is matched as a pattern and
    not as a text. The term [node.js] does not occur in the content
    [install node-js first] (its occurrence count is 0, and the line test
    of [findMatches] finds no line), yet its pattern matches [node-js]: a
    result is returned, with score 1 and [matchCount] 0. The term [.] gives
    the content [abc] the score 3. And the content [f(x)] holds the term
    [(] once, yet no result is returned: the constructor throws. *)
Theorem score_counts_pattern_matches :
  countOccurrences (toLowerCase "install node-js first") "node.js" = 0 /\
  includes (toLowerCase "install node-js first") "node.js" = false /\
  (exists r,
     findMatches Sample.app "install node-js first" (searchTermsOf "node.js")
       (Path.join Sample.app ["repos"; "docs"; "setup.md"]) "docs" = Ok [r] /\
     score r = 1 /\ matchCount r = 0 /\ excerpt r = EmptyString) /\
  (exists r,
     findMatches Sample.app "abc" ["."]
       (Path.join Sample.app ["repos"; "docs"; "setup.md"]) "docs" = Ok [r] /\
     score r = 3 /\ score_spec "abc" ["."] = 0) /\
  score_spec "f(x)" ["("] = 1 /\
  findMatches Sample.app "f(x)" ["("]
    (Path.join Sample.app ["repos"; "docs"; "setup.md"]) "docs" = Throw.
Proof.
  split; [reflexivity|]. split; [reflexivity|]. split; [|split; [|split]].
  - eexists. split; [vm_compute; reflexivity|]. repeat split; reflexivity.
  - eexists. split; [vm_compute; reflexivity|]. split; reflexivity.
  - reflexivity.
  - reflexivity.
Qed.

(* ================================================================== *)
(** ** The empty query (C2) *)
(* ================================================================== *)

(** C2, evaluated. The empty query has one search term, the empty string,
    not none, and a query of [n] spaces has [n + 1] of them. The expression
    of the empty term matches at every index of every content, so for such
    a query the score of a document is [n + 1] times its length plus one,
    never 0, and [findMatches] returns a result for every document; on the
    sample tree the empty query returns all four documents. *)
Theorem empty_query_returns_every_document :
  searchTermsOf "" = [""] /\
  (forall n cwd doc filePath repo,
     exists r,
       findMatches cwd doc (searchTermsOf (spaces n)) filePath repo = Ok [r] /\
       score r = (n + 1) * (String.length doc + 1)) /\
  (exists l,
     searchRepositoryDocuments Sample.app Sample.plain "" = Ok l /\
     List.map path l =
     ["docs/docs/a.md"; "core/notes.txt"; "docs/fees.md"; "core/README"] /\
     List.map score l = [48; 19; 13; 7]).
Proof.
  split; [reflexivity|]. split.
  - intros n cwd doc filePath repo.
    rewrite searchTermsOf_spaces. unfold findMatches.
    rewrite scoreLoop_empty_terms, length_toLowerCase. cbn [Nat.add].
    replace ((n + 1) * (String.length doc + 1))
      with (S n * S (String.length doc)) by lia.
    cbn [Nat.mul Nat.add bind Nat.eqb].
    unfold createExcerpt.
    destruct (relevantLoop _ (repeat EmptyString (S n)) 0 _) as [|best others].
    + cbn [bind]. eexists. split; reflexivity.
    + destruct (highlight_empty_terms (S n) (content best)) as [text ->].
      cbn [bind]. destruct (500 <? _); eexists; split; reflexivity.
  - eexists. split; [vm_compute; reflexivity|]. split; reflexivity.
Qed.

(* ================================================================== *)
(** ** The ranking of the results (C3) *)
(* ================================================================== *)

(** C3. For every query the search returns without throwing (and inside
    the model as soon as every term is), and the list it returns is the
    list of the results in the order the traversal met them, rearranged so
    that scores never increase, while results of equal score keep the
    order in which they were met. *)
Theorem search_results_ranked_stable (cwd : Path.t) (root : list entry) (query : string) :
  searchRepositoryDocuments cwd root query <> Throw /\
  (Forall modelled (searchTermsOf query) ->
   exists l, searchRepositoryDocuments cwd root query = Ok l) /\
  (forall l, searchRepositoryDocuments cwd root query = Ok l ->
   exists encountered,
     reposLoop cwd root repositories (searchTermsOf query) [] = Ok encountered /\
     Permutation encountered l /\
     StronglySorted ranksBefore l /\
     forall k, filter (hasScore k) l = filter (hasScore k) encountered).
Proof.
  split; [|split].
  - unfold searchRepositoryDocuments.
    destruct (reposLoop cwd root repositories (searchTermsOf query) []) eqn:Hr;
      cbn [bind]; try discriminate.
    now apply reposLoop_never_throws in Hr.
  - apply searchRepositoryDocuments_returns.
  - intros l. unfold searchRepositoryDocuments.
    destruct (reposLoop cwd root repositories (searchTermsOf query) [])
      as [encountered| |]; cbn [bind]; try discriminate.
    intros H. injection H as <-. exists encountered.
    split; [reflexivity|]. split; [apply Array_sort_perm|].
    split; [apply Array_sort_sorted|]. intros k. apply Array_sort_stable.
Qed.

(** The query [fee] on the sample tree: [docs/docs/a.md] (score 1) is met
    first, then [docs/fees.md] (score 3), then [core/README] (score 1). *)
Lemma search_results_ranked_stable_witness :
  exists l encountered,
    searchRepositoryDocuments Sample.app Sample.plain "fee" = Ok l /\
    List.map path encountered = ["docs/docs/a.md"; "docs/fees.md"; "core/README"] /\
    List.map path l = ["docs/fees.md"; "docs/docs/a.md"; "core/README"] /\
    List.map score l = [3; 1; 1] /\
    StronglySorted ranksBefore l /\
    filter (hasScore 1) l = filter (hasScore 1) encountered.
Proof.
  destruct (search_results_ranked_stable Sample.app Sample.plain "fee")
    as [_ [Hret Hsorted]].
  destruct Hret as [l Hl].
  { repeat constructor; vm_compute; discriminate. }
  destruct (Hsorted l Hl) as [encountered [Henc [_ [Hs Hst]]]].
  exists l, encountered.
  assert (Hl' := Hl). vm_compute in Hl'. injection Hl' as Hl'.
  vm_compute in Henc. injection Henc as Henc.
  split; [exact Hl|]. split; [now rewrite <- Henc|].
  split; [now rewrite <- Hl'|]. split; [now rewrite <- Hl'|].
  split; [exact Hs|apply Hst].
Defined.

(* ================================================================== *)
(** ** Which files are searched (C4) *)
(* ================================================================== *)

Lemma array_includes_In l x : array_includes l x = true <-> In x l.
Proof.
  unfold array_includes. rewrite existsb_exists. split.
  - intros [y [Hin Heq]]. apply String.eqb_eq in Heq. now subst.
  - intros Hin. exists x. split; [exact Hin|apply String.eqb_refl].
Qed.

(** C4. [isSearchableFile] answers true exactly for a name whose
    extension, lowercased, is on the list, and for the names [README] and
    [LICENSE]; and a walk gives the same results on a tree and on that tree
    without the files the classifier turns down, whatever they hold: for
    the walk of one directory, and for the whole search when the
    repository roots differ by such files only. *)
Theorem ineligible_files_never_contribute :
  (forall filename,
     isSearchableFile filename = true <->
     (In (toLowerCase (Path.extname filename)) searchableExtensions \/
      filename = "README" \/ filename = "LICENSE")) /\
  (forall cwd dirPath repo terms dir,
     searchInDirectory cwd dirPath repo terms (prune ineligibleFile dir) =
     searchInDirectory cwd dirPath repo terms dir) /\
  (forall cwd root root' query,
     repositoriesPruned ineligibleFile cwd root root' ->
     searchRepositoryDocuments cwd root' query = searchRepositoryDocuments cwd root query).
Proof.
  split; [|split].
  - intros filename. unfold isSearchableFile.
    rewrite !orb_true_iff, array_includes_In, !String.eqb_eq. tauto.
  - intros cwd dirPath repo terms dir.
    apply (searchInDirectory_prune cwd repo terms ineligibleFile ineligibleFile_inert).
  - intros. now apply (searchRepositoryDocuments_prune ineligibleFile ineligibleFile_inert).
Qed.

(** [logo.png] holds both terms of the query and is turned down. The
    extension of [notes.MD] is on the list once lowercased; the name
    [.env] has no extension, and [readme] is not [README]. *)
Lemma ineligible_files_never_contribute_witness :
  List.map isSearchableFile ["notes.MD"; "README"; "LICENSE"; ".env"; "readme"; "logo.png"] =
  [true; true; true; false; false; false] /\
  ineligibleFile (File "logo.png" (Some "transaction fee")) = true /\
  searchRepositoryDocuments Sample.app Sample.plain "transaction fee" =
  searchRepositoryDocuments Sample.app
    (Sample.inRepos Sample.docsWithImage Sample.corePlain) "transaction fee".
Proof.
  split; [reflexivity|]. split; [reflexivity|].
  apply (proj2 (proj2 ineligible_files_never_contribute)).
  intros repo Hin. cbn in Hin.
  repeat (destruct Hin as [<-|Hin]; [reflexivity|]). destruct Hin.
Defined.

(* ================================================================== *)
(** ** Which directories are walked (C5) *)
(* ================================================================== *)

(** C5. The walk enters an entry exactly when it is a directory whose
    name neither starts with a dot nor is one of the five excluded names;
    and a walk gives the same results on a tree and on that tree without
    the directories it does not enter, whatever lies under them: for the
    walk of one directory, and for the whole search when the repository
    roots differ by such directories only. *)
Theorem excluded_directories_never_entered :
  (forall e,
     descends e = true <->
     (isDirectory e = true /\ startsWith (name e) "." = false /\
      ~ In (name e) excludedNames)) /\
  (forall cwd dirPath repo terms dir,
     searchInDirectory cwd dirPath repo terms (prune excludedDirectory dir) =
     searchInDirectory cwd dirPath repo terms dir) /\
  (forall cwd root root' query,
     repositoriesPruned excludedDirectory cwd root root' ->
     searchRepositoryDocuments cwd root' query = searchRepositoryDocuments cwd root query).
Proof.
  split; [|split].
  - intros e. unfold descends, excludedNames.
    rewrite !andb_true_iff, !negb_true_iff. cbn [In].
    rewrite !String.eqb_neq. intuition congruence.
  - intros cwd dirPath repo terms dir.
    apply (searchInDirectory_prune cwd repo terms excludedDirectory excludedDirectory_inert).
  - intros. now apply (searchRepositoryDocuments_prune excludedDirectory
                         excludedDirectory_inert).
Qed.

(** [node_modules], [.git] and [build] hold matching Markdown files. *)
Lemma excluded_directories_never_entered_witness :
  descends (Dir "src" None) = true /\
  descends (Dir ".git" None) = false /\
  descends (Dir "build" None) = false /\
  searchRepositoryDocuments Sample.app Sample.plain "fee" =
  searchRepositoryDocuments Sample.app
    (Sample.inRepos Sample.docsWithExcluded Sample.corePlain) "fee".
Proof.
  destruct excluded_directories_never_entered as [Hiff [_ Hsearch]].
  split; [apply Hiff; cbn; intuition discriminate|].
  split; [reflexivity|]. split; [reflexivity|].
  apply Hsearch.
  intros repo Hin. cbn in Hin.
  repeat (destruct Hin as [<-|Hin]; [reflexivity|]). destruct Hin.
Defined.

(* ================================================================== *)
(** ** One result for each document (C6) *)
(* ================================================================== *)

Lemma relevantLoop_length lines searchTerms todo :
  forall i, List.length (relevantLoop lines searchTerms i todo) =
            List.length (filter (lineMatches searchTerms) todo).
Proof.
  induction todo as [|line todo IH]; intros i; [reflexivity|].
  cbn [relevantLoop filter]. unfold lineMatches at 1.
  destruct (existsb _ searchTerms); cbn [List.length]; now rewrite IH.
Qed.

(** C6. When [findMatches] returns, it returns at most one result, and the
    [matchCount] of that result is the number of lines of the content
    that contain, lowercased, at least one search term; the score plays no
    part in it. *)
Theorem findMatches_at_most_one_result (cwd : Path.t) (content : string)
  (searchTerms : list string) (filePath : Path.t) (repository : string)
  (l : list SearchResult) :
  findMatches cwd content searchTerms filePath repository = Ok l ->
  List.length l <= 1 /\
  forall r, In r l ->
    matchCount r =
    List.length (filter (lineMatches searchTerms) (split (ascii_of_nat 10) content)).
Proof.
  unfold findMatches. intros H.
  destruct (scoreLoop (toLowerCase content) searchTerms 0) as [n| |];
    cbn [bind] in H; try discriminate.
  destruct (n =? 0).
  - injection H as <-. split; [simpl; lia|intros r []].
  - destruct (createExcerpt _ searchTerms) as [ex| |]; cbn [bind] in H;
      try discriminate.
    injection H as <-. split; [simpl; lia|].
    intros r [<-|[]]. cbn [matchCount]. apply relevantLoop_length.
Qed.

(** A document of five lines, three of which hold a term: one result,
    score 4, [matchCount] 3. *)
Lemma findMatches_at_most_one_result_witness :
  exists r,
    findMatches Sample.app Sample.fiveLines ["fee"; "flow"]
      (Path.join Sample.app ["repos"; "docs"; "f.md"]) "docs" = Ok [r] /\
    score r = 4 /\ matchCount r = 3.
Proof.
  destruct (findMatches Sample.app Sample.fiveLines ["fee"; "flow"]
              (Path.join Sample.app ["repos"; "docs"; "f.md"]) "docs")
    as [l| |] eqn:Hf; try (vm_compute in Hf; discriminate Hf).
  destruct (findMatches_at_most_one_result _ _ _ _ _ l Hf) as [_ Hcount].
  vm_compute in Hf. injection Hf as <-.
  eexists. split; [reflexivity|]. split; [reflexivity|].
  rewrite (Hcount _ (or_introl eq_refl)). vm_compute. reflexivity.
Defined.

(* ================================================================== *)
(** ** The title of a document (C7) *)
(* ================================================================== *)

(** The title is taken from the first of the first ten lines that starts
    with the heading marker. *)
Lemma getDocumentTitle_heading content fileName line :
  find (fun l => startsWith l "# ") (firstn 10 (split (ascii_of_nat 10) content)) = Some line ->
  getDocumentTitle content fileName = trim (substring_from 2 line).
Proof.
  unfold getDocumentTitle, slice. rewrite Nat.sub_0_r. cbn [skipn].
  now intros ->.
Qed.

Lemma getDocumentTitle_fallback content fileName :
  find (fun l => startsWith l "# ") (firstn 10 (split (ascii_of_nat 10) content)) = None ->
  getDocumentTitle content fileName =
  dashesToSpaces (replace_first (Path.extname fileName) "" fileName).
Proof.
  unfold getDocumentTitle, slice. rewrite Nat.sub_0_r. cbn [skipn].
  now intros ->.
Qed.

(** A heading on the eleventh line is not looked at. *)
Lemma getDocumentTitle_eleventh_line :
  getDocumentTitle
    (String.concat Sample.lf ["0"; "1"; "2"; "3"; "4"; "5"; "6"; "7"; "8"; "9"; "# Late"])
    "my_doc.md" = "my doc".
Proof. reflexivity. Qed.

(** C7, evaluated. The two examples of the specification hold: a first line
    [# Hello World] gives the title [Hello World], and [my-doc.md] without
    heading gives [my doc]. The fallback removes the first place where the
    text of the extension occurs in the name, which need not be the
    extension: for [guide.md.old.md] it gives [guide.old.md], where the name
    with its extension stripped is [guide.md.old]. *)
Theorem title_fallback_removes_first_occurrence :
  getDocumentTitle "# Hello World" "x.md" = "Hello World" /\
  getDocumentTitle "no heading" "my-doc.md" = "my doc" /\
  Path.extname "guide.md.old.md" = ".md" /\
  getDocumentTitle "no heading" "guide.md.old.md" = "guide.old.md" /\
  fallbackTitle_spec "guide.md.old.md" = "guide.md.old" /\
  fallbackTitle_spec "my-doc.md" = "my doc".
Proof. repeat split; reflexivity. Qed.

(* ================================================================== *)
(** ** Failures of the file system (C8) *)
(* ================================================================== *)

(** C8. Neither the walk of a directory nor the search throws: a file
    that cannot be read and a directory that cannot be listed are passed
    over, and the results are those of the same tree without them, so what
    their siblings contribute is untouched; a directory that cannot be
    listed gives the empty list when it is the one walked. *)
Theorem read_failures_absorbed :
  (forall cwd dirPath repo terms dir,
     searchInDirectory cwd dirPath repo terms dir <> Throw) /\
  (forall cwd root query, searchRepositoryDocuments cwd root query <> Throw) /\
  (forall cwd dirPath repo terms n,
     searchInDirectory cwd dirPath repo terms (Dir n None) = Ok []) /\
  (forall cwd dirPath repo terms dir,
     searchInDirectory cwd dirPath repo terms (prune unreadable dir) =
     searchInDirectory cwd dirPath repo terms dir) /\
  (forall cwd root root' query,
     repositoriesPruned unreadable cwd root root' ->
     searchRepositoryDocuments cwd root' query = searchRepositoryDocuments cwd root query).
Proof.
  split; [|split; [|split; [|split]]].
  - intros. apply searchInDirectory_never_throws.
  - intros cwd root query. unfold searchRepositoryDocuments.
    destruct (reposLoop cwd root repositories (searchTermsOf query) []) eqn:Hr;
      cbn [bind]; try discriminate.
    now apply reposLoop_never_throws in Hr.
  - reflexivity.
  - intros cwd dirPath repo terms dir.
    apply (searchInDirectory_prune cwd repo terms unreadable unreadable_inert).
  - intros. now apply (searchRepositoryDocuments_prune unreadable unreadable_inert).
Qed.

(** [locked.md] cannot be read and [private] cannot be listed; the
    results are those of their siblings. *)
Lemma read_failures_absorbed_witness :
  searchRepositoryDocuments Sample.app Sample.plain "fee" =
  searchRepositoryDocuments Sample.app
    (Sample.inRepos Sample.docsWithFailures Sample.corePlain) "fee" /\
  exists l, searchRepositoryDocuments Sample.app Sample.plain "fee" = Ok l /\
            List.length l = 3.
Proof.
  destruct read_failures_absorbed as [_ [_ [_ [_ Hsearch]]]].
  split.
  - apply Hsearch. intros repo Hin. cbn in Hin.
    repeat (destruct Hin as [<-|Hin]; [reflexivity|]). destruct Hin.
  - eexists. split; [vm_compute; reflexivity|reflexivity].
Defined.

(* ================================================================== *)
(** ** Facts: any engine, and the engine of the model *)
(* ================================================================== *)

Section AnyEngine.

Variable E : RegExpEngine.t.
Variable cwd : Path.t.

Lemma any_searchInDirectory_Dir p repo terms n l :
  Generic.searchInDirectory E cwd p repo terms (Dir n (Some l)) =
  returnResults
    (Generic.searchLoop E cwd
       (fun q sub => Generic.searchInDirectory E cwd q repo terms sub)
       p repo terms l []).
Proof. reflexivity. Qed.

(** The outer [catch] of [searchInDirectory] lets nothing through,
    whatever the engine. *)
Lemma any_searchInDirectory_never_throws p repo terms e :
  Generic.searchInDirectory E cwd p repo terms e <> Throw.
Proof.
  destruct e as [n c|n [l|]|n]; try discriminate.
  rewrite any_searchInDirectory_Dir. unfold returnResults.
  destruct (snd _); discriminate.
Qed.

Lemma any_reposLoop_never_throws root terms repos :
  forall results, Generic.reposLoop E cwd root repos terms results <> Throw.
Proof.
  induction repos as [|repo repos IH]; intros results; [discriminate|].
  cbn [Generic.reposLoop]. destruct (bind _ _); [apply IH|apply IH|discriminate].
Qed.

Lemma any_searchRepositoryDocuments_never_throws root query :
  Generic.searchRepositoryDocuments E cwd root query <> Throw.
Proof.
  unfold Generic.searchRepositoryDocuments.
  destruct (Generic.reposLoop E cwd root repositories (searchTermsOf query) [])
    as [encountered| |] eqn:Hl; cbn [bind]; try discriminate.
  now destruct (any_reposLoop_never_throws root (searchTermsOf query) repositories []).
Qed.

End AnyEngine.

(** With the engine of the model, the functions over any engine are the
    functions of the model. *)
Lemma model_scoreLoop content terms :
  forall score,
    Generic.scoreLoop modelEngine content terms score = scoreLoop content terms score.
Proof. reflexivity. Qed.

Lemma model_highlight terms :
  forall excerpt, Generic.highlight modelEngine excerpt terms = highlight excerpt terms.
Proof. reflexivity. Qed.

Lemma model_findMatches cwd content terms filePath repo :
  Generic.findMatches modelEngine cwd content terms filePath repo =
  findMatches cwd content terms filePath repo.
Proof. reflexivity. Qed.

Lemma model_searchInDirectory cwd repo terms e :
  forall p,
    Generic.searchInDirectory modelEngine cwd p repo terms e =
    searchInDirectory cwd p repo terms e.
Proof. reflexivity. Qed.

Lemma model_reposLoop cwd root terms repos :
  forall results,
    Generic.reposLoop modelEngine cwd root repos terms results =
    reposLoop cwd root repos terms results.
Proof. reflexivity. Qed.

Lemma model_searchRepositoryDocuments cwd root query :
  Generic.searchRepositoryDocuments modelEngine cwd root query =
  searchRepositoryDocuments cwd root query.
Proof. reflexivity. Qed.

Lemma model_repositorySearch cwd root args :
  Generic.repositorySearch modelEngine cwd root args = repositorySearch cwd root args.
Proof. reflexivity. Qed.

Lemma model_componentLoop categoryName searchTerm entries :
  forall results,
    Generic.componentLoop modelEngine categoryName searchTerm entries results =
    componentLoop categoryName searchTerm entries results.
Proof. reflexivity. Qed.

Lemma model_categoryLoop searchTerm registry :
  forall results,
    Generic.categoryLoop modelEngine searchTerm registry results =
    categoryLoop searchTerm registry results.
Proof. reflexivity. Qed.

Lemma model_searchComponents query registry :
  Generic.searchComponents modelEngine query registry = searchComponents query registry.
Proof. reflexivity. Qed.

(** A completed engine answers on every pattern. *)
Lemma completedEngine_total valid : RegExpEngine.total (completedEngine valid).
Proof.
  intros pattern. cbn [completedEngine RegExpEngine.create].
  destruct (RegExp.create pattern); [discriminate|discriminate|].
  destruct (valid pattern); discriminate.
Qed.

(* ================================================================== *)
(** ** Search terms that are no regular expression (C9) *)
(* ================================================================== *)

Section InvalidTerm.

Variable E : RegExpEngine.t.
Variable cwd : Path.t.
Variable searchTerms : list string.

(** The engine answers on every term, and rejects one of them. *)
Hypothesis all_answered :
  Forall (fun t => RegExpEngine.create E t <> Unmodelled) searchTerms.
Hypothesis one_rejected : Exists (RegExpEngine.rejects E) searchTerms.

(** The score loop reaches the term that is rejected, or one before it
    that is rejected too: it throws. *)
Lemma scoreLoop_rejected content :
  forall score, Generic.scoreLoop E content searchTerms score = Throw.
Proof.
  induction one_rejected as [t terms Ht|t terms Hi IH]; intros score.
  - cbn [Generic.scoreLoop]. unfold RegExpEngine.rejects in Ht. now rewrite Ht.
  - cbn [Generic.scoreLoop]. inversion all_answered as [|? ? Hanswer Hall]; subst.
    destruct (RegExpEngine.create E t) eqn:Ht; cbn [bind].
    + now apply IH.
    + reflexivity.
    + now contradiction Hanswer.
Qed.

(** The constructor throws inside [findMatches], whatever the file
    holds. *)
Lemma findMatches_rejected content filePath repo :
  Generic.findMatches E cwd content searchTerms filePath repo = Throw.
Proof.
  unfold Generic.findMatches. now rewrite scoreLoop_rejected.
Qed.

Lemma searchLoop_rejected walk dirPath repo l :
  Forall (fun e => forall p, walk p e = Ok []) l ->
  Generic.searchLoop E cwd walk dirPath repo searchTerms l [] = ([], Ok tt).
Proof.
  induction 1 as [|e l He _ IH]; [reflexivity|].
  cbn [Generic.searchLoop]. rewrite He. cbn [app].
  destruct (descends e); [exact IH|].
  destruct (isFile e && isSearchableFile (name e)); [|exact IH].
  destruct (readEntry e) eqn:Hr; cbn [bind]; try exact IH.
  - now rewrite findMatches_rejected.
  - destruct e as [? [?|]|? ?|?]; discriminate Hr.
Qed.

(** Every file is skipped: the walk finds nothing. *)
Lemma searchInDirectory_rejected repo e :
  forall p, Generic.searchInDirectory E cwd p repo searchTerms e = Ok [].
Proof.
  induction e as [n c|n|n|n l IH] using entry_induction; intros p; try reflexivity.
  cbn [Generic.searchInDirectory].
  now rewrite (searchLoop_rejected _ p repo l IH).
Qed.

Lemma reposLoop_rejected root repos :
  Generic.reposLoop E cwd root repos searchTerms [] = Ok [].
Proof.
  induction repos as [|repo repos IH]; [reflexivity|].
  cbn [Generic.reposLoop].
  destruct (Fs.stat root (Path.join (reposPath cwd) [repo])) as [stats| |] eqn:Hst;
    cbn [bind]; try exact IH.
  - destruct (isDirectory stats); [|exact IH].
    now rewrite searchInDirectory_rejected.
  - unfold Fs.stat in Hst. destruct (Path.components _);
      [|destruct (Fs.lookup _ _)]; discriminate Hst.
Qed.

End InvalidTerm.

(** In the model: among terms of the syntax modelled, one that the
    constructor rejects empties the search. *)
Lemma searchRepositoryDocuments_rejected_in_the_model cwd root query :
  Forall modelled (searchTermsOf query) ->
  Exists (fun t => RegExp.create t = Throw) (searchTermsOf query) ->
  searchRepositoryDocuments cwd root query = Ok [].
Proof.
  intros Hm Hi. rewrite <- model_searchRepositoryDocuments.
  unfold Generic.searchRepositoryDocuments.
  now rewrite (reposLoop_rejected modelEngine cwd (searchTermsOf query) Hm Hi).
Qed.

(** C9. The terms of the query go to the [RegExp] constructor as they
    are. Whatever the engine of regular expressions accepts and rejects,
    provided that it answers on every pattern as the one of the run time
    does: when it rejects one term of the query (as [c++], the lone
    parenthesis and the lone bracket are rejected), the constructor throws
    in [findMatches] for every file, whatever the file holds and whatever
    the other terms are, each throw is caught by the [try] around the file,
    and the search returns the empty list without throwing. *)
Theorem invalid_term_empties_search (E : RegExpEngine.t) (cwd : Path.t)
  (root : list entry) (query : string) :
  RegExpEngine.total E ->
  Exists (RegExpEngine.rejects E) (searchTermsOf query) ->
  (forall content filePath repo,
     Generic.findMatches E cwd content (searchTermsOf query) filePath repo = Throw) /\
  Generic.searchRepositoryDocuments E cwd root query = Ok [] /\
  RegExpEngine.rejects modelEngine "c++" /\ RegExpEngine.rejects modelEngine "(".
Proof.
  intros Htotal Hrejected.
  assert (Hall : Forall (fun t => RegExpEngine.create E t <> Unmodelled)
                   (searchTermsOf query))
    by (apply Forall_forall; intros t _; apply Htotal).
  split; [|split; [|split]].
  - intros. now apply findMatches_rejected.
  - unfold Generic.searchRepositoryDocuments.
    now rewrite (reposLoop_rejected E cwd _ Hall Hrejected).
  - reflexivity.
  - reflexivity.
Qed.

(** [core/notes.txt] holds the text [c++]. On an engine that takes the
    character class [[a-z]] for a regular expression and rejects the lone
    bracket, the unfinished group and the braces out of order, the queries
    [C++], [note (], [[], [(?], [a{2,1}] and [[a-z] c++] find nothing; the
    query [note] finds the file. *)
Lemma invalid_term_empties_search_witness :
  includes (toLowerCase "a c++ note (draft)") "c++" = true /\
  RegExpEngine.create (completedEngine sampleValid) "[a-z]" = Ok None /\
  Forall (fun query =>
            Generic.searchRepositoryDocuments (completedEngine sampleValid)
              Sample.app Sample.plain query = Ok [])
    ["C++"; "note ("; "["; "(?"; "a{2,1}"; "[a-z] c++"] /\
  List.map path
    (match Generic.searchRepositoryDocuments (completedEngine sampleValid)
             Sample.app Sample.plain "note" with
     | Ok l => l
     | _ => []
     end) = ["core/notes.txt"].
Proof.
  split; [reflexivity|]. split; [reflexivity|]. split; [|reflexivity].
  repeat (apply Forall_cons; [|]); [| | | | | |apply Forall_nil].
  - apply (invalid_term_empties_search (completedEngine sampleValid) Sample.app
             Sample.plain "C++" (completedEngine_total sampleValid)).
    apply Exists_cons_hd. reflexivity.
  - apply (invalid_term_empties_search (completedEngine sampleValid) Sample.app
             Sample.plain "note (" (completedEngine_total sampleValid)).
    apply Exists_cons_tl, Exists_cons_hd. reflexivity.
  - apply (invalid_term_empties_search (completedEngine sampleValid) Sample.app
             Sample.plain "[" (completedEngine_total sampleValid)).
    apply Exists_cons_hd. reflexivity.
  - apply (invalid_term_empties_search (completedEngine sampleValid) Sample.app
             Sample.plain "(?" (completedEngine_total sampleValid)).
    apply Exists_cons_hd. reflexivity.
  - apply (invalid_term_empties_search (completedEngine sampleValid) Sample.app
             Sample.plain "a{2,1}" (completedEngine_total sampleValid)).
    apply Exists_cons_hd. reflexivity.
  - apply (invalid_term_empties_search (completedEngine sampleValid) Sample.app
             Sample.plain "[a-z] c++" (completedEngine_total sampleValid)).
    apply Exists_cons_tl, Exists_cons_hd. reflexivity.
Defined.

(* ================================================================== *)
(** ** Paths the document reader opens (C10) *)
(* ================================================================== *)

Lemma split_climb n s :
  split "/" (climb n ++ s) = repeat ".." n ++ split "/" s.
Proof.
  induction n as [|n IH]; [reflexivity|].
  change (climb (S n) ++ s)%string with ("../" ++ (climb n ++ s))%string.
  cbn [repeat app]. rewrite <- IH. reflexivity.
Qed.

Lemma push_segment_climb n :
  forall stack, fold_left Path.push_segment (repeat ".." n) stack = skipn n stack.
Proof.
  induction n as [|n IH]; intros stack; [reflexivity|].
  cbn [repeat fold_left]. rewrite IH.
  change (Path.push_segment stack "..") with (tl stack).
  now destruct stack; [destruct n|].
Qed.

Lemma endsWithSlash_app a c b :
  Path.endsWithSlash (a ++ String c b) = Path.endsWithSlash (String c b).
Proof.
  induction a as [|x a IH]; [reflexivity|].
  cbn [String.append]. rewrite <- IH.
  destruct a; reflexivity.
Qed.

Lemma components_join_one base part :
  Path.push_segment (rev (Path.components base)) part = part :: rev (Path.components base) ->
  Path.nonEmpty part = true -> split "/" part = [part] ->
  Path.components (Path.join base [part]) = Path.components base ++ [part].
Proof.
  intros Hpush Hne Hsplit. unfold Path.join. cbn [filter]. rewrite Hne.
  cbn [flat_map Path.components]. rewrite Hsplit. cbn [app fold_left].
  rewrite Hpush. cbn [rev]. now rewrite rev_involutive.
Qed.

Lemma not_under_repos comps tail :
  isPrefixOf (comps ++ "repos" :: tail) ["etc"; "passwd"] = false.
Proof.
  destruct comps as [|x [|y comps]]; cbn [app isPrefixOf].
  - reflexivity.
  - cbn. apply andb_false_r.
  - destruct comps; cbn [app isPrefixOf]; now rewrite !andb_false_r.
Qed.

Lemma components_reposPath cwd :
  Path.components (reposPath cwd) = Path.components cwd ++ ["repos"].
Proof. apply components_join_one; reflexivity. Qed.

Lemma components_docs cwd :
  Path.components (Path.join (reposPath cwd) ["docs"]) =
  Path.components cwd ++ ["repos"; "docs"].
Proof.
  rewrite components_join_one by reflexivity.
  now rewrite components_reposPath, <- app_assoc.
Qed.

(** Enough [..] segments lead from the repository to the root. *)
Lemma resolveDocument_climb cwd target :
  split "/" target = ["etc"; "passwd"] ->
  Path.endsWithSlash (climb (List.length (Path.components cwd) + 2) ++ target) = false ->
  resolveDocument cwd (climb (List.length (Path.components cwd) + 2) ++ target)
    (Some "docs") =
  {| Path.components := ["etc"; "passwd"]; Path.trailingSlash := false |}.
Proof.
  intros Hsplit Hslash. unfold resolveDocument. cbn [String.eqb Ascii.eqb Bool.eqb].
  revert Hslash. rewrite Nat.add_comm. cbn [Nat.add].
  set (n := S (S (List.length (Path.components cwd)))).
  intros Hslash. unfold Path.join.
  assert (Hne : Path.nonEmpty (climb n ++ target) = true) by reflexivity.
  cbn [filter]. rewrite Hne.
  change (Path.nonEmpty "repos") with true. change (Path.nonEmpty "docs") with true.
  cbn [flat_map rev app]. rewrite split_climb, Hsplit, Hslash.
  change (split "/" "repos") with ["repos"].
  change (split "/" "docs") with ["docs"].
  cbn [app fold_left].
  change (Path.push_segment (rev (Path.components cwd)) "repos")
    with ("repos" :: rev (Path.components cwd)).
  change (Path.push_segment ("repos" :: rev (Path.components cwd)) "docs")
    with ("docs" :: "repos" :: rev (Path.components cwd)).
  rewrite app_nil_r, fold_left_app, push_segment_climb.
  unfold n. cbn [skipn]. rewrite <- length_rev, skipn_all. reflexivity.
Qed.

(** C10. The reader joins the working directory, [repos], the repository
    and the path asked, and opens what comes out. With enough [..] segments
    the path asked leaves the repository and the [repos] directory: from
    any working directory, a path made of [../] once for each component
    down to the repository followed by [etc/passwd] resolves to
    [/etc/passwd], and the page returned ends with the text of that file. *)
Theorem reader_follows_parent_segments (cwd : Path.t) (root : list entry) (text : string) :
  Fs.lookup root ["etc"; "passwd"] = Some (File "passwd" (Some text)) ->
  let docPath := (climb (List.length (Path.components cwd) + 2) ++ "etc/passwd")%string in
  let fullPath := resolveDocument cwd docPath (Some "docs") in
  includes docPath ".." = true /\
  Path.components fullPath = ["etc"; "passwd"] /\
  isUnder (Path.join (reposPath cwd) ["docs"]) fullPath = false /\
  isUnder (reposPath cwd) fullPath = false /\
  readRepositoryDocument cwd root docPath (Some "docs") =
  DocumentPage
    ("# " ++ getDocumentTitle text "passwd" ++ newline ++ newline ++
     "**Path:** `" ++ docPath ++ "`" ++ newline ++
     "**Repository:** docs" ++ newline ++
     "**File:** passwd" ++ newline ++ newline ++
     "---" ++ newline ++ newline ++ text)%string.
Proof.
  intros Hfile docPath fullPath.
  assert (Hfull : fullPath = {| Path.components := ["etc"; "passwd"];
                                Path.trailingSlash := false |}).
  { apply resolveDocument_climb; [reflexivity|apply endsWithSlash_app]. }
  split; [|split; [|split; [|split]]].
  - unfold docPath. rewrite Nat.add_comm. reflexivity.
  - now rewrite Hfull.
  - rewrite Hfull. unfold isUnder. rewrite components_docs. apply not_under_repos.
  - rewrite Hfull. unfold isUnder. rewrite components_reposPath. apply not_under_repos.
  - unfold readRepositoryDocument. fold fullPath. rewrite Hfull.
    unfold Fs.readFile. cbn [Path.trailingSlash Path.components].
    rewrite Hfile. reflexivity.
Qed.

(** From [/app], the path [../../../etc/passwd] in the repository [docs]
    returns the text of [/etc/passwd]. *)
Lemma reader_follows_parent_segments_witness :
  readRepositoryDocument Sample.app Sample.plain "../../../etc/passwd" (Some "docs") =
  DocumentPage
    ("# passwd" ++ Sample.lf ++ Sample.lf ++
     "**Path:** `../../../etc/passwd`" ++ Sample.lf ++
     "**Repository:** docs" ++ Sample.lf ++
     "**File:** passwd" ++ Sample.lf ++ Sample.lf ++
     "---" ++ Sample.lf ++ Sample.lf ++ "root:x:0:0")%string /\
  Path.to_string (resolveDocument Sample.app "../../../etc/passwd" (Some "docs")) =
  "/etc/passwd" /\
  Path.to_string (reposPath Sample.app) = "/app/repos".
Proof.
  destruct (reader_follows_parent_segments Sample.app Sample.plain "root:x:0:0" eq_refl)
    as [_ [_ [_ [_ Hpage]]]].
  split; [exact Hpage|]. split; reflexivity.
Defined.

(* ================================================================== *)
(** ** The length of an excerpt *)
(* ================================================================== *)

Lemma length_append a b :
  String.length (a ++ b) = String.length a + String.length b.
Proof. induction a as [|c a IH]; [reflexivity|]. cbn. now rewrite IH. Qed.

Lemma length_substring_to n :
  forall s, String.length (substring_to n s) = Nat.min n (String.length s).
Proof.
  induction n as [|n IH]; intros [|c s]; cbn; try reflexivity.
  now rewrite IH.
Qed.

(** X1. An excerpt never exceeds 503 characters: a text of more than 500
    characters, highlighting marks included, is cut to its first 500
    characters and three dots are appended. *)
Theorem createExcerpt_bounded (relevantLines : list MatchContext)
  (searchTerms : list string) (text : string) :
  createExcerpt relevantLines searchTerms = Ok text ->
  String.length text <= 500 \/
  (String.length text = 503 /\
   exists body, String.length body = 500 /\ text = (body ++ "...")%string).
Proof.
  unfold createExcerpt. destruct relevantLines as [|bestMatch _].
  - intros [= <-]. left. cbn. lia.
  - destruct (highlight (content bestMatch) searchTerms) as [e| |]; cbn [bind];
      try discriminate.
    destruct (500 <? String.length e) eqn:Hlong.
    + intros H. replace text with (substring_to 500 e ++ "...")%string by congruence.
      clear H. right. apply Nat.ltb_lt in Hlong.
      assert (Hbody : String.length (substring_to 500 e) = 500)
        by (rewrite length_substring_to; lia).
      split.
      * rewrite length_append, Hbody. reflexivity.
      * exists (substring_to 500 e). split; [exact Hbody|reflexivity].
    + intros [= <-]. left. now apply Nat.ltb_ge in Hlong.
Qed.

(** A context of 600 spaces gives an excerpt of 500 spaces and three
    dots. *)
Lemma createExcerpt_bounded_witness :
  String.length (spaces 500 ++ "...") <= 500 \/
  (String.length (spaces 500 ++ "...") = 503 /\
   exists body, String.length body = 500 /\
                (spaces 500 ++ "...")%string = (body ++ "...")%string).
Proof.
  apply (createExcerpt_bounded
           [ {| lineNumber := 1; content := spaces 600; matchLine := spaces 600 |} ]
           ["fee"]).
  vm_compute. reflexivity.
Defined.

(* ================================================================== *)
(** ** Where the results come from *)
(* ================================================================== *)

Section Provenance.

Variable cwd : Path.t.
Variable searchTerms : list string.

(** What [findMatches] returns is empty or one record, whose fields are
    as the function computes them. *)
Lemma findMatches_Ok doc filePath repo l :
  findMatches cwd doc searchTerms filePath repo = Ok l ->
  l = [] \/
  exists n text,
    scoreLoop (toLowerCase doc) searchTerms 0 = Ok n /\ 1 <= n /\
    createExcerpt (relevantLoop (split (ascii_of_nat 10) doc) searchTerms 0
                     (split (ascii_of_nat 10) doc)) searchTerms = Ok text /\
    l = [ {| title := getDocumentTitle doc (Path.basename filePath);
             path := Path.relative (reposPath cwd) filePath;
             repository := repo;
             score := n;
             excerpt := text;
             matchCount :=
               List.length (relevantLoop (split (ascii_of_nat 10) doc) searchTerms 0
                              (split (ascii_of_nat 10) doc)) |} ].
Proof.
  unfold findMatches.
  destruct (scoreLoop (toLowerCase doc) searchTerms 0) as [n| |]; cbn [bind];
    try discriminate.
  destruct (n =? 0) eqn:Hn.
  - intros H. left. congruence.
  - destruct (createExcerpt _ searchTerms) as [text| |] eqn:He; cbn [bind];
      try discriminate.
    intros H. right. exists n, text. apply Nat.eqb_neq in Hn.
    repeat split; [lia|congruence].
Qed.

Lemma findMatches_singleton doc filePath repo l r :
  findMatches cwd doc searchTerms filePath repo = Ok l -> In r l -> l = [r].
Proof.
  intros H Hin. destruct (findMatches_Ok _ _ _ _ H) as [->|(n & text & _ & _ & _ & ->)].
  - destruct Hin.
  - destruct Hin as [<-|[]]. reflexivity.
Qed.

Variable repo : string.

Lemma searchLoop_sound dirPath n l :
  forall entries,
    (forall e, In e entries -> In e l) ->
    Forall (fun e => forall p rs r,
              searchInDirectory cwd p repo searchTerms e = Ok rs -> In r rs ->
              exists names text, comesFrom cwd searchTerms repo p e names text r)
      entries ->
    forall results r,
      In r (fst (searchLoop cwd (walk cwd repo searchTerms) dirPath repo searchTerms
                   entries results)) ->
      In r results \/
      exists names text,
        comesFrom cwd searchTerms repo dirPath (Dir n (Some l)) names text r.
Proof.
  induction entries as [|e entries IH]; intros Hincl Hall results r Hin.
  - now left.
  - assert (Hl : In e l) by (apply Hincl; now left).
    assert (Hincl' : forall x, In x entries -> In x l)
      by (intros x Hx; apply Hincl; now right).
    inversion Hall as [|? ? He Hall']; subst.
    specialize (IH Hincl' Hall').
    cbn [searchLoop] in Hin.
    destruct (descends e) eqn:Hd.
    + destruct (walk cwd repo searchTerms (Path.join dirPath [name e]) e)
        as [sub| |] eqn:Hw; cbn [fst] in Hin; try (now left).
      destruct (IH _ _ Hin) as [Hr|Hr]; [|now right].
      apply in_app_or in Hr. destruct Hr as [Hr|Hr]; [now left|right].
      destruct (He _ _ _ Hw Hr) as (names & text & k & Hwalk & Hs & Hm).
      exists (name e :: names), text, k. repeat split; try assumption.
      now apply walked_deeper.
    + destruct (isFile e && isSearchableFile (name e)) eqn:Hf;
        [|destruct (IH _ _ Hin); [now left|now right]].
      apply andb_prop in Hf. destruct Hf as [_ Hs].
      destruct (readEntry e) as [text| |] eqn:Hr; cbn [bind] in Hin;
        try (destruct (IH _ _ Hin); [now left|now right]).
      * destruct (findMatches cwd text searchTerms (Path.join dirPath [name e]) repo)
          as [matches| |] eqn:Hm; cbn [fst] in Hin;
          try (destruct (IH _ _ Hin); [now left|now right]); try (now left).
        destruct (IH _ _ Hin) as [Hr'|Hr']; [|now right].
        apply in_app_or in Hr'. destruct Hr' as [Hr'|Hr']; [now left|right].
        destruct e as [k [c|]|? ?|?]; try discriminate Hr.
        injection Hr as ->. cbn [name] in *.
        exists [k], text, k. repeat split.
        -- now apply (walked_here n l (File k (Some text))).
        -- exact Hs.
        -- cbn. now rewrite <- (findMatches_singleton _ _ _ _ _ Hm Hr').
      * cbn [fst] in Hin. now left.
Qed.

Lemma searchInDirectory_sound e :
  forall p rs r,
    searchInDirectory cwd p repo searchTerms e = Ok rs -> In r rs ->
    exists names text, comesFrom cwd searchTerms repo p e names text r.
Proof.
  induction e as [n c|n|n|n l IH] using entry_induction; intros p rs r Hs Hin.
  - injection Hs as <-. destruct Hin.
  - injection Hs as <-. destruct Hin.
  - rewrite searchInDirectory_closed in Hs. injection Hs as <-. destruct Hin.
  - rewrite searchInDirectory_Dir in Hs. unfold returnResults in Hs.
    assert (Hfst : rs = fst (searchLoop cwd (walk cwd repo searchTerms) p repo
                               searchTerms l []))
      by (destruct (snd _); congruence).
    rewrite Hfst in Hin.
    destruct (searchLoop_sound p n l l (fun _ H => H) IH [] r Hin) as [[]|H].
    exact H.
Qed.

Lemma searchLoop_complete dirPath :
  forall entries results,
    snd (searchLoop cwd (walk cwd repo searchTerms) dirPath repo searchTerms
           entries results) <> Unmodelled ->
    (forall r, In r results ->
       In r (fst (searchLoop cwd (walk cwd repo searchTerms) dirPath repo searchTerms
                    entries results))) /\
    (forall e, In e entries ->
       (descends e = true ->
        exists rs,
          searchInDirectory cwd (Path.join dirPath [name e]) repo searchTerms e = Ok rs /\
          forall r, In r rs ->
            In r (fst (searchLoop cwd (walk cwd repo searchTerms) dirPath repo
                         searchTerms entries results))) /\
       (forall n text r,
          e = File n (Some text) -> isSearchableFile n = true ->
          findMatches cwd text searchTerms (Path.join dirPath [n]) repo = Ok [r] ->
          In r (fst (searchLoop cwd (walk cwd repo searchTerms) dirPath repo
                       searchTerms entries results)))).
Proof.
  induction entries as [|e entries IH]; intros results Hsnd.
  - split; [now intros|intros e []].
  - cbn [searchLoop] in *.
    destruct (descends e) eqn:Hd.
    + destruct (walk cwd repo searchTerms (Path.join dirPath [name e]) e)
        as [sub| |] eqn:Hw.
      * destruct (IH _ Hsnd) as [Hres Hent]. split.
        -- intros r Hr. apply Hres, in_or_app. now left.
        -- intros x [<-|Hx]; [|now apply Hent]. split.
           ++ intros _. exists sub. split; [exact Hw|].
              intros r Hr. apply Hres, in_or_app. now right.
           ++ intros n text r ->. discriminate Hd.
      * now destruct (searchInDirectory_never_throws cwd repo searchTerms
                        (Path.join dirPath [name e]) e).
      * now destruct Hsnd.
    + destruct (isFile e && isSearchableFile (name e)) eqn:Hf.
      * destruct (readEntry e) as [text| |] eqn:Hr; cbn [bind] in *.
        -- destruct (findMatches cwd text searchTerms (Path.join dirPath [name e]) repo)
             as [matches| |] eqn:Hm.
           ++ destruct (IH _ Hsnd) as [Hres Hent]. split.
              ** intros r Hin. apply Hres, in_or_app. now left.
              ** intros x [<-|Hx]; [|now apply Hent]. split.
                 --- intros Hd'. congruence.
                 --- intros k text' r -> _ Hm'. cbn [readEntry name] in *.
                     injection Hr as <-. rewrite Hm in Hm'. injection Hm' as ->.
                     apply Hres, in_or_app. right. now left.
           ++ destruct (IH _ Hsnd) as [Hres Hent]. split; [exact Hres|].
              intros x [<-|Hx]; [|now apply Hent]. split.
              ** intros Hd'. congruence.
              ** intros k text' r -> _ Hm'. cbn [readEntry name] in *.
                 injection Hr as <-. congruence.
           ++ now destruct Hsnd.
        -- destruct (IH _ Hsnd) as [Hres Hent]. split; [exact Hres|].
           intros x [<-|Hx]; [|now apply Hent]. split.
           ++ intros Hd'. congruence.
           ++ intros k text' r -> _ _. discriminate Hr.
        -- destruct e as [? [?|]|? ?|?]; discriminate Hr.
      * destruct (IH _ Hsnd) as [Hres Hent]. split; [exact Hres|].
        intros x [<-|Hx]; [|now apply Hent]. split.
        -- intros Hd'. congruence.
        -- intros k text' r -> Hs _. cbn [isFile name andb] in Hf. congruence.
Qed.

Lemma searchInDirectory_complete dir names e :
  walked dir names e ->
  forall n text, e = File n (Some text) -> isSearchableFile n = true ->
  forall p rs r,
    searchInDirectory cwd p repo searchTerms dir = Ok rs ->
    findMatches cwd text searchTerms (joinAll p names) repo = Ok [r] ->
    In r rs.
Proof.
  induction 1 as [k l e Hin|k l d names e Hin Hd Hwalk IH];
    intros n text -> Hs p rs r Hdir Hm.
  - rewrite searchInDirectory_Dir in Hdir. unfold returnResults in Hdir.
    destruct (searchLoop_complete p l []) as [_ Hent].
    { intros Hu. now rewrite Hu in Hdir. }
    destruct (Hent _ Hin) as [_ Hfile].
    replace rs with (fst (searchLoop cwd (walk cwd repo searchTerms) p repo
                            searchTerms l []))
      by (destruct (snd _); congruence).
    now apply (Hfile n text r).
  - rewrite searchInDirectory_Dir in Hdir. unfold returnResults in Hdir.
    destruct (searchLoop_complete p l []) as [_ Hent].
    { intros Hu. now rewrite Hu in Hdir. }
    destruct (Hent _ Hin) as [Hsub _].
    destruct (Hsub Hd) as (sub & Hsub' & Hincl).
    replace rs with (fst (searchLoop cwd (walk cwd repo searchTerms) p repo
                            searchTerms l []))
      by (destruct (snd _); congruence).
    apply Hincl. now apply (IH n text eq_refl Hs _ _ _ Hsub').
Qed.

End Provenance.

Section ProvenanceRepositories.

Variable cwd : Path.t.
Variable root : list entry.
Variable searchTerms : list string.

Lemma reposLoop_sound repos :
  forall results l r,
    reposLoop cwd root repos searchTerms results = Ok l -> In r l ->
    In r results \/
    exists repo stats names text,
      In repo repos /\
      Fs.stat root (Path.join (reposPath cwd) [repo]) = Ok stats /\
      comesFrom cwd searchTerms repo (Path.join (reposPath cwd) [repo]) stats
        names text r.
Proof.
  induction repos as [|repo repos IH]; intros results l r Hl Hin.
  - injection Hl as <-. now left.
  - cbn [reposLoop] in Hl.
    assert (Hnext : forall results', reposLoop cwd root repos searchTerms results' = Ok l ->
              (In r results' -> In r results \/
                 exists repo0 stats names text,
                   In repo0 (repo :: repos) /\
                   Fs.stat root (Path.join (reposPath cwd) [repo0]) = Ok stats /\
                   comesFrom cwd searchTerms repo0 (Path.join (reposPath cwd) [repo0])
                     stats names text r) ->
              In r results \/
              exists repo0 stats names text,
                In repo0 (repo :: repos) /\
                Fs.stat root (Path.join (reposPath cwd) [repo0]) = Ok stats /\
                comesFrom cwd searchTerms repo0 (Path.join (reposPath cwd) [repo0])
                  stats names text r).
    { intros results' Hl' Hres. destruct (IH _ _ _ Hl' Hin) as [H|H].
      - now apply Hres.
      - right. destruct H as (repo0 & stats & names & text & Hr & H).
        exists repo0, stats, names, text. split; [now right|exact H]. }
    destruct (Fs.stat root (Path.join (reposPath cwd) [repo])) as [stats| |] eqn:Hst;
      cbn [bind] in Hl.
    + destruct (isDirectory stats).
      * destruct (searchInDirectory cwd (Path.join (reposPath cwd) [repo]) repo
                    searchTerms stats) as [rs| |] eqn:Hs; cbn [bind] in Hl;
          try discriminate.
        -- apply (Hnext _ Hl). intros Hr. apply in_app_or in Hr.
           destruct Hr as [Hr|Hr]; [now left|right].
           destruct (searchInDirectory_sound _ _ _ _ _ _ _ Hs Hr) as (names & text & H).
           exists repo, stats, names, text. split; [now left|]. split; [exact Hst|exact H].
        -- apply (Hnext _ Hl). now left.
      * apply (Hnext _ Hl). now left.
    + apply (Hnext _ Hl). now left.
    + discriminate Hl.
Qed.

Lemma reposLoop_complete repos :
  forall results l,
    reposLoop cwd root repos searchTerms results = Ok l ->
    (forall r, In r results -> In r l) /\
    (forall repo stats,
       In repo repos ->
       Fs.stat root (Path.join (reposPath cwd) [repo]) = Ok stats ->
       isDirectory stats = true ->
       exists rs,
         searchInDirectory cwd (Path.join (reposPath cwd) [repo]) repo searchTerms stats
         = Ok rs /\
         forall r, In r rs -> In r l).
Proof.
  induction repos as [|repo repos IH]; intros results l Hl.
  - injection Hl as <-. split; [now intros|intros ? ? []].
  - cbn [reposLoop] in Hl.
    destruct (Fs.stat root (Path.join (reposPath cwd) [repo])) as [stats| |] eqn:Hst;
      cbn [bind] in Hl.
    + destruct (isDirectory stats) eqn:Hdir.
      * destruct (searchInDirectory cwd (Path.join (reposPath cwd) [repo]) repo
                    searchTerms stats) as [rs| |] eqn:Hs; cbn [bind] in Hl;
          try discriminate.
        -- destruct (IH _ _ Hl) as [Hres Hrepo]. split.
           ++ intros r Hr. apply Hres, in_or_app. now left.
           ++ intros repo0 stats0 [<-|Hin] Hst0 Hdir0; [|now apply Hrepo].
              rewrite Hst in Hst0. injection Hst0 as <-.
              exists rs. split; [exact Hs|].
              intros r Hr. apply Hres, in_or_app. now right.
        -- now destruct (searchInDirectory_never_throws cwd repo searchTerms
                           (Path.join (reposPath cwd) [repo]) stats).
      * destruct (IH _ _ Hl) as [Hres Hrepo]. split; [exact Hres|].
        intros repo0 stats0 [<-|Hin] Hst0 Hdir0; [|now apply Hrepo]. congruence.
    + destruct (IH _ _ Hl) as [Hres Hrepo]. split; [exact Hres|].
      intros repo0 stats0 [<-|Hin] Hst0 Hdir0; [|now apply Hrepo]. congruence.
    + discriminate Hl.
Qed.

End ProvenanceRepositories.

(* ================================================================== *)
(** ** Paths made of valid names *)
(* ================================================================== *)

Lemma includes_slash_cons c s :
  includes (String c s) "/" = Ascii.eqb c "/" || includes s "/".
Proof.
  cbn [includes String.prefix].
  destruct (ascii_dec "/" c) as [<-|Hne].
  - now destruct s.
  - destruct (Ascii.eqb_spec c "/") as [->|_]; [now destruct Hne|reflexivity].
Qed.

Lemma split_nonempty sep s : split sep s <> [].
Proof.
  destruct s as [|c s]; cbn [split]; [discriminate|].
  destruct (Ascii.eqb c sep); [discriminate|].
  destruct (split sep s); discriminate.
Qed.

Lemma split_app sep a b :
  split sep (a ++ String sep b) = split sep a ++ split sep b.
Proof.
  induction a as [|c a IH].
  - cbn. now rewrite Ascii.eqb_refl.
  - cbn [String.append split]. rewrite IH.
    destruct (Ascii.eqb c sep); [reflexivity|].
    destruct (split sep a) as [|piece pieces] eqn:Hs; [|reflexivity].
    now destruct (split_nonempty sep a).
Qed.

Lemma split_valid n : includes n "/" = false -> split "/" n = [n].
Proof.
  induction n as [|c n IH]; [reflexivity|].
  rewrite includes_slash_cons. intros H. apply orb_false_elim in H.
  destruct H as [Hc Hn]. cbn [split]. rewrite Hc, (IH Hn). reflexivity.
Qed.

Lemma endsWithSlash_valid n : includes n "/" = false -> Path.endsWithSlash n = false.
Proof.
  induction n as [|c n IH]; [reflexivity|].
  rewrite includes_slash_cons. intros H. apply orb_false_elim in H.
  destruct H as [Hc Hn]. destruct n as [|d n]; [exact Hc|]. exact (IH Hn).
Qed.

Lemma validName_inv n :
  validName n = true ->
  n <> "" /\ includes n "/" = false /\ n <> "." /\ n <> "..".
Proof.
  unfold validName, Path.nonEmpty. intros H.
  repeat (apply andb_prop in H; destruct H as [H ?]).
  repeat match goal with
         | H : negb _ = true |- _ => apply negb_true_iff in H
         | H : String.eqb _ _ = false |- _ => apply String.eqb_neq in H
         end.
  now repeat split.
Qed.

Lemma push_segment_valid stack n :
  validName n = true -> Path.push_segment stack n = n :: stack.
Proof.
  intros H. destruct (validName_inv _ H) as (H1 & _ & H2 & H3).
  unfold Path.push_segment.
  apply String.eqb_neq in H1, H2, H3. now rewrite H1, H2, H3.
Qed.

Lemma fold_push_valid names :
  forall stack,
    Forall (fun n => validName n = true) names ->
    fold_left Path.push_segment names stack = rev names ++ stack.
Proof.
  induction names as [|n names IH]; intros stack Hall; [reflexivity|].
  inversion Hall; subst. cbn [fold_left rev].
  rewrite push_segment_valid by assumption. rewrite IH by assumption.
  now rewrite <- app_assoc.
Qed.

Lemma join_valid p n :
  validName n = true -> Path.join p [n] = pathOf (Path.components p ++ [n]).
Proof.
  intros H. destruct (validName_inv _ H) as (H1 & H2 & _).
  assert (Hnon : Path.nonEmpty n = true)
    by (unfold Path.nonEmpty; now apply negb_true_iff, String.eqb_neq).
  unfold Path.join, pathOf. cbn [filter]. rewrite Hnon. cbn [flat_map rev app].
  rewrite (split_valid _ H2). cbn [app fold_left].
  rewrite push_segment_valid by assumption.
  cbn [rev]. rewrite rev_involutive, (endsWithSlash_valid _ H2). reflexivity.
Qed.

Lemma joinAll_valid names :
  forall p,
    Forall (fun n => validName n = true) names -> names <> [] ->
    joinAll p names = pathOf (Path.components p ++ names).
Proof.
  induction names as [|n names IH]; intros p Hall Hne; [now destruct Hne|].
  inversion Hall; subst. unfold joinAll. cbn [fold_left].
  rewrite join_valid by assumption.
  destruct names as [|m names]; [reflexivity|].
  fold (joinAll (pathOf (Path.components p ++ [n])) (m :: names)).
  rewrite IH by (assumption || discriminate).
  cbn [pathOf Path.components]. now rewrite <- app_assoc.
Qed.

Lemma strip_common_app a b : Path.strip_common a (a ++ b) = ([], b).
Proof.
  induction a as [|x a IH]; [now destruct b|].
  cbn [Path.strip_common app]. now rewrite String.eqb_refl.
Qed.

Lemma relative_below from through names :
  Path.components from = through ->
  Path.relative from (pathOf (through ++ names)) = String.concat "/" names.
Proof.
  intros <-. unfold Path.relative, pathOf. cbn [Path.components].
  now rewrite strip_common_app.
Qed.

Lemma split_concat names :
  Forall (fun n => validName n = true) names -> names <> [] ->
  split "/" (String.concat "/" names) = names.
Proof.
  induction names as [|n names IH]; intros Hall Hne; [now destruct Hne|].
  inversion Hall as [|? ? Hn Hall']; subst.
  destruct (validName_inv _ Hn) as (_ & Hs & _).
  destruct names as [|m names]; [now apply split_valid|].
  change (String.concat "/" (n :: m :: names))
    with (n ++ String "/" (String.concat "/" (m :: names)))%string.
  rewrite split_app, (split_valid _ Hs), IH by (assumption || discriminate).
  reflexivity.
Qed.

Lemma concat_nonEmpty n names :
  n <> "" -> String.concat "/" (n :: names) <> "".
Proof.
  intros Hn. destruct names as [|m names]; [exact Hn|].
  destruct n as [|c n]; [now destruct Hn|discriminate].
Qed.

Lemma endsWithSlash_concat names :
  Forall (fun n => validName n = true) names -> names <> [] ->
  Path.endsWithSlash (String.concat "/" names) = false.
Proof.
  induction names as [|n names IH]; intros Hall Hne; [now destruct Hne|].
  inversion Hall as [|? ? Hn Hall']; subst.
  destruct (validName_inv _ Hn) as (_ & Hs & _).
  destruct names as [|m names]; [now apply endsWithSlash_valid|].
  change (String.concat "/" (n :: m :: names))
    with (n ++ String "/" (String.concat "/" (m :: names)))%string.
  rewrite endsWithSlash_app.
  specialize (IH Hall' ltac:(discriminate)).
  inversion Hall' as [|? ? Hm _]; subst.
  destruct (validName_inv _ Hm) as (Hm' & _).
  destruct (String.concat "/" (m :: names)) as [|c s] eqn:Hc.
  - now destruct (concat_nonEmpty m names Hm').
  - exact IH.
Qed.

(** The path the reader opens for a path of valid names, without and
    with a repository. *)
Lemma resolveDocument_valid cwd names :
  Forall (fun n => validName n = true) names -> names <> [] ->
  resolveDocument cwd (String.concat "/" names) None =
  pathOf (Path.components cwd ++ "repos" :: names).
Proof.
  intros Hall Hne. unfold resolveDocument, Path.join, pathOf.
  assert (Hnon : Path.nonEmpty (String.concat "/" names) = true).
  { destruct names as [|n names]; [now destruct Hne|].
    inversion Hall as [|? ? Hn _]; subst.
    destruct (validName_inv _ Hn) as (Hn' & _).
    unfold Path.nonEmpty. apply negb_true_iff, String.eqb_neq.
    now apply concat_nonEmpty. }
  cbn [filter]. rewrite Hnon. change (Path.nonEmpty "repos") with true.
  cbn [flat_map rev app]. rewrite split_concat, endsWithSlash_concat by assumption.
  change (split "/" "repos") with ["repos"]. rewrite app_nil_r.
  rewrite (fold_push_valid (["repos"] ++ names)).
  - rewrite rev_app_distr, rev_involutive, rev_involutive. reflexivity.
  - constructor; [reflexivity|assumption].
Qed.

Lemma resolveDocument_valid_repository cwd repo names :
  validName repo = true ->
  Forall (fun n => validName n = true) names -> names <> [] ->
  resolveDocument cwd (String.concat "/" names) (Some repo) =
  pathOf (Path.components cwd ++ "repos" :: repo :: names).
Proof.
  intros Hrepo Hall Hne. unfold resolveDocument.
  destruct (validName_inv _ Hrepo) as (Hr & Hs & _).
  apply String.eqb_neq in Hr. rewrite Hr.
  unfold Path.join, pathOf.
  assert (Hnon : Path.nonEmpty (String.concat "/" names) = true).
  { destruct names as [|n names]; [now destruct Hne|].
    inversion Hall as [|? ? Hn _]; subst.
    destruct (validName_inv _ Hn) as (Hn' & _).
    unfold Path.nonEmpty. apply negb_true_iff, String.eqb_neq.
    now apply concat_nonEmpty. }
  assert (Hnon' : Path.nonEmpty repo = true)
    by (unfold Path.nonEmpty; now rewrite Hr).
  cbn [filter]. rewrite Hnon, Hnon'. change (Path.nonEmpty "repos") with true.
  cbn [flat_map rev app]. rewrite split_concat, endsWithSlash_concat by assumption.
  change (split "/" "repos") with ["repos"]. rewrite (split_valid _ Hs), app_nil_r.
  rewrite (fold_push_valid (["repos"] ++ [repo] ++ names)).
  - rewrite !rev_app_distr, !rev_involutive. cbn [rev app].
    rewrite <- ?app_assoc. reflexivity.
  - constructor; [reflexivity|]. constructor; assumption.
Qed.

(* ================================================================== *)
(** ** Looking up what the walk reaches *)
(* ================================================================== *)

Lemma find_unique l e :
  uniqueNames (List.map name l) = true -> In e l ->
  find (fun x => String.eqb (name x) (name e)) l = Some e.
Proof.
  induction l as [|a l IH]; intros Hu Hin; [destruct Hin|].
  cbn [List.map uniqueNames] in Hu. apply andb_prop in Hu. destruct Hu as [Ha Hu].
  cbn [find]. destruct Hin as [->|Hin].
  - now rewrite String.eqb_refl.
  - destruct (String.eqb_spec (name a) (name e)) as [Heq|_]; [|now apply IH].
    apply negb_true_iff in Ha. unfold array_includes in Ha.
    assert (Hex : existsb (String.eqb (name a)) (List.map name l) = true).
    { apply existsb_exists. exists (name e). split.
      - now apply in_map.
      - now apply String.eqb_eq. }
    congruence.
Qed.

Lemma wellFormed_Dir n l :
  wellFormed (Dir n (Some l)) = true ->
  uniqueNames (List.map name l) = true /\
  forall e, In e l -> wellFormed e = true.
Proof.
  cbn [wellFormed]. intros H.
  apply andb_prop in H. destruct H as [_ H].
  apply andb_prop in H. destruct H as [Hu Hall].
  split; [exact Hu|]. now apply forallb_forall.
Qed.

Lemma wellFormed_name e : wellFormed e = true -> validName (name e) = true.
Proof.
  destruct e as [n c|n [l|]|n]; cbn [wellFormed name]; intros H;
    apply andb_prop in H; tauto.
Qed.

Lemma walked_lookup dir names e :
  walked dir names e -> wellFormed dir = true ->
  (exists k l, dir = Dir k (Some l) /\ Fs.lookup l names = Some e) /\
  Forall (fun n => validName n = true) names /\ names <> [] /\
  last names "" = name e.
Proof.
  induction 1 as [k l e Hin|k l d names e Hin Hd Hwalk IH]; intros Hwf;
    destruct (wellFormed_Dir _ _ Hwf) as [Hu Hall].
  - split; [|split; [|split]].
    + exists k, l. split; [reflexivity|].
      cbn [Fs.lookup]. now rewrite (find_unique _ _ Hu Hin).
    + constructor; [|constructor]. apply wellFormed_name. now apply Hall.
    + discriminate.
    + reflexivity.
  - destruct (IH (Hall _ Hin)) as ((k' & l' & -> & Hlook) & Hvalid & Hne & Hlast).
    split; [|split; [|split]].
    + exists k, l. split; [reflexivity|].
      cbn [Fs.lookup]. rewrite (find_unique _ _ Hu Hin).
      destruct names as [|m names]; [now destruct Hne|exact Hlook].
    + constructor; [|exact Hvalid]. apply wellFormed_name. now apply Hall.
    + discriminate.
    + destruct names as [|m names]; [now destruct Hne|exact Hlast].
Qed.

Lemma lookup_app through :
  forall listing k sub names,
    Fs.lookup listing through = Some (Dir k (Some sub)) -> names <> [] ->
    Fs.lookup listing (through ++ names) = Fs.lookup sub names.
Proof.
  induction through as [|c through IH]; intros listing k sub names Hl Hne;
    [discriminate Hl|].
  cbn [app Fs.lookup] in *.
  destruct (find (fun e => String.eqb (name e) c) listing) as [e|]; [|discriminate].
  destruct through as [|c' through].
  - injection Hl as ->. cbn [app].
    destruct names as [|m names]; [now destruct Hne|reflexivity].
  - cbn [app]. destruct e as [?|? [l|]|?]; try discriminate.
    now apply (IH l k sub names).
Qed.

Lemma lookup_wellFormed comps :
  forall listing e,
    forallb wellFormed listing = true -> Fs.lookup listing comps = Some e ->
    wellFormed e = true.
Proof.
  induction comps as [|c comps IH]; intros listing e Hall Hl; [discriminate Hl|].
  cbn [Fs.lookup] in Hl.
  destruct (find (fun e => String.eqb (name e) c) listing) as [x|] eqn:Hf;
    [|discriminate].
  apply find_some in Hf. destruct Hf as [Hin _].
  assert (Hx : wellFormed x = true)
    by (apply (proj1 (forallb_forall wellFormed listing) Hall), Hin).
  destruct comps as [|c' comps]; [congruence|].
  destruct x as [?|k [l|]|?]; try discriminate.
  apply (IH l e); [|exact Hl].
  apply forallb_forall. now apply wellFormed_Dir with (n := k).
Qed.

Lemma stat_lookup root p e :
  Path.components p <> [] -> Fs.stat root p = Ok e ->
  Fs.lookup root (Path.components p) = Some e.
Proof.
  unfold Fs.stat. destruct (Path.components p) as [|c comps]; [now intros []|].
  intros _. destruct (Fs.lookup root (c :: comps)); congruence.
Qed.

Lemma repositories_valid repo : In repo repositories -> validName repo = true.
Proof.
  revert repo. apply Forall_forall. repeat constructor.
Qed.

Lemma repository_path cwd repo :
  validName repo = true ->
  Path.join (reposPath cwd) [repo] = pathOf (Path.components cwd ++ ["repos"; repo]).
Proof.
  intros H. rewrite join_valid by assumption. unfold reposPath.
  rewrite join_valid by reflexivity. cbn [pathOf Path.components].
  now rewrite <- app_assoc.
Qed.

Lemma descends_allowed e : descends e = true -> allowedDirectory (name e) = true.
Proof.
  unfold descends, allowedDirectory, array_includes, excludedNames. cbn [existsb].
  intros H. repeat (apply andb_prop in H; destruct H as [H ?]).
  repeat match goal with
         | H : negb _ = true |- _ => apply negb_true_iff in H; rewrite H
         end.
  reflexivity.
Qed.

Lemma walked_directories dir names e :
  walked dir names e -> Forall (fun d => allowedDirectory d = true) (removelast names).
Proof.
  induction 1 as [k l e Hin|k l d names e Hin Hd Hwalk IH].
  - constructor.
  - cbn [removelast]. destruct names as [|m names]; [inversion Hwalk|].
    constructor; [now apply descends_allowed|exact IH].
Qed.

(** In a well-formed tree, a result names the file it comes from: its
    path is the repository and the names down to the file, joined by
    separators, and the file is found there. *)
Lemma search_result_location cwd root searchTerms l r :
  wellFormedListing root = true ->
  reposLoop cwd root repositories searchTerms [] = Ok l -> In r l ->
  exists repo names n text,
    In repo repositories /\
    Forall (fun x => validName x = true) names /\ names <> [] /\
    Fs.lookup root (Path.components cwd ++ "repos" :: repo :: names) =
    Some (File n (Some text)) /\
    last names "" = n /\
    findMatches cwd text searchTerms
      (pathOf (Path.components cwd ++ "repos" :: repo :: names)) repo = Ok [r] /\
    Forall (fun d => allowedDirectory d = true) (removelast names) /\
    isSearchableFile n = true.
Proof.
  intros Hwf Hl Hin. unfold wellFormedListing in Hwf.
  apply andb_prop in Hwf. destruct Hwf as [_ Hwf].
  destruct (reposLoop_sound _ _ _ _ _ _ _ Hl Hin)
    as [[]|(repo & stats & names & text & Hrepo & Hst & n & Hwalk & Hsearchable & Hm)].
  pose proof (walked_directories _ _ _ Hwalk) as Hdirs.
  pose proof (repositories_valid _ Hrepo) as Hvalid.
  rewrite repository_path in Hst, Hm by assumption.
  apply stat_lookup in Hst; [|cbn [pathOf Path.components]; now destruct (Path.components cwd)].
  cbn [pathOf Path.components] in Hst.
  pose proof (lookup_wellFormed _ _ _ Hwf Hst) as Hstats.
  destruct (walked_lookup _ _ _ Hwalk Hstats)
    as ((k & sub & -> & Hlook) & Hnames & Hne & Hlast).
  exists repo, names, n, text. repeat split; try assumption.
  - rewrite <- Hlook.
    change (Path.components cwd ++ "repos" :: repo :: names)
      with (Path.components cwd ++ ["repos"; repo] ++ names).
    rewrite app_assoc. now apply lookup_app with (k := k).
  - rewrite joinAll_valid in Hm by assumption.
    cbn [pathOf Path.components] in Hm. now rewrite <- app_assoc in Hm.
Qed.

Lemma findMatches_fields cwd doc searchTerms filePath repo r :
  findMatches cwd doc searchTerms filePath repo = Ok [r] ->
  title r = getDocumentTitle doc (Path.basename filePath) /\
  path r = Path.relative (reposPath cwd) filePath /\
  repository r = repo /\
  1 <= score r /\
  scoreLoop (toLowerCase doc) searchTerms 0 = Ok (score r) /\
  createExcerpt (relevantLoop (split (ascii_of_nat 10) doc) searchTerms 0
                   (split (ascii_of_nat 10) doc)) searchTerms = Ok (excerpt r).
Proof.
  intros H. destruct (findMatches_Ok _ _ _ _ _ _ H) as [Hnil|(n & text & Hs & Hn & He & Hr)];
    [discriminate Hnil|].
  injection Hr as ->. cbn [title path repository score excerpt]. now repeat split.
Qed.

Lemma createExcerpt_length relevantLines searchTerms text :
  createExcerpt relevantLines searchTerms = Ok text -> String.length text <= 503.
Proof.
  unfold createExcerpt. destruct relevantLines as [|bestMatch _].
  - intros H. replace text with EmptyString by congruence. cbn. lia.
  - destruct (highlight (content bestMatch) searchTerms) as [e| |]; cbn [bind];
      try discriminate.
    destruct (500 <? String.length e) eqn:Hlong; intros H.
    + replace text with (substring_to 500 e ++ "...")%string by congruence.
      rewrite length_append, length_substring_to.
      change (String.length "...") with 3. lia.
    + replace text with e by congruence. apply Nat.ltb_ge in Hlong. lia.
Qed.

(* ================================================================== *)
(** ** What the search returns, and what it leaves out *)
(* ================================================================== *)

(** X2. Every result of a search was built by [findMatches] from the
    text of a file that can be read, that the classifier accepts, and
    that lies in one of the nine repositories, below directories the
    walk descends into only. *)
Theorem search_results_come_from_files (cwd : Path.t) (root : list entry)
  (query : string) (l : list SearchResult) (r : SearchResult) :
  searchRepositoryDocuments cwd root query = Ok l -> In r l ->
  exists repo stats names text,
    In repo repositories /\
    Fs.stat root (Path.join (reposPath cwd) [repo]) = Ok stats /\
    comesFrom cwd (searchTermsOf query) repo (Path.join (reposPath cwd) [repo])
      stats names text r.
Proof.
  unfold searchRepositoryDocuments. intros Hs Hin.
  destruct (reposLoop cwd root repositories (searchTermsOf query) [])
    as [encountered| |] eqn:Hl; cbn [bind] in Hs; try discriminate.
  assert (Hsort : l = Array_sort byScore encountered) by congruence.
  rewrite Hsort in Hin.
  apply (Permutation_in _ (Permutation_sym (Array_sort_perm encountered))) in Hin.
  destruct (reposLoop_sound _ _ _ _ _ _ _ Hl Hin) as [[]|H]. exact H.
Qed.

(** The first result of the query [fee] comes from the file [fees.md] of
    the repository [docs]. *)
Lemma search_results_come_from_files_witness :
  exists r,
    path r = "docs/fees.md" /\
    exists repo stats names text,
      In repo repositories /\
      Fs.stat Sample.plain (Path.join (reposPath Sample.app) [repo]) = Ok stats /\
      comesFrom Sample.app (searchTermsOf "fee") repo
        (Path.join (reposPath Sample.app) [repo]) stats names text r.
Proof.
  destruct (searchRepositoryDocuments Sample.app Sample.plain "fee") as [l| |] eqn:Hs;
    [|vm_compute in Hs; discriminate Hs..].
  destruct l as [|r l]; [vm_compute in Hs; discriminate Hs|].
  exists r. split.
  - vm_compute in Hs. injection Hs as <- _. reflexivity.
  - apply (search_results_come_from_files _ _ _ _ r Hs). now left.
Defined.

(** X3. The search leaves no document out: a readable file the
    classifier accepts, reached from the root of a repository through
    directories the walk descends into, is among the results whenever
    [findMatches] builds a result from its text. *)
Theorem search_finds_every_document (cwd : Path.t) (root : list entry)
  (query repo : string) (stats : entry) (names : list string) (n text : string)
  (r : SearchResult) :
  In repo repositories ->
  Fs.stat root (Path.join (reposPath cwd) [repo]) = Ok stats ->
  walked stats names (File n (Some text)) ->
  isSearchableFile n = true ->
  findMatches cwd text (searchTermsOf query)
    (joinAll (Path.join (reposPath cwd) [repo]) names) repo = Ok [r] ->
  exists l, searchRepositoryDocuments cwd root query = Ok l /\ In r l.
Proof.
  intros Hrepo Hst Hwalk Hsearchable Hm.
  assert (Hterms : Forall modelled (searchTermsOf query)).
  { destruct (findMatches_fields _ _ _ _ _ _ Hm) as (_ & _ & _ & _ & Hscore & _).
    apply scoreLoop_Ok in Hscore. revert Hscore. apply Forall_impl.
    intros t [re Hre]. unfold modelled. congruence. }
  destruct (searchRepositoryDocuments_returns cwd root query Hterms) as [l Hl].
  exists l. split; [exact Hl|].
  unfold searchRepositoryDocuments in Hl.
  destruct (reposLoop cwd root repositories (searchTermsOf query) [])
    as [encountered| |] eqn:Hloop; cbn [bind] in Hl; try discriminate.
  replace l with (Array_sort byScore encountered) by congruence.
  apply (Permutation_in _ (Array_sort_perm encountered)).
  destruct (reposLoop_complete _ _ _ _ _ _ Hloop) as [_ Hall].
  assert (Hdir : isDirectory stats = true) by (now destruct Hwalk).
  destruct (Hall repo stats Hrepo Hst Hdir) as (rs & Hrs & Hincl).
  apply Hincl.
  now apply (searchInDirectory_complete cwd (searchTermsOf query) repo stats names
               (File n (Some text)) Hwalk n text eq_refl Hsearchable _ _ _ Hrs).
Qed.

(** The file [docs/a.md] of the repository [docs] holds the term
    [flow]: it is found. *)
Lemma search_finds_every_document_witness :
  exists r l,
    path r = "docs/docs/a.md" /\
    searchRepositoryDocuments Sample.app Sample.plain "flow" = Ok l /\ In r l.
Proof.
  destruct (findMatches Sample.app Sample.intro (searchTermsOf "flow")
              (joinAll (Path.join (reposPath Sample.app) ["docs"]) ["docs"; "a.md"])
              "docs") as [ms| |] eqn:Hm;
    [|vm_compute in Hm; discriminate Hm..].
  destruct ms as [|r [|r' ms]];
    [vm_compute in Hm; discriminate Hm| |vm_compute in Hm; discriminate Hm].
  destruct (search_finds_every_document Sample.app Sample.plain "flow" "docs"
              (Dir "docs" (Some Sample.docsPlain)) ["docs"; "a.md"] "a.md"
              Sample.intro r) as [l Hl].
  - now left.
  - reflexivity.
  - apply (walked_deeper "docs" Sample.docsPlain
             (Dir "docs" (Some [File "a.md" (Some Sample.intro)])) ["a.md"]).
    + now left.
    + reflexivity.
    + apply (walked_here "docs" [File "a.md" (Some Sample.intro)]
               (File "a.md" (Some Sample.intro))). now left.
  - reflexivity.
  - exact Hm.
  - exists r, l. split; [|exact Hl].
    vm_compute in Hm. injection Hm as <-. reflexivity.
Defined.

(** X4. No result has the score zero, the repository of a result is one
    of the nine that are searched, and its excerpt has at most 503
    characters. *)
Theorem search_result_fields (cwd : Path.t) (root : list entry) (query : string)
  (l : list SearchResult) (r : SearchResult) :
  searchRepositoryDocuments cwd root query = Ok l -> In r l ->
  1 <= score r /\ In (repository r) repositories /\
  String.length (excerpt r) <= 503.
Proof.
  unfold searchRepositoryDocuments. intros Hs Hin.
  destruct (reposLoop cwd root repositories (searchTermsOf query) [])
    as [encountered| |] eqn:Hl; cbn [bind] in Hs; try discriminate.
  assert (Hsort : l = Array_sort byScore encountered) by congruence.
  rewrite Hsort in Hin.
  apply (Permutation_in _ (Permutation_sym (Array_sort_perm encountered))) in Hin.
  destruct (reposLoop_sound _ _ _ _ _ _ _ Hl Hin)
    as [[]|(repo & stats & names & text & Hrepo & _ & n & _ & _ & Hm)].
  destruct (findMatches_fields _ _ _ _ _ _ Hm) as (_ & _ & Hr & Hscore & _ & He).
  split; [exact Hscore|]. split; [now rewrite Hr|].
  exact (createExcerpt_length _ _ _ He).
Qed.

Lemma search_result_fields_witness :
  exists r,
    path r = "docs/fees.md" /\
    1 <= score r /\ In (repository r) repositories /\
    String.length (excerpt r) <= 503.
Proof.
  destruct (searchRepositoryDocuments Sample.app Sample.plain "fee") as [l| |] eqn:Hs;
    [|vm_compute in Hs; discriminate Hs..].
  destruct l as [|r l]; [vm_compute in Hs; discriminate Hs|].
  exists r. split.
  - vm_compute in Hs. injection Hs as <- _. reflexivity.
  - apply (search_result_fields _ _ _ _ r Hs). now left.
Defined.

(* ================================================================== *)
(** ** From a result to the document *)
(* ================================================================== *)

Lemma searchRepositoryDocuments_location cwd root query l r :
  wellFormedListing root = true ->
  searchRepositoryDocuments cwd root query = Ok l -> In r l ->
  exists names n text,
    Forall (fun x => validName x = true) (repository r :: names) /\ names <> [] /\
    Fs.lookup root (Path.components cwd ++ "repos" :: repository r :: names) =
    Some (File n (Some text)) /\
    last names "" = n /\
    path r = String.concat "/" (repository r :: names) /\
    findMatches cwd text (searchTermsOf query)
      (pathOf (Path.components cwd ++ "repos" :: repository r :: names))
      (repository r) = Ok [r] /\
    Forall (fun d => allowedDirectory d = true) (removelast names) /\
    isSearchableFile n = true.
Proof.
  unfold searchRepositoryDocuments. intros Hwf Hs Hin.
  destruct (reposLoop cwd root repositories (searchTermsOf query) [])
    as [encountered| |] eqn:Hl; cbn [bind] in Hs; try discriminate.
  assert (Hsort : l = Array_sort byScore encountered) by congruence.
  rewrite Hsort in Hin.
  apply (Permutation_in _ (Permutation_sym (Array_sort_perm encountered))) in Hin.
  destruct (search_result_location _ _ _ _ _ Hwf Hl Hin)
    as (repo & names & n & text & Hrepo & Hnames & Hne & Hlook & Hlast & Hm & Hdirs & Hfile).
  destruct (findMatches_fields _ _ _ _ _ _ Hm) as (_ & Hpath & Hr & _).
  rewrite Hr. exists names, n, text. repeat split; try assumption.
  - constructor; [now apply repositories_valid|assumption].
  - rewrite Hpath.
    change (Path.components cwd ++ "repos" :: repo :: names)
      with (Path.components cwd ++ ["repos"] ++ repo :: names).
    rewrite app_assoc. apply relative_below. apply components_reposPath.
Qed.

(** X5. In a well-formed tree, the path of a result leads the reader
    back to the document: called with that path and no repository, the
    reader returns the page of the file the result was built from, under
    the same title. *)
Theorem search_result_opens (cwd : Path.t) (root : list entry) (query : string)
  (l : list SearchResult) (r : SearchResult) :
  wellFormedListing root = true ->
  searchRepositoryDocuments cwd root query = Ok l -> In r l ->
  exists fileName text,
    readRepositoryDocument cwd root (path r) None =
    DocumentPage
      ("# " ++ title r ++ newline ++ newline ++
       "**Path:** `" ++ path r ++ "`" ++ newline ++
       "**Repository:** auto-detected" ++ newline ++
       "**File:** " ++ fileName ++ newline ++ newline ++
       "---" ++ newline ++ newline ++ text)%string /\
    findMatches cwd text (searchTermsOf query) (resolveDocument cwd (path r) None)
      (repository r) = Ok [r].
Proof.
  intros Hwf Hs Hin.
  destruct (searchRepositoryDocuments_location _ _ _ _ _ Hwf Hs Hin)
    as (names & n & text & Hvalid & Hne & Hlook & Hlast & Hpath & Hm & _ & _).
  assert (Hopen : resolveDocument cwd (path r) None =
                  pathOf (Path.components cwd ++ "repos" :: repository r :: names)).
  { rewrite Hpath. apply resolveDocument_valid; [assumption|discriminate]. }
  exists (Path.basename (resolveDocument cwd (path r) None)), text. split.
  - destruct (findMatches_fields _ _ _ _ _ _ Hm) as (Htitle & _).
    unfold readRepositoryDocument. rewrite Hopen.
    unfold Fs.readFile. cbn [pathOf Path.trailingSlash Path.components].
    rewrite Hlook. cbn [orElse]. now rewrite Htitle.
  - now rewrite Hopen.
Qed.

(** The first result of the query [fee] opens as [fees.md]. *)
Lemma search_result_opens_witness :
  exists r fileName text,
    path r = "docs/fees.md" /\
    readRepositoryDocument Sample.app Sample.plain (path r) None =
    DocumentPage
      ("# " ++ title r ++ newline ++ newline ++
       "**Path:** `" ++ path r ++ "`" ++ newline ++
       "**Repository:** auto-detected" ++ newline ++
       "**File:** " ++ fileName ++ newline ++ newline ++
       "---" ++ newline ++ newline ++ text)%string /\
    findMatches Sample.app text (searchTermsOf "fee")
      (resolveDocument Sample.app (path r) None) (repository r) = Ok [r].
Proof.
  destruct (searchRepositoryDocuments Sample.app Sample.plain "fee") as [l| |] eqn:Hs;
    [|vm_compute in Hs; discriminate Hs..].
  destruct l as [|r l]; [vm_compute in Hs; discriminate Hs|].
  destruct (search_result_opens Sample.app Sample.plain "fee" (r :: l) r eq_refl Hs
              (or_introl eq_refl)) as (fileName & text & H).
  exists r, fileName, text. split; [|exact H].
  vm_compute in Hs. injection Hs as <- _. reflexivity.
Defined.

(** X6. The path of a result begins with the name of its repository.
    The reader therefore finds the document when it is given the path
    alone; given the path and the repository of the result, it looks one
    level too deep, below a directory of the repository that bears the
    name of the repository, and answers the error page when there is no
    such document. *)
Theorem search_result_path_names_repository (cwd : Path.t) (root : list entry)
  (query : string) (l : list SearchResult) (r : SearchResult) :
  wellFormedListing root = true ->
  searchRepositoryDocuments cwd root query = Ok l -> In r l ->
  exists names,
    path r = String.concat "/" (repository r :: names) /\
    resolveDocument cwd (path r) None =
    pathOf (Path.components cwd ++ "repos" :: repository r :: names) /\
    resolveDocument cwd (path r) (Some (repository r)) =
    pathOf (Path.components cwd ++ "repos" :: repository r :: repository r :: names) /\
    (Fs.lookup root
       (Path.components cwd ++ "repos" :: repository r :: repository r :: names) = None ->
     readRepositoryDocument cwd root (path r) (Some (repository r)) =
     ReadErrorPage (path r) (repository r)).
Proof.
  intros Hwf Hs Hin.
  destruct (searchRepositoryDocuments_location _ _ _ _ _ Hwf Hs Hin)
    as (names & n & text & Hvalid & Hne & Hlook & Hlast & Hpath & Hm & _ & _).
  assert (Hrepo : validName (repository r) = true) by (now inversion Hvalid).
  assert (Hdeep : resolveDocument cwd (path r) (Some (repository r)) =
                  pathOf (Path.components cwd ++
                          "repos" :: repository r :: repository r :: names)).
  { rewrite Hpath at 1.
    apply resolveDocument_valid_repository; [assumption..|discriminate]. }
  exists names. split; [exact Hpath|]. split; [|split; [exact Hdeep|]].
  - rewrite Hpath at 1. apply resolveDocument_valid; [assumption|discriminate].
  - intros Hnone. unfold readRepositoryDocument. rewrite Hdeep.
    unfold Fs.readFile. cbn [pathOf Path.trailingSlash Path.components].
    rewrite Hnone. unfold orElse.
    destruct (validName_inv _ Hrepo) as (Hr & _).
    apply String.eqb_neq in Hr. now rewrite Hr.
Qed.

(** The result [docs/fees.md] of the repository [docs]: with the
    repository, the reader looks for [/app/repos/docs/docs/fees.md], which
    does not exist. *)
Lemma search_result_path_names_repository_witness :
  exists r,
    path r = "docs/fees.md" /\ repository r = "docs" /\
    Path.to_string (resolveDocument Sample.app (path r) (Some (repository r))) =
    "/app/repos/docs/docs/fees.md" /\
    readRepositoryDocument Sample.app Sample.plain (path r) (Some (repository r)) =
    ReadErrorPage "docs/fees.md" "docs".
Proof.
  destruct (searchRepositoryDocuments Sample.app Sample.plain "fee") as [l| |] eqn:Hs;
    [|vm_compute in Hs; discriminate Hs..].
  destruct l as [|r l]; [vm_compute in Hs; discriminate Hs|].
  destruct (search_result_path_names_repository Sample.app Sample.plain "fee"
              (r :: l) r eq_refl Hs (or_introl eq_refl))
    as (names & Hpath & _ & Hdeep & Herr).
  assert (Hr : r = {| title := "fees"; path := "docs/fees.md"; repository := "docs";
                      score := 3; excerpt := "**fee** **fee**, **Fee**";
                      matchCount := 1 |})
    by (vm_compute in Hs; now injection Hs as <- _).
  exists r. rewrite Hr in *. cbn [path repository] in *.
  split; [reflexivity|]. split; [reflexivity|]. split; [reflexivity|].
  apply Herr.
  assert (Hnames : names = ["fees.md"]).
  { apply (f_equal Path.components) in Hdeep. vm_compute in Hdeep.
    now injection Hdeep as <-. }
  rewrite Hnames. reflexivity.
Defined.

(* ================================================================== *)
(** ** The page of the search tool *)
(* ================================================================== *)

Lemma append_assoc a b c : ((a ++ b) ++ c = a ++ (b ++ c))%string.
Proof. induction a as [|x a IH]; [reflexivity|]. cbn. now rewrite IH. Qed.

Lemma append_empty_r a : (a ++ "")%string = a.
Proof. induction a as [|x a IH]; [reflexivity|]. cbn. now rewrite IH. Qed.

Lemma appendResult_section response result :
  appendResult response result = (response ++ resultSection result)%string.
Proof.
  unfold appendResult, resultSection. now rewrite !append_assoc.
Qed.

Lemma fold_appendResult results :
  forall response,
    fold_left appendResult results response =
    (response ++ String.concat "" (List.map resultSection results))%string.
Proof.
  induction results as [|r results IH]; intros response.
  - cbn. now rewrite append_empty_r.
  - cbn [fold_left List.map]. rewrite IH, appendResult_section, append_assoc.
    destruct results as [|r' results]; [|reflexivity].
    cbn. now rewrite append_empty_r.
Qed.

Lemma skipn_In {A : Type} n :
  forall (l : list A) x, In x (skipn n l) -> In x l.
Proof.
  induction n as [|n IH]; intros l x Hx; [exact Hx|].
  destruct l as [|y l]; [destruct Hx|]. right. now apply IH.
Qed.

Lemma sorted_firstn_skipn n l :
  StronglySorted ranksBefore l ->
  forall a b, In a (firstn n l) -> In b (skipn n l) -> score b <= score a.
Proof.
  intros Hsorted. revert n.
  induction Hsorted as [|x l Hsorted IH Hx]; intros n a b Ha Hb.
  - now destruct n.
  - destruct n as [|n]; [destruct Ha|].
    cbn [firstn skipn] in Ha, Hb. destruct Ha as [<-|Ha].
    + rewrite Forall_forall in Hx. apply Hx. now apply (skipn_In n).
    + now apply (IH n).
Qed.

Lemma searchRepositoryDocuments_sorted cwd root query l :
  searchRepositoryDocuments cwd root query = Ok l -> StronglySorted ranksBefore l.
Proof.
  unfold searchRepositoryDocuments.
  destruct (reposLoop cwd root repositories (searchTermsOf query) [])
    as [encountered| |]; cbn [bind]; try discriminate.
  intros H. replace l with (Array_sort byScore encountered) by congruence.
  apply Array_sort_sorted.
Qed.

Lemma searchRepositoryDocuments_never_throws cwd root query :
  searchRepositoryDocuments cwd root query <> Throw.
Proof.
  unfold searchRepositoryDocuments.
  destruct (reposLoop cwd root repositories (searchTermsOf query) [])
    as [encountered| |] eqn:Hl; cbn [bind]; try discriminate.
  now destruct (reposLoop_never_throws cwd root (searchTermsOf query) repositories []).
Qed.

(** X7. The page of the search tool shows the best results: the results
    shown are the first ten of the ranked list, in its order (all of them
    when there are at most ten), no result left out scores more than a
    result shown, and the line about the top ten is there exactly when
    some are left out. Without results the page says that nothing was
    found. *)
Theorem repositorySearch_shows_best_ten (cwd : Path.t) (root : list entry)
  (query : string) (answer : searchResponse) :
  repositorySearch cwd root (Some (QueryString query)) = Ok answer ->
  exists shown hidden,
    searchRepositoryDocuments cwd root query = Ok (shown ++ hidden) /\
    List.length shown = Nat.min 10 (List.length (shown ++ hidden)) /\
    (forall a b, In a shown -> In b hidden -> score b <= score a) /\
    answer =
    SearchPage
      (match shown with
       | [] => noMatchesPage query
       | _ :: _ =>
           resultsHeader query (List.length (shown ++ hidden)) ++
           String.concat "" (List.map resultSection shown) ++
           match hidden with
           | [] => ""
           | _ :: _ => topTenNotice (List.length (shown ++ hidden))
           end
       end)%string.
Proof.
  unfold repositorySearch.
  destruct (searchRepositoryDocuments cwd root query) as [results| |] eqn:Hs;
    [|now destruct (searchRepositoryDocuments_never_throws cwd root query)|discriminate].
  intros H. exists (firstn 10 results), (skipn 10 results).
  rewrite firstn_skipn. split; [reflexivity|]. split; [apply length_firstn|].
  split; [apply sorted_firstn_skipn; now apply searchRepositoryDocuments_sorted with (1 := Hs)|].
  destruct results as [|r results].
  - cbn [List.length Nat.eqb] in H. cbn [firstn]. congruence.
  - cbn [List.length Nat.eqb] in H.
    unfold slice in H. rewrite Nat.sub_0_r in H. cbn [skipn] in H.
    rewrite fold_appendResult in H.
    assert (Hnotice :
      (if 10 <? List.length (r :: results)
       then topTenNotice (List.length (r :: results)) else "") =
      match skipn 10 (r :: results) with
      | [] => ""
      | _ :: _ => topTenNotice (List.length (r :: results))
      end).
    { destruct (10 <? List.length (r :: results)) eqn:Hlen.
      - apply Nat.ltb_lt in Hlen.
        destruct (skipn 10 (r :: results)) eqn:Hskip; [|reflexivity].
        apply (f_equal (@List.length _)) in Hskip.
        rewrite length_skipn in Hskip. cbn [List.length] in Hskip, Hlen. lia.
      - apply Nat.ltb_ge in Hlen.
        now rewrite skipn_all2 by exact Hlen. }
    rewrite <- Hnotice.
    change (firstn 10 (r :: results)) with (r :: firstn 9 results) in *.
    cbn [List.length] in *.
    destruct (10 <? S (List.length results)); injection H as H; rewrite <- H.
    + now rewrite append_assoc.
    + now rewrite append_empty_r.
Qed.

(** The query [fee] on the sample tree: three results, all shown. *)
Lemma repositorySearch_shows_best_ten_witness :
  exists answer shown,
    repositorySearch Sample.app Sample.plain (Some (QueryString "fee")) = Ok answer /\
    searchRepositoryDocuments Sample.app Sample.plain "fee" = Ok shown /\
    List.length shown = 3 /\
    answer = SearchPage (resultsHeader "fee" 3 ++
                         String.concat "" (List.map resultSection shown)).
Proof.
  destruct (repositorySearch Sample.app Sample.plain (Some (QueryString "fee"))) as [answer| |] eqn:Hr;
    [|vm_compute in Hr; discriminate Hr..].
  destruct (repositorySearch_shows_best_ten _ _ _ _ Hr)
    as (shown & hidden & Hs & Hlen & _ & Hanswer).
  assert (Hall : List.length (shown ++ hidden) = 3).
  { pose proof (f_equal (fun o => match o with
                                  | Ok found => List.length found
                                  | _ => 0
                                  end) Hs) as Hcount.
    cbv beta iota in Hcount. rewrite <- Hcount. vm_compute. reflexivity. }
  rewrite Hall in Hlen, Hanswer. cbn [Nat.min] in Hlen.
  assert (Hhidden : hidden = []).
  { rewrite length_app in Hall. destruct hidden; [reflexivity|cbn in Hall; lia]. }
  rewrite Hhidden, app_nil_r in Hs. rewrite Hhidden in Hanswer.
  exists answer, shown. split; [reflexivity|]. split; [exact Hs|]. split; [exact Hlen|].
  destruct shown as [|r shown]; [discriminate Hlen|].
  rewrite Hanswer. now rewrite append_empty_r.
Defined.

(** X8. What the search tool does with what it is called with, whatever
    the engine of regular expressions. It throws exactly when its argument
    cannot be destructured, or when the query is no string and cannot be
    printed. It answers the error page exactly when the query is no string
    (a missing one among them) and can be printed, and the page then
    quotes what is printed. For a query that is a string, what goes wrong
    during the search (repositories that are absent, files and directories
    that cannot be read, terms that are no regular expression) shows
    neither as a throw nor as an error page. *)
Theorem repositorySearch_failures (E : RegExpEngine.t) (cwd : Path.t)
  (root : list entry) (args : option queryValue) :
  (Generic.repositorySearch E cwd root args = Throw <->
   args = None \/ args = Some (QueryOther None)) /\
  (forall text,
     Generic.repositorySearch E cwd root args = Ok (SearchErrorPage text) <->
     args = Some (QueryOther (Some text))).
Proof.
  destruct args as [[query|[printed|]]|]; cbn [Generic.repositorySearch].
  - pose proof (any_searchRepositoryDocuments_never_throws E cwd root query) as Hnever.
    destruct (Generic.searchRepositoryDocuments E cwd root query) as [results| |];
      [|now destruct Hnever|].
    + destruct (List.length results =? 0); split; try intros text;
        (split; [discriminate|]); try intros [H|H]; try intros H; discriminate H.
    + split; try intros text;
        (split; [discriminate|]); try intros [H|H]; try intros H; discriminate H.
  - split; [split; [discriminate|intros [H|H]; discriminate H]|].
    intros text. split; congruence.
  - split; [split; [now right|reflexivity]|].
    intros text. split; discriminate.
  - split; [split; [now left|reflexivity]|].
    intros text. split; discriminate.
Qed.

(** On the sample tree: a call without arguments throws; a call without
    a query is answered with the error page for [undefined]; the queries
    [[] and [C++] neither throw nor show an error, in the model of the
    engine as in a completed one. *)
Lemma repositorySearch_failures_witness :
  Generic.repositorySearch (completedEngine sampleValid) Sample.app Sample.plain None =
  Throw /\
  Generic.repositorySearch (completedEngine sampleValid) Sample.app Sample.plain
    (Some (QueryOther (Some "undefined"))) = Ok (SearchErrorPage "undefined") /\
  Generic.repositorySearch (completedEngine sampleValid) Sample.app Sample.plain
    (Some (QueryString "[")) <> Throw /\
  forall text,
    repositorySearch Sample.app Sample.plain (Some (QueryString "C++")) <>
    Ok (SearchErrorPage text).
Proof.
  split; [|split; [|split]].
  - apply (proj1 (repositorySearch_failures (completedEngine sampleValid)
                    Sample.app Sample.plain None)).
    now left.
  - apply (proj2 (repositorySearch_failures (completedEngine sampleValid)
                    Sample.app Sample.plain (Some (QueryOther (Some "undefined"))))).
    reflexivity.
  - intros H.
    apply (proj1 (repositorySearch_failures (completedEngine sampleValid)
                    Sample.app Sample.plain (Some (QueryString "[")))) in H.
    destruct H as [H|H]; discriminate H.
  - intros text H. rewrite <- model_repositorySearch in H.
    apply (proj2 (repositorySearch_failures modelEngine Sample.app Sample.plain
                    (Some (QueryString "C++")))) in H.
    discriminate H.
Defined.

(** X9. A query with a term that is no regular expression is answered
    as a search without matches, whatever the repositories hold and
    whatever the other terms are: for every engine of regular expressions
    that answers on every pattern, and every query with a term that the
    engine rejects. *)
Theorem repositorySearch_invalid_term (E : RegExpEngine.t) (cwd : Path.t)
  (root : list entry) (query : string) :
  RegExpEngine.total E ->
  Exists (RegExpEngine.rejects E) (searchTermsOf query) ->
  Generic.repositorySearch E cwd root (Some (QueryString query)) =
  Ok (SearchPage (noMatchesPage query)).
Proof.
  intros Htotal Hrejected.
  assert (Hall : Forall (fun t => RegExpEngine.create E t <> Unmodelled)
                   (searchTermsOf query))
    by (apply Forall_forall; intros t _; apply Htotal).
  unfold Generic.repositorySearch, Generic.searchRepositoryDocuments.
  now rewrite (reposLoop_rejected E cwd _ Hall Hrejected).
Qed.

(** The file [core/notes.txt] holds the text [c++]; the queries [C++],
    [[] and [[a-z] c++] are answered with the page without matches, on an
    engine that takes [[a-z]] for a regular expression and rejects the
    lone bracket. *)
Lemma repositorySearch_invalid_term_witness :
  includes (toLowerCase "a c++ note (draft)") "c++" = true /\
  Generic.repositorySearch (completedEngine sampleValid) Sample.app Sample.plain
    (Some (QueryString "C++")) = Ok (SearchPage (noMatchesPage "C++")) /\
  Generic.repositorySearch (completedEngine sampleValid) Sample.app Sample.plain
    (Some (QueryString "[")) = Ok (SearchPage (noMatchesPage "[")) /\
  Generic.repositorySearch (completedEngine sampleValid) Sample.app Sample.plain
    (Some (QueryString "[a-z] c++")) = Ok (SearchPage (noMatchesPage "[a-z] c++")).
Proof.
  split; [reflexivity|]. split; [|split].
  - apply (repositorySearch_invalid_term (completedEngine sampleValid) Sample.app
             Sample.plain "C++" (completedEngine_total sampleValid)).
    apply Exists_cons_hd. reflexivity.
  - apply (repositorySearch_invalid_term (completedEngine sampleValid) Sample.app
             Sample.plain "[" (completedEngine_total sampleValid)).
    apply Exists_cons_hd. reflexivity.
  - apply (repositorySearch_invalid_term (completedEngine sampleValid) Sample.app
             Sample.plain "[a-z] c++" (completedEngine_total sampleValid)).
    apply Exists_cons_tl, Exists_cons_hd. reflexivity.
Defined.

(* ================================================================== *)
(** ** Paths the reader stays within *)
(* ================================================================== *)

Lemma fold_push_no_climb segments :
  ~ In ".." segments ->
  forall stack,
    exists more, fold_left Path.push_segment segments stack = more ++ stack.
Proof.
  induction segments as [|seg segments IH]; intros Hno stack.
  - now exists [].
  - cbn [fold_left].
    assert (Hseg : seg <> "..") by (intros ->; apply Hno; now left).
    assert (Hno' : ~ In ".." segments) by (intros H; apply Hno; now right).
    unfold Path.push_segment at 2.
    destruct (String.eqb seg "" || String.eqb seg "."); [now apply IH|].
    apply String.eqb_neq in Hseg. rewrite Hseg.
    destruct (IH Hno' (seg :: stack)) as [more Hmore].
    exists (more ++ [seg]). now rewrite Hmore, <- app_assoc.
Qed.

Lemma isPrefixOf_app a b : isPrefixOf a (a ++ b) = true.
Proof.
  induction a as [|x a IH]; [reflexivity|].
  cbn [isPrefixOf app]. now rewrite String.eqb_refl.
Qed.

Lemma climbs_segments parts :
  Forall (fun p => climbs p = false) parts ->
  ~ In ".." (flat_map (split "/") (filter Path.nonEmpty parts)).
Proof.
  intros Hall Hin. apply in_flat_map in Hin. destruct Hin as (p & Hp & Hin).
  apply filter_In in Hp. destruct Hp as [Hp _].
  rewrite Forall_forall in Hall. specialize (Hall _ Hp).
  unfold climbs in Hall. apply array_includes_In in Hin. congruence.
Qed.

Lemma join_no_climb base first parts :
  validName first = true ->
  Forall (fun p => climbs p = false) parts ->
  exists more,
    Path.components (Path.join base (first :: parts)) =
    Path.components base ++ first :: more.
Proof.
  intros Hfirst Hall.
  destruct (validName_inv _ Hfirst) as (Hne & Hs & _).
  assert (Hnon : Path.nonEmpty first = true)
    by (unfold Path.nonEmpty; now apply negb_true_iff, String.eqb_neq).
  unfold Path.join. cbn [Path.components filter]. rewrite Hnon.
  cbn [flat_map]. rewrite (split_valid _ Hs). cbn [app fold_left].
  rewrite push_segment_valid by assumption.
  destruct (fold_push_no_climb _ (climbs_segments _ Hall)
              (first :: rev (Path.components base))) as [more ->].
  exists (rev more). rewrite rev_app_distr. cbn [rev].
  now rewrite rev_involutive, <- app_assoc.
Qed.

(** X10. A path without [..] segment never leaves the [repos] directory:
    when neither the path asked nor the repository has a segment [..], the
    file the reader opens lies under [repos], also for a path that begins
    with a separator. *)
Theorem reader_stays_under_repos (cwd : Path.t) (docPath : string)
  (repo : option string) :
  climbs docPath = false ->
  (forall r, repo = Some r -> climbs r = false) ->
  isUnder (reposPath cwd) (resolveDocument cwd docPath repo) = true.
Proof.
  intros Hdoc Hrepo. unfold isUnder. rewrite components_reposPath.
  assert (Hjoin : forall parts, Forall (fun p => climbs p = false) parts ->
            isPrefixOf (Path.components cwd ++ ["repos"])
              (Path.components (Path.join cwd ("repos" :: parts))) = true).
  { intros parts Hparts.
    destruct (join_no_climb cwd "repos" parts eq_refl Hparts) as [more ->].
    change (Path.components cwd ++ "repos" :: more)
      with (Path.components cwd ++ ["repos"] ++ more).
    rewrite app_assoc. apply isPrefixOf_app. }
  unfold resolveDocument. destruct repo as [r|].
  - destruct (String.eqb r "").
    + apply Hjoin. now constructor.
    + apply Hjoin. constructor; [now apply Hrepo|now constructor].
  - apply Hjoin. now constructor.
Qed.

(** The path [/etc/passwd] asked of the repository [docs] is looked for
    under [repos/docs]. *)
Lemma reader_stays_under_repos_witness :
  isUnder (reposPath Sample.app) (resolveDocument Sample.app "/etc/passwd" (Some "docs"))
  = true /\
  Path.to_string (resolveDocument Sample.app "/etc/passwd" (Some "docs")) =
  "/app/repos/docs/etc/passwd".
Proof.
  split; [|reflexivity].
  apply (reader_stays_under_repos Sample.app "/etc/passwd" (Some "docs")).
  - reflexivity.
  - intros r [= <-]. reflexivity.
Defined.

(** X11. The repository is a prefix of the path: the reader opens the
    same file for a path asked of a repository as for the repository, a
    separator and the path, asked without repository. *)
Theorem reader_repository_is_prefix (cwd : Path.t) (root : list entry)
  (repo docPath : string) :
  docPath <> "" ->
  resolveDocument cwd (repo ++ "/" ++ docPath) None =
  resolveDocument cwd docPath (Some repo) /\
  Fs.readFile root (resolveDocument cwd (repo ++ "/" ++ docPath) None) =
  Fs.readFile root (resolveDocument cwd docPath (Some repo)).
Proof.
  intros Hdoc.
  assert (Hsame : resolveDocument cwd (repo ++ "/" ++ docPath) None =
                  resolveDocument cwd docPath (Some repo)).
  { assert (Hnon : Path.nonEmpty docPath = true)
      by (unfold Path.nonEmpty; now apply negb_true_iff, String.eqb_neq).
    assert (Hends : Path.endsWithSlash (repo ++ String "/" docPath) =
                    Path.endsWithSlash docPath).
    { rewrite endsWithSlash_app. destruct docPath; [now destruct Hdoc|reflexivity]. }
    unfold resolveDocument. destruct (String.eqb_spec repo "") as [->|Hrepo].
    - unfold Path.join. cbn [filter String.append] in Hends |- *.
      change (Path.nonEmpty (String "/" docPath)) with true.
      rewrite Hnon. change (Path.nonEmpty "repos") with true.
      cbn [flat_map rev app]. rewrite Hends.
      change (split "/" (String "/" docPath)) with ("" :: split "/" docPath).
      change (split "/" "repos") with ["repos"].
      cbn [app]. reflexivity.
    - assert (Hnon' : Path.nonEmpty repo = true)
        by (unfold Path.nonEmpty; now apply negb_true_iff, String.eqb_neq).
      assert (Hnon'' : Path.nonEmpty (repo ++ "/" ++ docPath) = true)
        by (destruct repo; [now destruct Hrepo|reflexivity]).
      unfold Path.join. cbn [filter]. rewrite Hnon, Hnon', Hnon''.
      change (Path.nonEmpty "repos") with true.
      cbn [flat_map rev app].
      change (repo ++ "/" ++ docPath)%string with (repo ++ String "/" docPath)%string.
      rewrite Hends, split_app, app_nil_r, app_nil_r. reflexivity. }
  split; [exact Hsame|now rewrite Hsame].
Qed.

Lemma reader_repository_is_prefix_witness :
  Path.to_string (resolveDocument Sample.app "docs/fees.md" None) =
  "/app/repos/docs/fees.md" /\
  resolveDocument Sample.app ("docs" ++ "/" ++ "fees.md") None =
  resolveDocument Sample.app "fees.md" (Some "docs") /\
  Fs.readFile Sample.plain (resolveDocument Sample.app ("docs" ++ "/" ++ "fees.md") None) =
  Fs.readFile Sample.plain (resolveDocument Sample.app "fees.md" (Some "docs")).
Proof.
  split; [reflexivity|].
  apply (reader_repository_is_prefix Sample.app Sample.plain "docs" "fees.md").
  discriminate.
Defined.

(* ================================================================== *)
(** ** Names that begin with a dot *)
(* ================================================================== *)

Lemma extname_loop_plain chars :
  forall rest i st,
    Forall (fun c => plainChar c = true) chars ->
    Path.startDot st = (-1)%Z ->
    exists st',
      Path.extname_loop (chars ++ rest) i st =
      Path.extname_loop rest (i - Z.of_nat (List.length chars)) st' /\
      Path.startDot st' = (-1)%Z /\ Path.preDotState st' = Path.preDotState st.
Proof.
  induction chars as [|c chars IH]; intros rest i st Hall Hdot.
  - exists st. cbn [app List.length Z.of_nat]. now rewrite Z.sub_0_r.
  - inversion Hall as [|? ? Hc Hall']; subst.
    unfold plainChar in Hc. apply andb_prop in Hc. destruct Hc as [Hc1 Hc2].
    apply negb_true_iff in Hc1, Hc2.
    cbn [app Path.extname_loop]. rewrite Hc1, Hc2.
    set (st1 := if (Path.end_ st =? -1)%Z then _ else st).
    assert (H1 : Path.startDot st1 = (-1)%Z)
      by (unfold st1; now destruct (Path.end_ st =? -1)%Z).
    assert (H2 : Path.preDotState st1 = Path.preDotState st)
      by (unfold st1; now destruct (Path.end_ st =? -1)%Z).
    rewrite H1. cbn [Z.eqb Pos.eqb negb].
    destruct (IH rest (i - 1)%Z st1 Hall' H1) as (st' & Hloop & Hd & Hp).
    exists st'. rewrite Hloop. split; [|split; [exact Hd|congruence]].
    f_equal. cbn [List.length]. lia.
Qed.

Lemma Forall_plainChar s :
  plainName s = true -> Forall (fun c => plainChar c = true) (list_ascii_of_string s).
Proof.
  induction s as [|c s IH]; cbn [plainName list_ascii_of_string]; intros H.
  - constructor.
  - apply andb_prop in H. destruct H as [Hc Hs]. constructor; [exact Hc|now apply IH].
Qed.

Lemma extname_dotfile rest : plainName rest = true -> Path.extname ("." ++ rest) = "".
Proof.
  intros Hplain. unfold Path.extname.
  cbn [String.append list_ascii_of_string rev].
  assert (Hall : Forall (fun c => plainChar c = true) (rev (list_ascii_of_string rest)))
    by (apply Forall_rev; now apply Forall_plainChar).
  set (len := Z.of_nat (String.length (String "." rest))).
  destruct (extname_loop_plain _ ["."%char] (len - 1)%Z
              {| Path.startDot := -1; Path.startPart := 0; Path.end_ := -1;
                 Path.matchedSlash := true; Path.preDotState := 0 |} Hall eq_refl)
    as (st' & -> & Hd & Hp).
  cbn [Path.preDotState] in Hp.
  set (j := (len - 1 - Z.of_nat (List.length (rev (list_ascii_of_string rest))))%Z).
  assert (Hfinal : Path.preDotState (Path.extname_loop ["."%char] j st') = 0%Z).
  { cbn [Path.extname_loop]. change (Ascii.eqb "." "/") with false.
    change (Ascii.eqb "." ".") with true. cbv iota.
    destruct (Path.end_ st' =? -1)%Z; cbn [Path.startDot]; rewrite Hd;
      cbn [Z.eqb Path.preDotState]; exact Hp. }
  rewrite Hfinal. cbn [Z.eqb]. now rewrite orb_true_r.
Qed.

(** X12. A file whose name is a dot followed by characters other than a
    dot (as [.env] and [.gitignore]) has no extension for [path.extname],
    and is not searched, although [.env] is on the list of extensions. *)
Theorem dotfiles_not_searchable (rest : string) :
  plainName rest = true ->
  Path.extname ("." ++ rest) = "" /\ isSearchableFile ("." ++ rest) = false.
Proof.
  intros Hplain. split; [now apply extname_dotfile|].
  unfold isSearchableFile. rewrite (extname_dotfile _ Hplain). reflexivity.
Qed.

Lemma dotfiles_not_searchable_witness :
  In ".env" searchableExtensions /\
  Path.extname ".env" = "" /\ isSearchableFile ".env" = false /\
  isSearchableFile "local.env" = true.
Proof.
  split; [cbn; tauto|].
  destruct (dotfiles_not_searchable "env" eq_refl) as [Hext Hsearch].
  split; [exact Hext|]. split; [exact Hsearch|reflexivity].
Defined.

(* ================================================================== *)
(** ** Splitting and joining *)
(* ================================================================== *)

Lemma concat_split sep s :
  String.concat (String sep EmptyString) (split sep s) = s.
Proof.
  induction s as [|c s IH]; [reflexivity|].
  cbn [split]. destruct (split sep s) as [|piece pieces] eqn:Hs;
    [now destruct (split_nonempty sep s)|].
  destruct (Ascii.eqb_spec c sep) as [->|Hc].
  - change (String.concat (String sep "") ("" :: piece :: pieces))
      with ("" ++ String sep "" ++ String.concat (String sep "") (piece :: pieces))%string.
    now rewrite IH.
  - rewrite <- IH. now destruct pieces.
Qed.

Lemma includes_cons c s x :
  includes (String c s) (String x EmptyString) =
  Ascii.eqb c x || includes s (String x EmptyString).
Proof.
  cbn [includes String.prefix].
  destruct (ascii_dec x c) as [<-|Hne].
  - rewrite Ascii.eqb_refl. now destruct s.
  - destruct (Ascii.eqb_spec c x) as [->|_]; [now destruct Hne|reflexivity].
Qed.

Lemma split_pieces sep s :
  Forall (fun piece => includes piece (String sep EmptyString) = false) (split sep s).
Proof.
  induction s as [|c s IH]; [repeat constructor|].
  cbn [split]. destruct (Ascii.eqb c sep) eqn:Hc.
  - constructor; [reflexivity|exact IH].
  - destruct (split sep s) as [|piece pieces].
    + constructor; [|constructor]. rewrite includes_cons, Hc. reflexivity.
    + inversion IH; subst. constructor; [|assumption].
      rewrite includes_cons, Hc. assumption.
Qed.

Lemma split_map f sep s :
  (forall c, Ascii.eqb (f c) sep = Ascii.eqb c sep) ->
  split sep (JsString.map f s) = List.map (JsString.map f) (split sep s).
Proof.
  intros Hf. induction s as [|c s IH]; [reflexivity|].
  cbn [JsString.map split]. rewrite Hf, IH.
  destruct (Ascii.eqb c sep); [reflexivity|].
  now destruct (split sep s).
Qed.

Lemma toLowerCaseChar_idempotent c :
  toLowerCaseChar (toLowerCaseChar c) = toLowerCaseChar c.
Proof. destruct c as [[] [] [] [] [] [] [] []]; reflexivity. Qed.

Lemma toLowerCase_idempotent s : toLowerCase (toLowerCase s) = toLowerCase s.
Proof.
  unfold toLowerCase. induction s as [|c s IH]; [reflexivity|].
  cbn [JsString.map]. now rewrite toLowerCaseChar_idempotent, IH.
Qed.

Lemma toLowerCaseChar_space c :
  Ascii.eqb (toLowerCaseChar c) " " = Ascii.eqb c " ".
Proof. destruct c as [[] [] [] [] [] [] [] []]; reflexivity. Qed.

Lemma toLowerCaseChar_newline c :
  Ascii.eqb (toLowerCaseChar c) (ascii_of_nat 10) = Ascii.eqb c (ascii_of_nat 10).
Proof. destruct c as [[] [] [] [] [] [] [] []]; reflexivity. Qed.

(** X13. The terms of a query are the pieces between its spaces, in
    lower case: joined by spaces they give the query in lower case back,
    no term holds a space, and lowering the case of a term changes
    nothing. *)
Theorem searchTermsOf_pieces (query : string) :
  String.concat " " (searchTermsOf query) = toLowerCase query /\
  Forall (fun term => includes term " " = false) (searchTermsOf query) /\
  Forall (fun term => toLowerCase term = term) (searchTermsOf query).
Proof.
  unfold searchTermsOf. split; [apply concat_split|]. split; [apply split_pieces|].
  unfold toLowerCase. rewrite (split_map _ _ _ toLowerCaseChar_space).
  apply Forall_forall. intros term Hin. apply in_map_iff in Hin.
  destruct Hin as (piece & <- & _). apply toLowerCase_idempotent.
Qed.

Lemma searchTermsOf_pieces_witness :
  searchTermsOf "Transaction  FEE" = ["transaction"; ""; "fee"] /\
  String.concat " " (searchTermsOf "Transaction  FEE") = "transaction  fee".
Proof.
  split; [reflexivity|].
  exact (proj1 (searchTermsOf_pieces "Transaction  FEE")).
Defined.

(* ================================================================== *)
(** ** The lines of the excerpt *)
(* ================================================================== *)

Lemma relevantLoop_cons lines searchTerms i line todo :
  relevantLoop lines searchTerms i (line :: todo) =
  if lineMatches searchTerms line then
    {| lineNumber := i + 1;
       content := join (String (ascii_of_nat 10) EmptyString)
                    (slice (Nat.max 0 (i - 2)) (Nat.min (List.length lines) (i + 3)) lines);
       matchLine := line |}
    :: relevantLoop lines searchTerms (S i) todo
  else relevantLoop lines searchTerms (S i) todo.
Proof. reflexivity. Qed.

Lemma relevantLoop_skip lines searchTerms before :
  forall i todo,
    forallb (fun l => negb (lineMatches searchTerms l)) before = true ->
    relevantLoop lines searchTerms i (before ++ todo) =
    relevantLoop lines searchTerms (i + List.length before) todo.
Proof.
  induction before as [|l before IH]; intros i todo Hall.
  - cbn [app List.length]. now rewrite Nat.add_0_r.
  - cbn [forallb] in Hall. apply andb_prop in Hall. destruct Hall as [Hl Hall].
    apply negb_true_iff in Hl.
    cbn [app]. rewrite relevantLoop_cons, Hl, (IH _ _ Hall).
    cbn [List.length]. now rewrite Nat.add_succ_r.
Qed.

Lemma firstn_min {A : Type} n (l : list A) :
  firstn (Nat.min n (List.length l)) l = firstn n l.
Proof.
  destruct (Nat.le_ge_cases n (List.length l)) as [H|H].
  - now rewrite Nat.min_l.
  - rewrite Nat.min_r by exact H. now rewrite firstn_all, firstn_all2.
Qed.

Lemma slice_context before line after :
  slice (Nat.max 0 (List.length before - 2))
    (Nat.min (List.length (before ++ line :: after)) (List.length before + 3))
    (before ++ line :: after) =
  contextLines before line after.
Proof.
  unfold slice, contextLines. cbn [Nat.max].
  set (s := List.length before - 2).
  rewrite skipn_app.
  replace (s - List.length before) with 0 by (unfold s; lia).
  cbn [skipn].
  replace (Nat.min (List.length (before ++ line :: after)) (List.length before + 3) - s)
    with (List.length (skipn s before) + S (Nat.min 2 (List.length after))).
  - rewrite firstn_app_2. cbn [firstn]. now rewrite firstn_min.
  - rewrite length_skipn, length_app. cbn [List.length]. unfold s. lia.
Qed.

(** X14. The excerpt of a result is built around the first line that
    holds a term: it is what [createExcerpt] makes of that line, the two
    lines before it and the two lines after it, as far as the document has
    them. When no line holds a term, the excerpt is empty. *)
Theorem excerpt_around_first_matching_line (cwd : Path.t) (doc : string)
  (searchTerms : list string) (filePath : Path.t) (repo : string) (r : SearchResult) :
  findMatches cwd doc searchTerms filePath repo = Ok [r] ->
  (forall before line after,
     split (ascii_of_nat 10) doc = before ++ line :: after ->
     forallb (fun l => negb (lineMatches searchTerms l)) before = true ->
     lineMatches searchTerms line = true ->
     createExcerpt
       [ {| lineNumber := List.length before + 1;
            content := join newline (contextLines before line after);
            matchLine := line |} ] searchTerms = Ok (excerpt r)) /\
  (forallb (fun l => negb (lineMatches searchTerms l)) (split (ascii_of_nat 10) doc) = true ->
   excerpt r = "").
Proof.
  intros Hm. destruct (findMatches_fields _ _ _ _ _ _ Hm) as (_ & _ & _ & _ & _ & He).
  split.
  - intros before line after Hlines Hbefore Hline.
    rewrite Hlines in He at 2. rewrite (relevantLoop_skip _ _ _ _ _ Hbefore) in He.
    rewrite relevantLoop_cons, Hline in He. cbn [Nat.add] in He.
    rewrite Hlines, slice_context in He.
    rewrite <- He. reflexivity.
  - intros Hnone.
    rewrite <- (app_nil_r (split (ascii_of_nat 10) doc)) in He at 2.
    rewrite (relevantLoop_skip _ _ _ _ _ Hnone) in He.
    cbn in He. congruence.
Qed.

(** In the sample of five lines, the first line that holds [flow] is the
    last one: the excerpt is made of it and of the two lines before. *)
Lemma excerpt_around_first_matching_line_witness :
  exists r,
    findMatches Sample.app Sample.fiveLines ["flow"]
      (Path.join Sample.app ["repos"; "docs"; "f.md"]) "docs" = Ok [r] /\
    createExcerpt
      [ {| lineNumber := 5;
           content := join newline ["Fee fee"; ""; "a flow"];
           matchLine := "a flow" |} ] ["flow"] = Ok (excerpt r) /\
    excerpt r = ("Fee fee" ++ newline ++ newline ++ "a **flow**")%string.
Proof.
  destruct (findMatches Sample.app Sample.fiveLines ["flow"]
              (Path.join Sample.app ["repos"; "docs"; "f.md"]) "docs")
    as [ms| |] eqn:Hm; [|vm_compute in Hm; discriminate Hm..].
  destruct ms as [|r [|r' ms]];
    [vm_compute in Hm; discriminate Hm| |vm_compute in Hm; discriminate Hm].
  exists r. split; [reflexivity|].
  destruct (excerpt_around_first_matching_line _ _ _ _ _ _ Hm) as [Hfirst _].
  split.
  - apply (Hfirst ["fee"; "none"; "Fee fee"; ""] "a flow" []); reflexivity.
  - vm_compute in Hm. injection Hm as <-. reflexivity.
Defined.

(* ================================================================== *)
(** ** Terms without syntax characters: a line holds the match *)
(* ================================================================== *)

Lemma occurrences_includes t :
  forall s, 0 < occurrencesFrom t s 0 -> includes s t = true.
Proof.
  induction s as [|c s IH]; cbn [occurrencesFrom includes]; unfold startsWith.
  - destruct (String.prefix t ""); [reflexivity|lia].
  - destruct (String.prefix t (String c s)); [reflexivity|].
    intros H. now apply IH.
Qed.

Lemma list_sum_positive {A : Type} (f : A -> nat) l :
  0 < list_sum (List.map f l) -> exists x, In x l /\ 0 < f x.
Proof.
  induction l as [|x l IH]; cbn [List.map list_sum fold_right]; [lia|].
  intros H. destruct (Nat.eq_dec (f x) 0) as [Hx|Hx].
  - destruct IH as (y & Hy & Hf); [unfold list_sum; lia|].
    exists y. split; [now right|exact Hf].
  - exists x. split; [now left|lia].
Qed.

Lemma prefix_includes t s : String.prefix t s = true -> includes s t = true.
Proof. intros H. destruct s; cbn [includes]; now rewrite H. Qed.

Lemma includes_tail c s t : includes s t = true -> includes (String c s) t = true.
Proof. intros H. cbn [includes]. rewrite H. apply orb_true_r. Qed.

Lemma prefix_first_line sep s :
  forall t,
    includes t (String sep EmptyString) = false -> String.prefix t s = true ->
    exists piece pieces, split sep s = piece :: pieces /\ String.prefix t piece = true.
Proof.
  induction s as [|b s IH]; intros t Ht Hp.
  - destruct t; [|discriminate Hp]. now exists "", [].
  - destruct t as [|a t].
    + cbn [split]. destruct (Ascii.eqb b sep); [now exists "", (split sep s)|].
      destruct (split sep s) as [|piece pieces]; [now exists (String b ""), []|].
      now exists (String b piece), pieces.
    + rewrite includes_cons in Ht. apply orb_false_elim in Ht. destruct Ht as [Ha Ht].
      cbn [String.prefix] in Hp. destruct (ascii_dec a b) as [<-|]; [|discriminate Hp].
      destruct (IH t Ht Hp) as (piece & pieces & Hs & Hpiece).
      cbn [split]. rewrite Ha, Hs. exists (String a piece), pieces.
      split; [reflexivity|]. cbn [String.prefix].
      destruct (ascii_dec a a) as [_|Hne]; [exact Hpiece|now destruct Hne].
Qed.

Lemma includes_line sep t :
  includes t (String sep EmptyString) = false ->
  forall s, includes s t = true ->
  existsb (fun line => includes line t) (split sep s) = true.
Proof.
  intros Ht. induction s as [|c s IH]; intros Hs.
  - cbn [split existsb]. now rewrite Hs.
  - cbn [includes] in Hs. apply orb_prop in Hs. destruct Hs as [Hp|Htail].
    + destruct (prefix_first_line sep _ _ Ht Hp) as (piece & pieces & -> & Hpiece).
      cbn [existsb]. now rewrite (prefix_includes _ _ Hpiece).
    + specialize (IH Htail). cbn [split].
      destruct (Ascii.eqb c sep).
      * cbn [existsb]. rewrite IH. apply orb_true_r.
      * destruct (split sep s) as [|piece pieces]; [discriminate IH|].
        cbn [existsb] in *. apply orb_prop in IH. destruct IH as [H|H].
        -- now rewrite (includes_tail c _ _ H).
        -- rewrite H. apply orb_true_r.
Qed.

Lemma findMatches_matchCount cwd doc searchTerms filePath repo r :
  findMatches cwd doc searchTerms filePath repo = Ok [r] ->
  matchCount r =
  List.length (filter (lineMatches searchTerms) (split (ascii_of_nat 10) doc)).
Proof.
  intros H. destruct (findMatches_Ok _ _ _ _ _ _ H) as [Hnil|(n & text & _ & _ & _ & Hr)];
    [discriminate Hnil|].
  injection Hr as ->. cbn [matchCount]. apply relevantLoop_length.
Qed.

(** X15. For terms without syntax characters and without line feed, a
    result always has a line that holds a term: its count of matching
    lines is at least one. *)
Theorem literal_terms_match_a_line (cwd : Path.t) (doc : string)
  (searchTerms : list string) (filePath : Path.t) (repo : string) (r : SearchResult) :
  Forall (fun t => isLiteral t = true) searchTerms ->
  Forall (fun t => oneLine t = true) searchTerms ->
  findMatches cwd doc searchTerms filePath repo = Ok [r] ->
  1 <= matchCount r.
Proof.
  intros Hliteral Hone Hm.
  rewrite (findMatches_matchCount _ _ _ _ _ _ Hm).
  destruct (findMatches_fields _ _ _ _ _ _ Hm) as (_ & _ & _ & Hpos & Hscore & _).
  rewrite (scoreLoop_literal _ _ Hliteral) in Hscore.
  injection Hscore as Hscore. cbn [Nat.add] in Hscore.
  destruct (list_sum_positive (countOccurrences (toLowerCase doc)) searchTerms)
    as (t & Ht & Hcount); [lia|].
  apply occurrences_includes in Hcount.
  rewrite Forall_forall in Hone. specialize (Hone _ Ht).
  unfold oneLine in Hone. apply negb_true_iff in Hone.
  apply (includes_line _ _ Hone) in Hcount.
  unfold toLowerCase in Hcount at 1.
  rewrite (split_map _ _ _ toLowerCaseChar_newline) in Hcount.
  apply existsb_exists in Hcount. destruct Hcount as (lower & Hin & Hinc).
  apply in_map_iff in Hin. destruct Hin as (line & <- & Hline).
  assert (Hfilter : In line (filter (lineMatches searchTerms)
                               (split (ascii_of_nat 10) doc))).
  { apply filter_In. split; [exact Hline|].
    unfold lineMatches. apply existsb_exists. now exists t. }
  destruct (filter (lineMatches searchTerms) (split (ascii_of_nat 10) doc));
    [destruct Hfilter|cbn [List.length]; lia].
Qed.

Lemma literal_terms_match_a_line_witness :
  exists r,
    findMatches Sample.app Sample.fiveLines ["fee"; "flow"]
      (Path.join Sample.app ["repos"; "docs"; "f.md"]) "docs" = Ok [r] /\
    1 <= matchCount r.
Proof.
  destruct (findMatches Sample.app Sample.fiveLines ["fee"; "flow"]
              (Path.join Sample.app ["repos"; "docs"; "f.md"]) "docs")
    as [ms| |] eqn:Hm; [|vm_compute in Hm; discriminate Hm..].
  destruct ms as [|r [|r' ms]];
    [vm_compute in Hm; discriminate Hm| |vm_compute in Hm; discriminate Hm].
  exists r. split; [reflexivity|].
  apply (literal_terms_match_a_line Sample.app Sample.fiveLines ["fee"; "flow"]
           (Path.join Sample.app ["repos"; "docs"; "f.md"]) "docs" r).
  - repeat constructor.
  - repeat constructor.
  - exact Hm.
Defined.

(* ================================================================== *)
(** ** The component search *)
(* ================================================================== *)

Section SortByKey.

Context {A : Type}.
Variable key : A -> nat.
Variable comparefn : A -> A -> Z.
Hypothesis comparefn_key :
  forall a b, (comparefn a b <=? 0)%Z = (key b <=? key a).

Lemma sort_insert_permutation x l : Permutation (x :: l) (sort_insert comparefn x l).
Proof.
  induction l as [|y l IH]; cbn [sort_insert]; [reflexivity|].
  destruct (comparefn x y <=? 0)%Z; [reflexivity|].
  rewrite perm_swap. now apply perm_skip.
Qed.

Lemma Array_sort_permutation l : Permutation l (Array_sort comparefn l).
Proof.
  induction l as [|x l IH]; cbn [Array_sort fold_right]; [constructor|].
  etransitivity; [apply perm_skip, IH|apply sort_insert_permutation].
Qed.

Lemma sort_insert_sorted_by_key x l :
  StronglySorted (fun a b => key b <= key a) l ->
  StronglySorted (fun a b => key b <= key a) (sort_insert comparefn x l).
Proof.
  induction 1 as [|y l Hs IH Hy]; cbn [sort_insert].
  - repeat constructor.
  - rewrite comparefn_key. destruct (key y <=? key x) eqn:Hle.
    + apply Nat.leb_le in Hle. constructor; [now constructor|].
      constructor; [exact Hle|].
      eapply Forall_impl; [|exact Hy]. cbv beta. intros; lia.
    + apply Nat.leb_gt in Hle. constructor; [exact IH|].
      eapply Permutation_Forall; [apply sort_insert_permutation|].
      constructor; [lia|exact Hy].
Qed.

Lemma Array_sort_sorted_by_key l :
  StronglySorted (fun a b => key b <= key a) (Array_sort comparefn l).
Proof.
  induction l as [|x l IH]; cbn [Array_sort fold_right]; [constructor|].
  now apply sort_insert_sorted_by_key.
Qed.

End SortByKey.

Lemma byMatchScore_le a b :
  (byMatchScore a b <=? 0)%Z = (ComponentMatch.score b <=? ComponentMatch.score a).
Proof.
  unfold byMatchScore.
  destruct (ComponentMatch.score b <=? ComponentMatch.score a) eqn:H.
  - apply Nat.leb_le in H. apply Z.leb_le. lia.
  - apply Nat.leb_gt in H. apply Z.leb_gt. lia.
Qed.

Lemma componentOf_matchOf regex c : componentOf (matchOf regex c) = c.
Proof. now destruct c as [[cat n] [t d]]. Qed.

Lemma matchScore_create text searchTerm :
  matchScore text searchTerm =
  (regex <- RegExp.create searchTerm ;;
   Ok match RegExp.matchGlobal text regex with
      | Some ms => List.length ms
      | None => 0
      end).
Proof. reflexivity. Qed.

(** The loops of the component search, as a filter: they compile the term
    only when a component mentions it. *)
Lemma componentLoop_filter categoryName searchTerm entries :
  forall results,
    componentLoop categoryName searchTerm entries results =
    match filter (mentions searchTerm)
            (List.map (fun c => (categoryName, fst c, snd c)) entries) with
    | [] => Ok results
    | hits =>
        regex <- RegExp.create searchTerm ;;
        Ok (results ++ List.map (matchOf regex) hits)
    end.
Proof.
  induction entries as [|[componentName componentInfo] entries IH]; intros results;
    [reflexivity|].
  cbn [componentLoop List.map filter fst snd]. unfold mentions at 1. cbn [fst snd].
  destruct (includes (searchableTextOf componentName componentInfo) searchTerm);
    [|apply IH].
  rewrite matchScore_create.
  destruct (RegExp.create searchTerm) as [regex| |] eqn:Hc; cbn [bind]; try reflexivity.
  rewrite IH.
  destruct (filter (mentions searchTerm)
              (List.map (fun c => (categoryName, fst c, snd c)) entries)) as [|hit hits].
  - reflexivity.
  - cbn [bind List.map]. now rewrite <- app_assoc.
Qed.

Lemma categoryLoop_filter searchTerm registry :
  forall results,
    categoryLoop searchTerm registry results =
    match filter (mentions searchTerm) (candidates registry) with
    | [] => Ok results
    | hits =>
        regex <- RegExp.create searchTerm ;;
        Ok (results ++ List.map (matchOf regex) hits)
    end.
Proof.
  induction registry as [|[categoryName categoryInfo] registry IH]; intros results;
    [reflexivity|].
  cbn [categoryLoop candidates flat_map fst snd]. rewrite filter_app.
  rewrite componentLoop_filter.
  fold (candidates registry).
  destruct (filter (mentions searchTerm)
              (List.map (fun c => (categoryName, fst c, snd c))
                 (CategoryInfo.components categoryInfo))) as [|hit hits].
  - cbn [bind app]. apply IH.
  - destruct (RegExp.create searchTerm) as [regex| |] eqn:Hc; cbn [bind];
      try reflexivity.
    rewrite IH. cbn [app].
    destruct (filter (mentions searchTerm) (candidates registry)) as [|hit' hits'].
    + now rewrite app_nil_r.
    + cbn [bind]. rewrite <- app_assoc.
      now rewrite <- map_app.
Qed.

Lemma componentSections_text results :
  forall response text,
    componentSections results response = Ok text ->
    text = (response ++ String.concat "" (List.map componentSection results))%string.
Proof.
  induction results as [|r results IH]; intros response text H.
  - cbn in *. rewrite append_empty_r. congruence.
  - cbn [componentSections] in H.
    destruct (toUpperCase (ComponentMatch.category r)) as [upper|] eqn:Hu;
      [|discriminate H].
    rewrite (IH _ _ H). rewrite append_assoc. f_equal.
    assert (Hsection :
      (componentSection r ++ String.concat "" (List.map componentSection results))%string =
      String.concat "" (List.map componentSection (r :: results))).
    { cbn [List.map String.concat].
      destruct (List.map componentSection results) eqn:Hm; [|reflexivity].
      cbn. now rewrite append_empty_r. }
    rewrite <- Hsection. f_equal.
    unfold componentSection. rewrite Hu. reflexivity.
Qed.

Lemma componentSections_never_throws results :
  forall response, componentSections results response <> Throw.
Proof.
  induction results as [|r results IH]; intros response; cbn [componentSections];
    [discriminate|].
  destruct (toUpperCase (ComponentMatch.category r)); [apply IH|discriminate].
Qed.

(** X16. The component search lists the components whose name, title and
    description, in lower case, hold the query in lower case: each of them
    once, ranked by score, the first ten on the page. When there is none,
    the page says so. *)
Theorem searchComponents_lists_mentions (query : string) (registry : Registry)
  (page : string) :
  query <> "" ->
  searchComponents (Some query) registry = Ok page ->
  match filter (mentions (toLowerCase query)) (candidates registry) with
  | [] => page = noComponentsPage query
  | hits =>
      exists regex found,
        RegExp.create (toLowerCase query) = Ok regex /\
        found = Array_sort byMatchScore (List.map (matchOf regex) hits) /\
        Permutation hits (List.map componentOf found) /\
        StronglySorted matchRanksBefore found /\
        page =
        (componentsHeader query (List.length found) ++
         String.concat "" (List.map componentSection (firstn 10 found)) ++
         if (10 <? List.length found)%nat
         then componentsNotice (List.length found) else "")%string
  end.
Proof.
  intros Hquery. unfold searchComponents.
  apply String.eqb_neq in Hquery. rewrite Hquery.
  rewrite categoryLoop_filter.
  destruct (filter (mentions (toLowerCase query)) (candidates registry))
    as [|hit hits] eqn:Hhits.
  - cbn [bind Array_sort fold_right List.length Nat.eqb]. unfold noComponentsPage.
    congruence.
  - destruct (RegExp.create (toLowerCase query)) as [regex| |]; cbn [bind app];
      try discriminate.
    set (found := Array_sort byMatchScore (List.map (matchOf regex) (hit :: hits))).
    assert (Hperm : Permutation (List.map (matchOf regex) (hit :: hits)) found)
      by apply Array_sort_permutation.
    assert (Hlen : List.length found = S (List.length hits)).
    { rewrite <- (Permutation_length Hperm). cbn [List.map List.length].
      now rewrite length_map. }
    rewrite Hlen at 1. cbn [Nat.eqb].
    fold (componentsHeader query (List.length found)).
    unfold slice. rewrite Nat.sub_0_r. cbn [skipn].
    destruct (componentSections (firstn 10 found)
                (componentsHeader query (List.length found))) as [text| |] eqn:Hsec;
      cbn [bind]; try discriminate.
    apply componentSections_text in Hsec.
    intros Hpage. exists regex, found. split; [reflexivity|]. split; [reflexivity|].
    split; [|split].
    + rewrite <- (map_id (hit :: hits)) at 1.
      rewrite <- (map_ext _ _ (componentOf_matchOf regex)), <- map_map.
      now apply Permutation_map.
    + apply (Array_sort_sorted_by_key ComponentMatch.score byMatchScore byMatchScore_le).
    + fold (componentsNotice (List.length found)) in Hpage.
      destruct (10 <? List.length found).
      * rewrite <- append_assoc, <- Hsec. congruence.
      * rewrite append_empty_r, <- Hsec. congruence.
Qed.

(** The query [Post] on the sample registry: three components, the one
    with five occurrences first. *)
Lemma searchComponents_lists_mentions_witness :
  exists page found,
    searchComponents (Some "Post") sampleRegistry = Ok page /\
    List.map ComponentMatch.name found = ["post-text"; "post-card"; "user-info"] /\
    List.map ComponentMatch.score found = [5; 3; 1] /\
    page = (componentsHeader "Post" 3 ++
            String.concat "" (List.map componentSection found))%string.
Proof.
  destruct (searchComponents (Some "Post") sampleRegistry) as [page| |] eqn:Hs;
    [|vm_compute in Hs; discriminate Hs..].
  pose proof (searchComponents_lists_mentions "Post" sampleRegistry page
                ltac:(discriminate) Hs) as H.
  change (filter (mentions (toLowerCase "Post")) (candidates sampleRegistry))
    with (candidates sampleRegistry) in H.
  cbn [candidates sampleRegistry flat_map List.map app fst snd
       CategoryInfo.components] in H.
  destruct H as (regex & found & Hregex & Hfound & _ & _ & Hpage).
  vm_compute in Hregex. injection Hregex as <-.
  vm_compute in Hfound. rewrite Hfound in Hpage.
  exists page, found. split; [reflexivity|]. rewrite Hfound.
  split; [reflexivity|]. split; [reflexivity|].
  rewrite Hpage. vm_compute. reflexivity.
Defined.

Lemma filter_existsb {A : Type} (f : A -> bool) l :
  existsb f l = negb (Nat.eqb (List.length (filter f l)) 0).
Proof.
  induction l as [|x l IH]; [reflexivity|].
  cbn [existsb filter]. destruct (f x); [reflexivity|exact IH].
Qed.

(** The loops of the component search over any engine, as a filter. *)
Lemma any_componentLoop_filter E categoryName searchTerm entries :
  forall results,
    Generic.componentLoop E categoryName searchTerm entries results =
    match filter (mentions searchTerm)
            (List.map (fun c => (categoryName, fst c, snd c)) entries) with
    | [] => Ok results
    | hits =>
        regex <- RegExpEngine.create E searchTerm ;;
        Ok (results ++ List.map (matchUnder E regex) hits)
    end.
Proof.
  induction entries as [|[componentName componentInfo] entries IH]; intros results;
    [reflexivity|].
  cbn [Generic.componentLoop List.map filter fst snd]. unfold mentions at 1.
  cbn [fst snd].
  destruct (includes (searchableTextOf componentName componentInfo) searchTerm);
    [|apply IH].
  unfold Generic.matchScore.
  destruct (RegExpEngine.create E searchTerm) as [regex| |] eqn:Hc; cbn [bind];
    try reflexivity.
  rewrite IH.
  destruct (filter (mentions searchTerm)
              (List.map (fun c => (categoryName, fst c, snd c)) entries)) as [|hit hits].
  - reflexivity.
  - cbn [bind List.map]. now rewrite <- app_assoc.
Qed.

Lemma any_categoryLoop_filter E searchTerm registry :
  forall results,
    Generic.categoryLoop E searchTerm registry results =
    match filter (mentions searchTerm) (candidates registry) with
    | [] => Ok results
    | hits =>
        regex <- RegExpEngine.create E searchTerm ;;
        Ok (results ++ List.map (matchUnder E regex) hits)
    end.
Proof.
  induction registry as [|[categoryName categoryInfo] registry IH]; intros results;
    [reflexivity|].
  cbn [Generic.categoryLoop candidates flat_map fst snd]. rewrite filter_app.
  rewrite any_componentLoop_filter.
  fold (candidates registry).
  destruct (filter (mentions searchTerm)
              (List.map (fun c => (categoryName, fst c, snd c))
                 (CategoryInfo.components categoryInfo))) as [|hit hits].
  - cbn [bind app]. apply IH.
  - destruct (RegExpEngine.create E searchTerm) as [regex| |] eqn:Hc; cbn [bind];
      try reflexivity.
    rewrite IH. cbn [app].
    destruct (filter (mentions searchTerm) (candidates registry)) as [|hit' hits'].
    + now rewrite app_nil_r.
    + cbn [bind]. rewrite <- app_assoc.
      now rewrite <- map_app.
Qed.

(** When the component search throws, over any engine, it is the
    constructor that threw, on a query that some component holds. *)
Lemma any_searchComponents_Throw E query registry :
  Generic.searchComponents E (Some query) registry = Throw ->
  query <> "" /\ RegExpEngine.create E (toLowerCase query) = Throw /\
  existsb (mentions (toLowerCase query)) (candidates registry) = true.
Proof.
  unfold Generic.searchComponents. destruct (String.eqb_spec query "") as [->|Hquery];
    [discriminate|].
  rewrite any_categoryLoop_filter, filter_existsb.
  destruct (filter (mentions (toLowerCase query)) (candidates registry))
    as [|hit hits]; [discriminate|].
  destruct (RegExpEngine.create E (toLowerCase query)) as [regex| |] eqn:Hc;
    cbn [bind app].
  - set (found := Array_sort byMatchScore (List.map (matchUnder E regex) (hit :: hits))).
    destruct (List.length found =? 0); [discriminate|].
    match goal with
    | |- context [componentSections ?rs ?resp] =>
        pose proof (componentSections_never_throws rs resp) as Hnever;
        destruct (componentSections rs resp) as [text| |]
    end; cbn [bind]; try discriminate; [|now destruct Hnever].
    destruct (10 <? List.length found); discriminate.
  - intros _. now repeat split.
  - discriminate.
Qed.

Lemma searchComponents_Throw query registry :
  searchComponents (Some query) registry = Throw ->
  query <> "" /\ RegExp.create (toLowerCase query) = Throw /\
  existsb (mentions (toLowerCase query)) (candidates registry) = true.
Proof.
  rewrite <- model_searchComponents. apply any_searchComponents_Throw.
Qed.



Lemma includes_occurrences t :
  forall s, includes s t = true -> 0 < occurrencesFrom t s 0.
Proof.
  induction s as [|c s IH]; cbn [occurrencesFrom includes]; unfold startsWith.
  - destruct (String.prefix t ""); [lia|discriminate].
  - destruct (String.prefix t (String c s)); [lia|].
    cbn [orb]. exact IH.
Qed.

(** X18. For a query without syntax characters the component search
    does not throw, and the score of a component that holds the query is
    the number of its occurrences in the text of the component, counted
    from the left without overlap: at least one. *)
Theorem searchComponents_literal_query (query : string) (registry : Registry) :
  isLiteral (toLowerCase query) = true ->
  searchComponents (Some query) registry <> Throw /\
  forall text,
    includes text (toLowerCase query) = true ->
    matchScore text (toLowerCase query) = Ok (countOccurrences text (toLowerCase query)) /\
    1 <= countOccurrences text (toLowerCase query).
Proof.
  intros Hliteral. split.
  - intros Hthrow. apply searchComponents_Throw in Hthrow.
    destruct Hthrow as (_ & Hinvalid & _).
    rewrite (create_literal _ Hliteral) in Hinvalid. discriminate Hinvalid.
  - intros text Hincludes. split.
    + unfold matchScore. rewrite (create_literal _ Hliteral). cbn [bind].
      unfold RegExp.matchGlobal, countOccurrences.
      rewrite <- (match_all_literal (toLowerCase query) text 0 0).
      now destruct (RegExp.match_all false (literalPattern (toLowerCase query)) 0 text 0).
    + apply includes_occurrences in Hincludes. unfold countOccurrences. lia.
Qed.

Lemma searchComponents_literal_query_witness :
  searchComponents (Some "Post") sampleRegistry <> Throw /\
  matchScore "post-text post text text of a post, post after post" "post" = Ok 5.
Proof.
  destruct (searchComponents_literal_query "Post" sampleRegistry eq_refl) as [Hno Hscore].
  split; [exact Hno|].
  exact (proj1 (Hscore "post-text post text text of a post, post after post" eq_refl)).
Defined.

(* ================================================================== *)
(** ** The shape of the path of a result *)
(* ================================================================== *)

(** X19. In a well-formed tree, the path of a result is the name of one
    of the nine repositories, then names of directories none of which
    begins with a dot or is on the list of excluded names, then the name of
    a file the classifier accepts, joined by separators. *)
Theorem search_result_path_shape (cwd : Path.t) (root : list entry) (query : string)
  (l : list SearchResult) (r : SearchResult) :
  wellFormedListing root = true ->
  searchRepositoryDocuments cwd root query = Ok l -> In r l ->
  exists directories fileName,
    path r = String.concat "/" (repository r :: directories ++ [fileName]) /\
    In (repository r) repositories /\
    Forall (fun d => allowedDirectory d = true) directories /\
    isSearchableFile fileName = true.
Proof.
  intros Hwf Hs Hin.
  destruct (searchRepositoryDocuments_location _ _ _ _ _ Hwf Hs Hin)
    as (names & n & text & _ & Hne & _ & Hlast & Hpath & Hm & Hdirs & Hfile).
  exists (removelast names), n. split; [|split; [|split; assumption]].
  - rewrite Hpath, <- Hlast. now rewrite <- (app_removelast_last "" Hne).
  - unfold searchRepositoryDocuments in Hs.
    destruct (reposLoop cwd root repositories (searchTermsOf query) [])
      as [encountered| |] eqn:Hl; cbn [bind] in Hs; try discriminate.
    assert (Hsort : l = Array_sort byScore encountered) by congruence.
    rewrite Hsort in Hin.
    apply (Permutation_in _ (Permutation_sym (Array_sort_perm encountered))) in Hin.
    destruct (reposLoop_sound _ _ _ _ _ _ _ Hl Hin)
      as [[]|(repo & stats & names' & text' & Hrepo & _ & n' & _ & _ & Hm')].
    destruct (findMatches_fields _ _ _ _ _ _ Hm') as (_ & _ & Hr & _).
    now rewrite Hr.
Qed.

(** The sample tree with excluded directories: the query [fee] finds
    [docs/docs/a.md] and nothing below [node_modules], [.git] or
    [build]. *)
Lemma search_result_path_shape_witness :
  exists l,
    searchRepositoryDocuments Sample.app
      (Sample.inRepos Sample.docsWithExcluded Sample.corePlain) "fee" = Ok l /\
    List.map path l = ["docs/fees.md"; "docs/docs/a.md"; "core/README"] /\
    Forall (fun r => exists directories fileName,
              path r = String.concat "/" (repository r :: directories ++ [fileName]) /\
              In (repository r) repositories /\
              Forall (fun d => allowedDirectory d = true) directories /\
              isSearchableFile fileName = true) l.
Proof.
  destruct (searchRepositoryDocuments Sample.app
              (Sample.inRepos Sample.docsWithExcluded Sample.corePlain) "fee")
    as [l| |] eqn:Hs; [|vm_compute in Hs; discriminate Hs..].
  exists l. split; [reflexivity|]. split.
  - vm_compute in Hs. injection Hs as <-. reflexivity.
  - apply Forall_forall. intros r Hr.
    now apply (search_result_path_shape Sample.app
                 (Sample.inRepos Sample.docsWithExcluded Sample.corePlain) "fee" l r).
Defined.

(* ================================================================== *)
(** ** The extension of a file name *)
(* ================================================================== *)

(** The loop of [path.extname] on characters that are neither dot nor
    separator, before it has seen a dot: once the end is set nothing
    changes. *)
Lemma extname_loop_plain_set chars :
  forall rest i st,
    Forall (fun c => plainChar c = true) chars ->
    Path.startDot st = (-1)%Z -> Path.end_ st <> (-1)%Z ->
    Path.extname_loop (chars ++ rest) i st =
    Path.extname_loop rest (i - Z.of_nat (List.length chars)) st.
Proof.
  induction chars as [|c chars IH]; intros rest i st Hall Hdot Hend.
  - cbn [app List.length Z.of_nat]. now rewrite Z.sub_0_r.
  - inversion Hall as [|? ? Hc Hall']; subst.
    unfold plainChar in Hc. apply andb_prop in Hc. destruct Hc as [Hc1 Hc2].
    apply negb_true_iff in Hc1, Hc2.
    cbn [app Path.extname_loop]. rewrite Hc1, Hc2.
    apply Z.eqb_neq in Hend. rewrite Hend, Hdot. cbn [Z.eqb Pos.eqb negb].
    apply Z.eqb_neq in Hend. rewrite (IH rest (i - 1)%Z st Hall' Hdot Hend).
    f_equal. cbn [List.length]. lia.
Qed.

(** The state after the characters of the extension and its dot. *)
Lemma extname_loop_extension chars :
  forall rest i,
    Forall (fun c => plainChar c = true) chars ->
    (Z.of_nat (List.length chars) <= i)%Z ->
    Path.extname_loop (chars ++ "."%char :: rest) i
      {| Path.startDot := -1; Path.startPart := 0; Path.end_ := -1;
         Path.matchedSlash := true; Path.preDotState := 0 |} =
    Path.extname_loop rest (i - Z.of_nat (List.length chars) - 1)
      {| Path.startDot := i - Z.of_nat (List.length chars); Path.startPart := 0;
         Path.end_ := i + 1; Path.matchedSlash := false; Path.preDotState := 0 |}.
Proof.
  intros rest i Hall Hi. destruct chars as [|c chars].
  - cbn [app List.length Z.of_nat Path.extname_loop].
    change (Ascii.eqb "." "/") with false. change (Ascii.eqb "." ".") with true.
    cbn. now rewrite Z.sub_0_r.
  - inversion Hall as [|? ? Hc Hall']; subst.
    unfold plainChar in Hc. apply andb_prop in Hc. destruct Hc as [Hc1 Hc2].
    apply negb_true_iff in Hc1, Hc2.
    cbn [app Path.extname_loop]. rewrite Hc1, Hc2.
    cbn [Path.end_ Path.startDot Path.startPart Path.matchedSlash Path.preDotState
         Z.eqb Pos.eqb negb].
    cbn [List.length] in Hi.
    rewrite extname_loop_plain_set; cbn [Path.startDot Path.end_];
      [|assumption|reflexivity|lia].
    cbn [Path.extname_loop]. change (Ascii.eqb "." "/") with false.
    change (Ascii.eqb "." ".") with true. cbv iota.
    cbn [Path.end_ Path.startDot Path.startPart Path.matchedSlash Path.preDotState].
    assert (Hend : ((i + 1 =? -1) = false)%Z) by (apply Z.eqb_neq; lia).
    rewrite Hend. cbn [Z.eqb Pos.eqb Path.end_ Path.startDot Path.startPart
                       Path.matchedSlash Path.preDotState].
    cbn [List.length]. f_equal; [lia|]. f_equal. lia.
Qed.

(** The loop on the characters before the dot of the extension: it only
    records whether the character seen last is a dot. *)
Lemma extname_loop_stem chars :
  forall i st,
    chars <> [] ->
    Forall (fun c => Ascii.eqb c "/" = false) chars ->
    Path.startDot st <> (-1)%Z -> Path.end_ st <> (-1)%Z ->
    let st' := Path.extname_loop chars i st in
    Path.startDot st' = Path.startDot st /\
    Path.startPart st' = Path.startPart st /\
    Path.end_ st' = Path.end_ st /\
    Path.preDotState st' = (if Ascii.eqb (last chars "."%char) "." then 1 else -1)%Z.
Proof.
  induction chars as [|c chars IH]; intros i st Hne Hall Hdot Hend; [now destruct Hne|].
  inversion Hall as [|? ? Hc Hall']; subst.
  cbn [Path.extname_loop]. rewrite Hc.
  apply Z.eqb_neq in Hend, Hdot. rewrite Hend, Hdot. cbn [negb].
  apply Z.eqb_neq in Hend, Hdot.
  set (st2 := if Ascii.eqb c "." then _ else _).
  assert (H2 : Path.startDot st2 = Path.startDot st /\
               Path.startPart st2 = Path.startPart st /\
               Path.end_ st2 = Path.end_ st /\
               Path.preDotState st2 = (if Ascii.eqb c "." then 1 else -1)%Z).
  { unfold st2. destruct (Ascii.eqb c ".").
    - destruct (Path.preDotState st =? 1)%Z eqn:Hp; cbn; repeat split.
      now apply Z.eqb_eq in Hp.
    - cbn. now repeat split. }
  destruct H2 as (Ha & Hb & Hc' & Hd).
  destruct chars as [|c' chars].
  - cbn [Path.extname_loop last]. now repeat split.
  - destruct (IH (i - 1)%Z st2 ltac:(discriminate) Hall'
                ltac:(congruence) ltac:(congruence)) as (Ha' & Hb' & Hc'' & Hd').
    change (last (c :: c' :: chars) "."%char) with (last (c' :: chars) "."%char).
    cbv zeta. repeat split; congruence.
Qed.

Lemma Forall_no_separator s :
  includes s "/" = false ->
  Forall (fun c => Ascii.eqb c "/" = false) (list_ascii_of_string s).
Proof.
  induction s as [|c s IH]; cbn [list_ascii_of_string]; [constructor|].
  rewrite includes_slash_cons. intros H. apply orb_false_elim in H.
  destruct H as [Hc Hs]. constructor; [exact Hc|now apply IH].
Qed.

Lemma list_ascii_of_string_app a b :
  list_ascii_of_string (a ++ b) = list_ascii_of_string a ++ list_ascii_of_string b.
Proof.
  induction a as [|c a IH]; [reflexivity|].
  cbn [String.append list_ascii_of_string app]. now rewrite IH.
Qed.

Lemma length_list_ascii s : List.length (list_ascii_of_string s) = String.length s.
Proof. induction s as [|c s IH]; [reflexivity|]. cbn. now rewrite IH. Qed.

Lemma substring_all s : String.substring 0 (String.length s) s = s.
Proof. induction s as [|c s IH]; [reflexivity|]. cbn. now rewrite IH. Qed.

Lemma substring_app a b n :
  String.substring (String.length a) n (a ++ b) = String.substring 0 n b.
Proof. induction a as [|c a IH]; [reflexivity|]. cbn [String.length String.append]. exact IH. Qed.

Lemma includes_middle a c b : includes (a ++ String c b) (String c EmptyString) = true.
Proof.
  induction a as [|x a IH]; cbn [String.append]; rewrite includes_cons.
  - now rewrite Ascii.eqb_refl.
  - rewrite IH. apply orb_true_r.
Qed.

Lemma extname_after_last_dot stem ext :
  stem <> "" -> includes stem "/" = false -> plainName ext = true ->
  (stem = "." -> ext <> "") ->
  Path.extname (stem ++ "." ++ ext) = ("." ++ ext)%string.
Proof.
  intros Hstem Hsep Hext Hdots. unfold Path.extname.
  change (stem ++ "." ++ ext)%string with (stem ++ String "." ext)%string.
  rewrite list_ascii_of_string_app. cbn [list_ascii_of_string].
  rewrite rev_app_distr. cbn [rev]. rewrite <- app_assoc. cbn [app].
  assert (Hlen : Z.of_nat (String.length (stem ++ String "." ext)) =
                 (Z.of_nat (String.length stem) + 1 + Z.of_nat (String.length ext))%Z)
    by (rewrite length_append; cbn [String.length]; lia).
  rewrite Hlen.
  assert (Hrev : List.length (rev (list_ascii_of_string ext)) = String.length ext)
    by (now rewrite length_rev, length_list_ascii).
  rewrite extname_loop_extension;
    [|apply Forall_rev; now apply Forall_plainChar|rewrite Hrev; lia].
  rewrite Hrev.
  set (j := Z.of_nat (String.length stem)).
  set (e := Z.of_nat (String.length ext)).
  set (st := {| Path.startDot := j + 1 + e - 1 - e; Path.startPart := 0;
                Path.end_ := j + 1 + e - 1 + 1; Path.matchedSlash := false;
                Path.preDotState := 0 |}).
  assert (Hj : (1 <= j)%Z).
  { unfold j. destruct stem; [now destruct Hstem|cbn [String.length]; lia]. }
  assert (He : (0 <= e)%Z) by (unfold e; lia).
  destruct (extname_loop_stem (rev (list_ascii_of_string stem)) (j + 1 + e - 1 - e - 1)%Z st)
    as (Ha & Hb & Hc & Hd).
  - destruct stem as [|c stem]; [now destruct Hstem|].
    cbn [list_ascii_of_string rev]. now destruct (rev (list_ascii_of_string stem)).
  - apply Forall_rev. now apply Forall_no_separator.
  - cbn [st Path.startDot]. lia.
  - cbn [st Path.end_]. lia.
  - cbv zeta in Ha, Hb, Hc, Hd. cbn [st Path.startDot Path.startPart Path.end_] in Ha, Hb, Hc.
    rewrite Ha, Hb, Hc, Hd.
    assert (H1 : ((j + 1 + e - 1 - e =? -1) = false)%Z) by (apply Z.eqb_neq; lia).
    assert (H2 : ((j + 1 + e - 1 + 1 =? -1) = false)%Z) by (apply Z.eqb_neq; lia).
    rewrite H1, H2. cbn [orb].
    assert (H3 : (((if Ascii.eqb (last (rev (list_ascii_of_string stem)) "."%char) "."
                    then 1 else -1) =? 0) = false)%Z)
      by (now destruct (Ascii.eqb _ ".")).
    rewrite H3. cbn [orb].
    assert (H4 :
      (((if Ascii.eqb (last (rev (list_ascii_of_string stem)) "."%char) "."
         then 1 else -1) =? 1) &&
       (j + 1 + e - 1 - e =? j + 1 + e - 1 + 1 - 1) && (j + 1 + e - 1 - e =? 0 + 1))%Z
      = false).
    { destruct (j + 1 + e - 1 - e =? 0 + 1)%Z eqn:Hone; [|apply andb_false_r].
      destruct (j + 1 + e - 1 - e =? j + 1 + e - 1 + 1 - 1)%Z eqn:Hlast;
        [|now rewrite andb_false_r].
      apply Z.eqb_eq in Hone, Hlast.
      assert (Hstem1 : String.length stem = 1) by (unfold j in Hone; lia).
      assert (Hext0 : ext = "").
      { assert (String.length ext = 0) by (unfold e in Hlast; lia).
        now destruct ext. }
      destruct stem as [|c [|c' stem]]; try discriminate Hstem1.
      cbn [list_ascii_of_string rev app last].
      destruct (Ascii.eqb_spec c ".") as [->|Hc']; [|reflexivity].
      now destruct (Hdots eq_refl). }
    rewrite H4.
    replace (Z.to_nat (j + 1 + e - 1 - e)) with (String.length stem) by (unfold j; lia).
    replace (Z.to_nat (j + 1 + e - 1 + 1 - (j + 1 + e - 1 - e)))
      with (String.length (String "." ext)) by (cbn [String.length]; unfold e; lia).
    now rewrite substring_app, substring_all.
Qed.

Lemma toLowerCase_dot ext : toLowerCase ("." ++ ext) = ("." ++ toLowerCase ext)%string.
Proof. reflexivity. Qed.

(** X20. Whether a file is searched depends on the text after the last
    dot of its name only, whatever its case: for a name with at least one
    character before that dot (and other than two dots), [path.extname]
    answers the dot and what follows, and the classifier accepts the name
    exactly when that extension, in lower case, is on its list. *)
Theorem extension_after_last_dot (stem ext : string) :
  stem <> "" -> includes stem "/" = false -> plainName ext = true ->
  (stem = "." -> ext <> "") ->
  Path.extname (stem ++ "." ++ ext) = ("." ++ ext)%string /\
  isSearchableFile (stem ++ "." ++ ext) =
  array_includes searchableExtensions ("." ++ toLowerCase ext).
Proof.
  intros Hstem Hsep Hext Hdots.
  pose proof (extname_after_last_dot stem ext Hstem Hsep Hext Hdots) as Hextname.
  split; [exact Hextname|].
  unfold isSearchableFile. rewrite Hextname, toLowerCase_dot.
  assert (Hname : forall word, includes word "." = false ->
                    String.eqb (stem ++ "." ++ ext) word = false).
  { intros word Hword. apply String.eqb_neq. intros Heq.
    rewrite <- Heq in Hword.
    change (stem ++ "." ++ ext)%string with (stem ++ String "." ext)%string in Hword.
    now rewrite includes_middle in Hword. }
  rewrite (Hname "README" eq_refl), (Hname "LICENSE" eq_refl).
  now rewrite !orb_false_r.
Qed.

Lemma extension_after_last_dot_witness :
  Path.extname ("archive.tar" ++ "." ++ "GZ") = ".GZ" /\
  isSearchableFile ("archive.tar" ++ "." ++ "GZ") = false /\
  isSearchableFile (".eslintrc" ++ "." ++ "JSON") = true.
Proof.
  destruct (extension_after_last_dot "archive.tar" "GZ") as [Hext Hsearch].
  - discriminate.
  - reflexivity.
  - reflexivity.
  - discriminate.
  - split; [exact Hext|]. split; [exact Hsearch|].
    destruct (extension_after_last_dot ".eslintrc" "JSON") as [_ Hsearch'].
    + discriminate.
    + reflexivity.
    + reflexivity.
    + discriminate.
    + exact Hsearch'.
Defined.

(* ================================================================== *)
(** ** No document is listed twice *)
(* ================================================================== *)

Lemma concat_injective a b :
  Forall (fun n => validName n = true) a -> Forall (fun n => validName n = true) b ->
  a <> [] -> b <> [] ->
  String.concat "/" a = String.concat "/" b -> a = b.
Proof.
  intros Ha Hb Hna Hnb H. apply (f_equal (split "/")) in H.
  now rewrite !split_concat in H.
Qed.

Lemma uniqueNames_cons n names :
  uniqueNames (n :: names) = true -> ~ In n names /\ uniqueNames names = true.
Proof.
  cbn [uniqueNames]. intros H. apply andb_prop in H. destruct H as [Hn Hu].
  split; [|exact Hu]. intros Hin. apply array_includes_In in Hin.
  apply negb_true_iff in Hn. congruence.
Qed.

Section Distinct.

Variable cwd : Path.t.
Variable searchTerms : list string.
Variable repo : string.

Lemma searchLoop_distinct p stem :
  Forall (fun n => validName n = true) stem ->
  Path.components p = Path.components cwd ++ "repos" :: stem ->
  forall entries results,
    uniqueNames (List.map name entries) = true ->
    Forall (fun e => wellFormed e = true) entries ->
    Forall (distinctBelow cwd searchTerms repo) entries ->
    NoDup (List.map path results) ->
    Forall (fun r => exists m names,
              ~ In m (List.map name entries) /\
              Forall (fun n => validName n = true) (m :: names) /\
              path r = String.concat "/" (stem ++ m :: names)) results ->
    NoDup (List.map path
             (fst (searchLoop cwd (walk cwd repo searchTerms) p repo searchTerms
                     entries results))) /\
    Forall (fun r => exists names,
              names <> [] /\ Forall (fun n => validName n = true) names /\
              path r = String.concat "/" (stem ++ names))
      (fst (searchLoop cwd (walk cwd repo searchTerms) p repo searchTerms
              entries results)).
Proof.
  intros Hstem Hp.
  induction entries as [|e entries IH]; intros results Hu Hwf Hall Hnodup Hres.
  - cbn [searchLoop fst]. split; [exact Hnodup|].
    revert Hres. apply Forall_impl.
    intros r (m & names & _ & Hvalid & Hpath).
    exists (m :: names). split; [discriminate|]. now split.
  - cbn [List.map] in Hu. apply uniqueNames_cons in Hu. destruct Hu as [Hfresh Hu].
    inversion Hwf as [|? ? He Hwf']; subst.
    inversion Hall as [|? ? Hde Hall']; subst.
    pose proof (wellFormed_name _ He) as Hname.
    specialize (IH).
    assert (Hkeep : forall results',
              NoDup (List.map path results') ->
              Forall (fun r => exists m names,
                        ~ In m (List.map name entries) /\
                        Forall (fun n => validName n = true) (m :: names) /\
                        path r = String.concat "/" (stem ++ m :: names)) results' ->
              NoDup (List.map path
                       (fst (searchLoop cwd (walk cwd repo searchTerms) p repo searchTerms
                               entries results'))) /\
              Forall (fun r => exists names,
                        names <> [] /\ Forall (fun n => validName n = true) names /\
                        path r = String.concat "/" (stem ++ names))
                (fst (searchLoop cwd (walk cwd repo searchTerms) p repo searchTerms
                        entries results')))
      by (intros results' H1 H2; now apply IH).
    assert (Hold : Forall (fun r => exists m names,
                             ~ In m (List.map name entries) /\
                             Forall (fun n => validName n = true) (m :: names) /\
                             path r = String.concat "/" (stem ++ m :: names)) results).
    { revert Hres. apply Forall_impl.
      intros r (m & names & Hm & Hvalid & Hpath).
      exists m, names. split; [|now split].
      intros Hin. apply Hm. now right. }
    assert (Hadd : forall sub,
              NoDup (List.map path sub) ->
              Forall (fun r => exists names,
                        Forall (fun n => validName n = true) names /\
                        path r = String.concat "/" (stem ++ name e :: names)) sub ->
              NoDup (List.map path (results ++ sub)) /\
              Forall (fun r => exists m names,
                        ~ In m (List.map name entries) /\
                        Forall (fun n => validName n = true) (m :: names) /\
                        path r = String.concat "/" (stem ++ m :: names))
                (results ++ sub)).
    { intros sub Hsub Hpaths. split.
      - rewrite map_app. apply NoDup_app; [exact Hnodup|exact Hsub|].
        intros x Hx Hx'. apply in_map_iff in Hx, Hx'.
        destruct Hx as (r & <- & Hr). destruct Hx' as (r' & Heq & Hr').
        rewrite Forall_forall in Hres, Hpaths.
        destruct (Hres _ Hr) as (m & names & Hm & Hvalid & Hpath).
        destruct (Hpaths _ Hr') as (names' & Hvalid' & Hpath').
        rewrite Hpath, Hpath' in Heq.
        apply concat_injective in Heq.
        + apply app_inv_head in Heq. injection Heq as Heq _.
          apply Hm. left. exact Heq.
        + apply Forall_app. split; [exact Hstem|]. now constructor.
        + apply Forall_app. split; [exact Hstem|exact Hvalid].
        + now destruct stem.
        + now destruct stem.
      - apply Forall_app. split; [exact Hold|].
        revert Hpaths. apply Forall_impl.
        intros r (names & Hvalid & Hpath).
        exists (name e), names. split; [exact Hfresh|]. split; [now constructor|exact Hpath]. }
    cbn [searchLoop].
    destruct (descends e) eqn:Hd.
    + destruct (walk cwd repo searchTerms (Path.join p [name e]) e) as [sub| |] eqn:Hw;
        cbn [fst].
      * unfold walk in Hw.
        destruct (Hde (Path.join p [name e]) (stem ++ [name e]) sub He) as [Hsub Hpaths].
        -- apply Forall_app. split; [exact Hstem|now constructor].
        -- rewrite join_valid by exact Hname. cbn [pathOf Path.components].
           rewrite Hp, <- app_assoc. reflexivity.
        -- exact Hw.
        -- destruct (Hadd sub Hsub) as [H1 H2]; [|now apply Hkeep].
           revert Hpaths. apply Forall_impl.
           intros r (names & Hne & Hvalid & Hpath).
           exists names. split; [exact Hvalid|].
           rewrite Hpath, <- app_assoc. reflexivity.
      * split; [exact Hnodup|].
        revert Hres. apply Forall_impl.
        intros r (m & names & _ & Hvalid & Hpath).
        exists (m :: names). split; [discriminate|]. now split.
      * split; [exact Hnodup|].
        revert Hres. apply Forall_impl.
        intros r (m & names & _ & Hvalid & Hpath).
        exists (m :: names). split; [discriminate|]. now split.
    + destruct (isFile e && isSearchableFile (name e)); [|now apply Hkeep].
      destruct (readEntry e) as [text| |] eqn:Hr; cbn [bind].
      * destruct (findMatches cwd text searchTerms (Path.join p [name e]) repo)
          as [matches| |] eqn:Hm; cbn [fst].
        -- destruct (Hadd matches) as [H1 H2]; [| |now apply Hkeep].
           ++ destruct (findMatches_Ok _ _ _ _ _ _ Hm) as [->|(k & t & _ & _ & _ & ->)].
              ** constructor.
              ** cbn [List.map]. constructor; [intros []|constructor].
           ++ apply Forall_forall. intros r Hin.
              rewrite (findMatches_singleton _ _ _ _ _ _ _ Hm Hin) in Hm.
              destruct (findMatches_fields _ _ _ _ _ _ Hm) as (_ & Hpath & _).
              exists []. split; [constructor|].
              rewrite Hpath, join_valid by exact Hname.
              rewrite Hp.
              change (Path.components cwd ++ "repos" :: stem)
                with (Path.components cwd ++ ["repos"] ++ stem).
              rewrite app_assoc, <- app_assoc.
              apply relative_below. apply components_reposPath.
        -- now apply Hkeep.
        -- split; [exact Hnodup|].
           revert Hres. apply Forall_impl.
           intros r (m & names & _ & Hvalid & Hpath).
           exists (m :: names). split; [discriminate|]. now split.
      * now apply Hkeep.
      * split; [exact Hnodup|].
        revert Hres. apply Forall_impl.
        intros r (m & names & _ & Hvalid & Hpath).
        exists (m :: names). split; [discriminate|]. now split.
Qed.

Lemma searchInDirectory_distinct e : distinctBelow cwd searchTerms repo e.
Proof.
  induction e as [n c|n|n|n l IH] using entry_induction;
    intros p stem rs Hwf Hstem Hp Hs.
  - injection Hs as <-. split; constructor.
  - injection Hs as <-. split; constructor.
  - rewrite searchInDirectory_closed in Hs. injection Hs as <-. split; constructor.
  - rewrite searchInDirectory_Dir in Hs. unfold returnResults in Hs.
    assert (Hfst : rs = fst (searchLoop cwd (walk cwd repo searchTerms) p repo
                               searchTerms l []))
      by (destruct (snd _); congruence).
    rewrite Hfst. destruct (wellFormed_Dir _ _ Hwf) as [Hu Hall].
    apply (searchLoop_distinct p stem Hstem Hp l []).
    + exact Hu.
    + now apply Forall_forall.
    + exact IH.
    + constructor.
    + constructor.
Qed.

End Distinct.

Lemma reposLoop_distinct cwd root searchTerms :
  forallb wellFormed root = true ->
  forall repos results l,
    uniqueNames repos = true ->
    Forall (fun n => validName n = true) repos ->
    NoDup (List.map path results) ->
    Forall (fun r => exists m names,
              ~ In m repos /\
              Forall (fun n => validName n = true) (m :: names) /\
              path r = String.concat "/" (m :: names)) results ->
    reposLoop cwd root repos searchTerms results = Ok l ->
    NoDup (List.map path l).
Proof.
  intros Hroot.
  induction repos as [|repo repos IH]; intros results l Hu Hvalid Hnodup Hres Hl.
  - injection Hl as <-. exact Hnodup.
  - apply uniqueNames_cons in Hu. destruct Hu as [Hfresh Hu].
    inversion Hvalid as [|? ? Hrepo Hvalid']; subst.
    assert (Hold : Forall (fun r => exists m names,
                             ~ In m repos /\
                             Forall (fun n => validName n = true) (m :: names) /\
                             path r = String.concat "/" (m :: names)) results).
    { revert Hres. apply Forall_impl.
      intros r (m & names & Hm & Hv & Hpath).
      exists m, names. split; [|now split].
      intros Hin. apply Hm. now right. }
    cbn [reposLoop] in Hl.
    destruct (Fs.stat root (Path.join (reposPath cwd) [repo])) as [stats| |] eqn:Hst;
      cbn [bind] in Hl; [|now apply (IH results l)|discriminate Hl].
    destruct (isDirectory stats); [|now apply (IH results l)].
    destruct (searchInDirectory cwd (Path.join (reposPath cwd) [repo]) repo searchTerms
                stats) as [rs| |] eqn:Hs; cbn [bind] in Hl;
      [|now apply (IH results l)|discriminate Hl].
    rewrite repository_path in Hst, Hs by exact Hrepo.
    apply stat_lookup in Hst;
      [|cbn [pathOf Path.components]; now destruct (Path.components cwd)].
    cbn [pathOf Path.components] in Hst.
    pose proof (lookup_wellFormed _ _ _ Hroot Hst) as Hstats.
    destruct (searchInDirectory_distinct cwd searchTerms repo stats
                (pathOf (Path.components cwd ++ ["repos"; repo])) [repo] rs Hstats)
      as [Hsub Hpaths].
    + now constructor.
    + reflexivity.
    + exact Hs.
    + apply (IH (results ++ rs) l Hu Hvalid'); [| |exact Hl].
      * rewrite map_app. apply NoDup_app; [exact Hnodup|exact Hsub|].
        intros x Hx Hx'. apply in_map_iff in Hx, Hx'.
        destruct Hx as (r & <- & Hr). destruct Hx' as (r' & Heq & Hr').
        rewrite Forall_forall in Hres, Hpaths.
        destruct (Hres _ Hr) as (m & names & Hm & Hv & Hpath).
        destruct (Hpaths _ Hr') as (names' & Hne & Hv' & Hpath').
        rewrite Hpath, Hpath' in Heq.
        apply concat_injective in Heq; try discriminate.
        -- injection Heq as Heq _. apply Hm. left. exact Heq.
        -- now constructor.
        -- exact Hv.
      * apply Forall_app. split; [exact Hold|].
        revert Hpaths. apply Forall_impl.
        intros r (names & Hne & Hv & Hpath).
        exists repo, names. split; [exact Hfresh|]. split; [now constructor|exact Hpath].
Qed.

(** X21. In a well-formed tree no document is listed twice: the paths
    of the results of a search are pairwise distinct. *)
Theorem search_results_distinct (cwd : Path.t) (root : list entry) (query : string)
  (l : list SearchResult) :
  wellFormedListing root = true ->
  searchRepositoryDocuments cwd root query = Ok l ->
  NoDup (List.map path l).
Proof.
  intros Hwf Hs. unfold wellFormedListing in Hwf.
  apply andb_prop in Hwf. destruct Hwf as [_ Hwf].
  unfold searchRepositoryDocuments in Hs.
  destruct (reposLoop cwd root repositories (searchTermsOf query) [])
    as [encountered| |] eqn:Hl; cbn [bind] in Hs; try discriminate.
  replace l with (Array_sort byScore encountered) by congruence.
  apply (Permutation_NoDup (Permutation_map path (Array_sort_perm encountered))).
  apply (reposLoop_distinct cwd root (searchTermsOf query) Hwf repositories []
           encountered); try assumption.
  - reflexivity.
  - repeat constructor.
  - constructor.
  - constructor.
Qed.

Lemma search_results_distinct_witness :
  exists l,
    searchRepositoryDocuments Sample.app Sample.plain "" = Ok l /\
    List.length l = 4 /\ NoDup (List.map path l).
Proof.
  destruct (searchRepositoryDocuments Sample.app Sample.plain "") as [l| |] eqn:Hs;
    [|vm_compute in Hs; discriminate Hs..].
  exists l. split; [reflexivity|]. split.
  - vm_compute in Hs. injection Hs as <-. reflexivity.
  - exact (search_results_distinct Sample.app Sample.plain "" l eq_refl Hs).
Defined.

(* ================================================================== *)
(** ** One more term *)
(* ================================================================== *)

Lemma map_append f a b :
  JsString.map f (a ++ b) = (JsString.map f a ++ JsString.map f b)%string.
Proof. induction a as [|c a IH]; [reflexivity|]. cbn. now rewrite IH. Qed.

Lemma split_single sep s :
  includes s (String sep EmptyString) = false -> split sep s = [s].
Proof.
  induction s as [|c s IH]; [reflexivity|].
  rewrite includes_cons. intros H. apply orb_false_elim in H.
  destruct H as [Hc Hs]. cbn [split]. rewrite Hc, (IH Hs). reflexivity.
Qed.

Lemma includes_space_lower s : includes (toLowerCase s) " " = includes s " ".
Proof.
  unfold toLowerCase. induction s as [|c s IH]; [reflexivity|].
  cbn [JsString.map]. now rewrite !includes_cons, toLowerCaseChar_space, IH.
Qed.

Lemma searchTermsOf_append query word :
  includes word " " = false ->
  searchTermsOf (query ++ " " ++ word) = searchTermsOf query ++ [toLowerCase word].
Proof.
  intros Hword. unfold searchTermsOf, toLowerCase.
  rewrite map_append. cbn [String.append JsString.map].
  change (toLowerCaseChar " ") with " "%char.
  rewrite split_app. f_equal. apply split_single.
  fold (toLowerCase word). now rewrite includes_space_lower.
Qed.

Lemma findMatches_one_more_term cwd doc searchTerms term filePath repo r :
  Forall (fun t => isLiteral t = true) searchTerms -> isLiteral term = true ->
  findMatches cwd doc searchTerms filePath repo = Ok [r] ->
  exists r',
    findMatches cwd doc (searchTerms ++ [term]) filePath repo = Ok [r'] /\
    path r' = path r /\ title r' = title r /\
    score r' = score r + countOccurrences (toLowerCase doc) term.
Proof.
  intros Hliteral Hterm Hm.
  destruct (findMatches_fields _ _ _ _ _ _ Hm) as (Htitle & Hpath & _ & Hpos & Hscore & _).
  rewrite (scoreLoop_literal _ _ Hliteral) in Hscore. injection Hscore as Hscore.
  assert (Hall : Forall (fun t => isLiteral t = true) (searchTerms ++ [term]))
    by (apply Forall_app; split; [exact Hliteral|now constructor]).
  unfold findMatches. rewrite (scoreLoop_literal _ _ Hall). cbn [bind].
  rewrite map_app, list_sum_app. cbn [List.map list_sum fold_right Nat.add].
  rewrite Nat.add_0_r.
  destruct (list_sum (List.map (countOccurrences (toLowerCase doc)) searchTerms) +
            countOccurrences (toLowerCase doc) term =? 0) eqn:Hzero;
    [apply Nat.eqb_eq in Hzero; cbn [Nat.add] in Hscore; lia|].
  unfold createExcerpt.
  destruct (relevantLoop (split (ascii_of_nat 10) doc) (searchTerms ++ [term]) 0
              (split (ascii_of_nat 10) doc)) as [|best rest]; cbn [bind].
  - eexists. split; [reflexivity|]. cbn [path title score].
    rewrite Htitle, Hpath, <- Hscore. now repeat split.
  - destruct (highlight_literal _ Hall (content best)) as [text ->]. cbn [bind].
    destruct (500 <? String.length text); eexists; (split; [reflexivity|]);
      cbn [path title score]; rewrite Htitle, Hpath, <- Hscore; now repeat split.
Qed.

(** X22. The words of a query are alternatives: for a query of terms
    without syntax characters, one more such word never loses a document.
    Every result of the shorter query has a result of the longer query with
    the same path and title and with a score that is not smaller. *)
Theorem one_more_term_keeps_documents (cwd : Path.t) (root : list entry)
  (query word : string) (l : list SearchResult) (r : SearchResult) :
  Forall (fun t => isLiteral t = true) (searchTermsOf query) ->
  isLiteral (toLowerCase word) = true -> includes word " " = false ->
  searchRepositoryDocuments cwd root query = Ok l -> In r l ->
  exists l' r',
    searchRepositoryDocuments cwd root (query ++ " " ++ word) = Ok l' /\
    In r' l' /\ path r' = path r /\ title r' = title r /\ score r <= score r'.
Proof.
  intros Hliteral Hword Hspace Hs Hin.
  assert (Hterms : Forall (fun t => isLiteral t = true)
                     (searchTermsOf (query ++ " " ++ word))).
  { rewrite (searchTermsOf_append _ _ Hspace). apply Forall_app.
    split; [exact Hliteral|now constructor]. }
  destruct (searchRepositoryDocuments_returns cwd root (query ++ " " ++ word))
    as [l' Hl'].
  { revert Hterms. apply Forall_impl. intros t Ht. unfold modelled.
    now rewrite (create_literal _ Ht). }
  unfold searchRepositoryDocuments in Hs.
  destruct (reposLoop cwd root repositories (searchTermsOf query) [])
    as [encountered| |] eqn:Hloop; cbn [bind] in Hs; try discriminate.
  assert (Hsort : l = Array_sort byScore encountered) by congruence.
  rewrite Hsort in Hin.
  apply (Permutation_in _ (Permutation_sym (Array_sort_perm encountered))) in Hin.
  destruct (reposLoop_sound _ _ _ _ _ _ _ Hloop Hin)
    as [[]|(repo & stats & names & text & Hrepo & Hst & n & Hwalk & Hsearchable & Hm)].
  destruct (findMatches_one_more_term _ _ _ (toLowerCase word) _ _ _ Hliteral Hword Hm)
    as (r' & Hm' & Hpath & Htitle & Hscore).
  rewrite <- (searchTermsOf_append _ _ Hspace) in Hm'.
  exists l', r'. split; [exact Hl'|]. split; [|split; [exact Hpath|split; [exact Htitle|lia]]].
  unfold searchRepositoryDocuments in Hl'.
  destruct (reposLoop cwd root repositories (searchTermsOf (query ++ " " ++ word)) [])
    as [encountered'| |] eqn:Hloop'; cbn [bind] in Hl'; try discriminate.
  replace l' with (Array_sort byScore encountered') by congruence.
  apply (Permutation_in _ (Array_sort_perm encountered')).
  destruct (reposLoop_complete _ _ _ _ _ _ Hloop') as [_ Hall].
  assert (Hdir : isDirectory stats = true) by (now destruct Hwalk).
  destruct (Hall repo stats Hrepo Hst Hdir) as (rs & Hrs & Hincl).
  apply Hincl.
  now apply (searchInDirectory_complete cwd (searchTermsOf (query ++ " " ++ word)) repo
               stats names (File n (Some text)) Hwalk n text eq_refl Hsearchable
               _ _ _ Hrs).
Qed.

(** The query [flow] finds [docs/docs/a.md]; so does [flow fee], and
    with a higher score. *)
Lemma one_more_term_keeps_documents_witness :
  exists r l' r',
    searchRepositoryDocuments Sample.app Sample.plain "flow" = Ok [r] /\
    searchRepositoryDocuments Sample.app Sample.plain ("flow" ++ " " ++ "fee") = Ok l' /\
    In r' l' /\ path r' = path r /\ title r' = title r /\ score r <= score r'.
Proof.
  destruct (searchRepositoryDocuments Sample.app Sample.plain "flow") as [l| |] eqn:Hs;
    [|vm_compute in Hs; discriminate Hs..].
  destruct l as [|r [|r2 l]];
    [vm_compute in Hs; discriminate Hs| |vm_compute in Hs; discriminate Hs].
  destruct (one_more_term_keeps_documents Sample.app Sample.plain "flow" "fee" [r] r)
    as (l' & r' & H).
  - repeat constructor.
  - reflexivity.
  - reflexivity.
  - exact Hs.
  - now left.
  - exists r, l', r'. split; [reflexivity|exact H].
Defined.

(* ================================================================== *)
(** ** The marks of the excerpt *)
(* ================================================================== *)

Lemma matcher_literal_ignoring_case t tail :
  forall x c,
    RegExp.matcher true (literalTree t tail) x c =
    match afterPrefixIgnoringCase t (RegExp.rest x) with
    | Some s' =>
        RegExp.matcher true tail
          {| RegExp.endIndex := RegExp.endIndex x + String.length t;
             RegExp.rest := s';
             RegExp.captures := RegExp.captures x |} c
    | None => None
    end.
Proof.
  induction t as [|a t IH]; intros x c.
  - cbn [literalTree afterPrefixIgnoringCase String.length]. rewrite Nat.add_0_r.
    now destruct x.
  - cbn [literalTree RegExp.matcher].
    destruct (RegExp.rest x) as [|b s'] eqn:Hrest; cbn [afterPrefixIgnoringCase];
      [reflexivity|].
    destruct (Ascii.eqb (RegExp.canonicalize true a) (RegExp.canonicalize true b));
      [|reflexivity].
    rewrite IH.
    cbn [RegExp.advance RegExp.rest RegExp.endIndex RegExp.captures String.length].
    now rewrite Nat.add_succ_r.
Qed.

Lemma match_at_literal_group t i s :
  RegExp.match_at true (literalGroup t) i s =
  match afterPrefixIgnoringCase t s with
  | Some s' =>
      Some {| RegExp.endIndex := i + String.length t;
              RegExp.rest := s';
              RegExp.captures := [(1, substring_to (String.length t) s)] |}
  | None => None
  end.
Proof.
  unfold RegExp.match_at, literalGroup. cbn [RegExp.source_tree RegExp.matcher].
  rewrite matcher_literal_ignoring_case. cbn [RegExp.rest RegExp.endIndex RegExp.captures].
  destruct (afterPrefixIgnoringCase t s) as [s'|]; [|reflexivity].
  cbn [RegExp.matcher]. unfold RegExp.set_capture.
  cbn [RegExp.rest RegExp.endIndex RegExp.captures].
  now replace (i + String.length t - i) with (String.length t) by lia.
Qed.

(** The replacement under a literal in a group marks its occurrences. *)
Lemma replace_all_literal t s :
  forall i skip,
    RegExp.replace_all (literalGroup t) i s skip = boldOccurrences t s skip.
Proof.
  induction s as [|ch s IH]; intros i skip.
  - destruct skip as [|skip]; [|reflexivity].
    cbn [RegExp.replace_all boldOccurrences]. rewrite match_at_literal_group.
    destruct (afterPrefixIgnoringCase t "") as [s'|]; [|reflexivity].
    unfold RegExp.substitution_bold, RegExp.lookup_capture.
    cbn [literalGroup RegExp.nGroups Nat.leb RegExp.captures find fst snd Nat.eqb
         option_map].
    now rewrite !append_assoc.
  - destruct skip as [|skip]; [|cbn [RegExp.replace_all boldOccurrences]; apply IH].
    cbn [RegExp.replace_all boldOccurrences]. rewrite match_at_literal_group.
    destruct (afterPrefixIgnoringCase t (String ch s)) as [s'|];
      [|now rewrite IH].
    unfold RegExp.substitution_bold, RegExp.lookup_capture.
    cbn [literalGroup RegExp.nGroups Nat.leb RegExp.captures find fst snd Nat.eqb
         option_map RegExp.endIndex].
    rewrite !append_assoc. do 3 f_equal.
    replace (i + String.length t =? i) with (String.length t =? 0).
    + replace (i + String.length t - i) with (String.length t) by lia.
      now rewrite !IH.
    + destruct (String.length t) as [|n].
      * rewrite Nat.add_0_r. cbn [Nat.eqb]. symmetry. apply Nat.eqb_refl.
      * symmetry. apply Nat.eqb_neq. lia.
Qed.

Lemma highlight_boldOccurrences terms :
  Forall (fun t => isLiteral t = true) terms ->
  forall excerpt,
    highlight excerpt terms =
    Ok (fold_left (fun text t => boldOccurrences t text 0) terms excerpt).
Proof.
  induction 1 as [|t terms Ht _ IH]; intros excerpt; [reflexivity|].
  cbn [highlight fold_left]. rewrite (create_literal_group t Ht). cbn [bind].
  unfold RegExp.replaceBold. now rewrite replace_all_literal, IH.
Qed.

Lemma withoutAsterisks_append a b :
  withoutAsterisks (a ++ b) = (withoutAsterisks a ++ withoutAsterisks b)%string.
Proof.
  induction a as [|c a IH]; [reflexivity|].
  cbn [String.append withoutAsterisks]. destruct (Ascii.eqb c "*"); [exact IH|].
  cbn [String.append]. now rewrite IH.
Qed.

Lemma substring_to_from n :
  forall s, (substring_to n s ++ substring_from n s)%string = s.
Proof.
  induction n as [|n IH]; intros [|c s]; cbn; try reflexivity.
  now rewrite IH.
Qed.

Lemma boldOccurrences_text t s :
  forall skip,
    withoutAsterisks (boldOccurrences t s skip) =
    withoutAsterisks (substring_from skip s).
Proof.
  induction s as [|ch s IH]; intros skip.
  - destruct skip as [|skip]; [|reflexivity].
    cbn [boldOccurrences substring_from].
    destruct (afterPrefixIgnoringCase t ""); [|reflexivity].
    now destruct (String.length t).
  - destruct skip as [|skip]; [|cbn [boldOccurrences substring_from]; apply IH].
    cbn [boldOccurrences substring_from].
    destruct (afterPrefixIgnoringCase t (String ch s)) as [s'|].
    + rewrite !withoutAsterisks_append.
      change (withoutAsterisks "**") with "". cbn [String.append].
      destruct (String.length t) as [|n] eqn:Hn.
      * cbn [Nat.eqb substring_to withoutAsterisks String.append].
        now rewrite IH.
      * cbn [Nat.eqb Nat.pred substring_to]. rewrite IH, <- withoutAsterisks_append.
        change (String ch (substring_to n s) ++ substring_from n s)%string
          with (String ch (substring_to n s ++ substring_from n s)).
        now rewrite substring_to_from.
    + cbn [withoutAsterisks]. now rewrite IH.
Qed.

Lemma boldOccurrences_length t s :
  forall skip,
    String.length (substring_from skip s) <= String.length (boldOccurrences t s skip).
Proof.
  induction s as [|ch s IH]; intros skip.
  - destruct skip; cbn [substring_from String.length]; lia.
  - destruct skip as [|skip]; [|cbn [boldOccurrences substring_from]; apply IH].
    cbn [boldOccurrences substring_from].
    destruct (afterPrefixIgnoringCase t (String ch s)) as [s'|].
    + rewrite !length_append. change (String.length "**") with 2.
      destruct (String.length t) as [|n] eqn:Hn.
      * cbn [Nat.eqb String.length]. specialize (IH 0). cbn [substring_from] in IH. lia.
      * cbn [Nat.eqb Nat.pred substring_to String.length].
        specialize (IH n).
        pose proof (f_equal String.length (substring_to_from n s)) as Hsplit.
        rewrite length_append in Hsplit. lia.
    + cbn [String.length]. specialize (IH 0). cbn [substring_from] in IH. lia.
Qed.

(** X23. Highlighting with terms without syntax characters marks
    occurrences: term after term, each occurrence of the term in the text
    so far, case ignored and taken from the left without overlap, is put
    between two pairs of asterisks; a later term is also marked inside the
    marks of an earlier one. *)
Theorem highlight_marks_occurrences (searchTerms : list string) (text : string) :
  Forall (fun t => isLiteral t = true) searchTerms ->
  highlight text searchTerms =
  Ok (fold_left (fun marked t => boldOccurrences t marked 0) searchTerms text).
Proof.
  intros Hliteral. revert text.
  induction Hliteral as [|t terms Ht _ IH]; intros text; [reflexivity|].
  cbn [fold_left]. rewrite <- IH.
  cbn [highlight]. rewrite (create_literal_group t Ht). cbn [bind].
  unfold RegExp.replaceBold. now rewrite replace_all_literal.
Qed.

Lemma highlight_marks_occurrences_witness :
  highlight "Fees and fee" ["fee"; "e"] = Ok "**F**e****e****s and **f**e****e****" /\
  boldOccurrences "fee" "Fees and fee" 0 = "**Fee**s and **fee**".
Proof.
  split; [|reflexivity].
  rewrite (highlight_marks_occurrences ["fee"; "e"] "Fees and fee");
    [reflexivity|repeat constructor].
Defined.

(** X24. Highlighting with terms without syntax characters adds
    asterisks and nothing else: without its asterisks the marked text is
    the text without its asterisks, and it is not shorter than the text. *)
Theorem highlight_adds_asterisks_only (searchTerms : list string) (text : string) :
  Forall (fun t => isLiteral t = true) searchTerms ->
  exists marked,
    highlight text searchTerms = Ok marked /\
    withoutAsterisks marked = withoutAsterisks text /\
    String.length text <= String.length marked.
Proof.
  intros Hliteral. rewrite (highlight_boldOccurrences _ Hliteral).
  eexists. split; [reflexivity|].
  clear Hliteral. revert text.
  induction searchTerms as [|t terms IH]; intros text;
    [cbn [fold_left]; split; [reflexivity|lia]|].
  cbn [fold_left]. destruct (IH (boldOccurrences t text 0)) as [Hsame Hlen].
  split.
  - rewrite Hsame. apply (boldOccurrences_text t text 0).
  - pose proof (boldOccurrences_length t text 0) as Hgrow.
    cbn [substring_from] in Hgrow. lia.
Qed.

Lemma highlight_adds_asterisks_only_witness :
  exists marked,
    highlight "c*d and CD" ["cd"; "and"] = Ok marked /\
    withoutAsterisks marked = "cd and CD" /\
    String.length "c*d and CD" <= String.length marked.
Proof.
  destruct (highlight_adds_asterisks_only ["cd"; "and"] "c*d and CD")
    as (marked & Hm & Hsame & Hlen); [repeat constructor|].
  exists marked. split; [exact Hm|]. split; [exact Hsame|exact Hlen].
Defined.
